(** * Resumable transfer engine of the Google Photos uploader

    Shallow embedding of [google_photos_transfer_app.py]: the SQLite state
    store ([TransferDB]), the folder algorithm ([TransferApp.process_folder])
    and the session driver ([TransferApp.start_transfer]).

    Conventions of the embedding.
    - Python [str] values are Rocq strings of 8-bit characters; [str.lower]
      is modelled on the ASCII letters.
    - [pathlib.Path(p).as_posix()] and the [os.path] helpers are modelled in
      their POSIX flavour ([PurePosixPath], [posixpath]).
    - The two SQLite tables are finite maps keyed by the [path] primary key.
    - The remote service is an oracle over the history of exchanges made so
      far; every remote call appends one exchange to that history, so the
      history is at the same time the trace of remote calls.
    - [log_message] only writes to the console and the log file and is left
      out; so are the widgets, apart from what the driver shows.
    - SQLite calls are taken to succeed: the code catches no database
      error apart from those inside the [try] blocks around the remote
      calls. *)

From Stdlib Require Import Ascii String List Arith Bool Lia.
From stdpp Require Import base option list gmap strings sorting.
Import ListNotations.

Local Open Scope string_scope.
Local Open Scope list_scope.

(** String append unfolds on constructors, as list append does. *)
#[local] Arguments String.append !s1 s2 / : simpl nomatch.

(* ===================================================================== *)
(** ** Strings as Python uses them *)
(* ===================================================================== *)

Module Py.

(** [c.lower()] on one ASCII character. *)
Definition lower_ascii (c : ascii) : ascii :=
  let n := nat_of_ascii c in
  if (65 <=? n)%nat && (n <=? 90)%nat then ascii_of_nat (n + 32) else c.

(** [s.lower()]. *)
Fixpoint lower (s : string) : string :=
  match s with
  | EmptyString => EmptyString
  | String c t => String (lower_ascii c) (lower t)
  end.

(** [s.startswith(p)]. *)
Definition startswith (s p : string) : bool := String.prefix p s.

(** [needle in hay]: some suffix of [hay] starts with [needle]. *)
Fixpoint contains (needle hay : string) : bool :=
  if String.prefix needle hay then true
  else match hay with
       | EmptyString => false
       | String _ t => contains needle t
       end.

(** [s.endswith("/")]. *)
Fixpoint ends_with_slash (s : string) : bool :=
  match s with
  | EmptyString => false
  | String c EmptyString => Ascii.eqb c "/"
  | String _ t => ends_with_slash t
  end.

(** [s.rfind(c)], with [None] for Python's [-1]. *)
Fixpoint rfind_from (c : ascii) (s : string) (i : nat) (found : option nat)
  : option nat :=
  match s with
  | EmptyString => found
  | String d t =>
      rfind_from c t (S i) (if Ascii.eqb d c then Some i else found)
  end.

Definition rfind (c : ascii) (s : string) : option nat :=
  rfind_from c s 0 None.

(** [s[i:]]. *)
Fixpoint drop_chars (i : nat) (s : string) : string :=
  match i, s with
  | O, _ => s
  | S k, String _ t => drop_chars k t
  | S _, EmptyString => EmptyString
  end.

(** [s.split("/")]: the pieces between the separators, empty ones kept. *)
Fixpoint split_slash (cur : string) (s : string) : list string :=
  match s with
  | EmptyString => [cur]
  | String c t =>
      if Ascii.eqb c "/" then cur :: split_slash EmptyString t
      else split_slash (cur +:+ String c EmptyString) t
  end.

(** ["/".join(parts)]. *)
Fixpoint join_slash (parts : list string) : string :=
  match parts with
  | [] => EmptyString
  | [p] => p
  | p :: rest => p +:+ "/" +:+ join_slash rest
  end.

End Py.

(* ===================================================================== *)
(** ** [pathlib] and [os.path], POSIX flavour *)
(* ===================================================================== *)

Module PosixPath.

(** [posixpath.splitroot]: the root is ["/"], or ["//"] for exactly two
    leading slashes, or empty. *)
Definition splitroot (p : string) : string * string :=
  match p with
  | String "/" (String "/" (String "/" t)) => ("/", String "/" (String "/" t))
  | String "/" (String "/" t) => ("//", t)
  | String "/" t => ("/", t)
  | _ => ("", p)
  end.

Definition keep_part (x : string) : bool :=
  negb (String.eqb x "") && negb (String.eqb x ".").

(** [Path(p).as_posix()]: empty and ["."] components are dropped, the
    root is kept, and the empty path prints as ["."].  Letter case and
    backslashes are left as they are. *)
Definition as_posix (p : string) : string :=
  let '(root, rel) := splitroot p in
  let parts := List.filter keep_part (Py.split_slash "" rel) in
  match root, parts with
  | EmptyString, [] => "."
  | _, _ => root +:+ Py.join_slash parts
  end.

(** [os.path.basename(p)]: what follows the last slash. *)
Definition basename (p : string) : string :=
  match Py.rfind "/" p with
  | None => p
  | Some i => Py.drop_chars (S i) p
  end.

(** [os.path.join(a, b)]. *)
Definition join (a b : string) : string :=
  if Py.startswith b "/" then b
  else if String.eqb a "" || Py.ends_with_slash a then a +:+ b
  else a +:+ "/" +:+ b.

(** Is there a character other than ['.'] at an index in [lo, hi)? *)
Fixpoint has_non_dot (s : string) (i lo hi : nat) : bool :=
  match s with
  | EmptyString => false
  | String c t =>
      ((lo <=? i)%nat && (i <? hi)%nat && negb (Ascii.eqb c "."))
      || has_non_dot t (S i) lo hi
  end.

(** [os.path.splitext(p)[1]]: the text from the last dot on, provided the
    dot comes after the last slash and is not one of the leading dots of
    the file name. *)
Definition splitext_ext (p : string) : string :=
  let name_start := match Py.rfind "/" p with None => 0 | Some i => S i end in
  match Py.rfind "." p with
  | None => ""
  | Some dot =>
      if (name_start <=? dot)%nat && has_non_dot p 0 name_start dot
      then Py.drop_chars dot p
      else ""
  end.

End PosixPath.

Import PosixPath.

(* ===================================================================== *)
(** ** The state store: [class TransferDB] *)
(* ===================================================================== *)

(** A row of table [folders] without its key: [(album_id, status)];
    [album_id] is nullable.  A row of table [files] without its key:
    [(folder_path, status)].  The foreign key of [files] is declared but
    SQLite does not enforce it unless asked to, and the code never asks. *)
Record TransferDB : Type := mkDB {
  folders : gmap string (option string * string);
  files : gmap string (string * string)
}.

Definition empty_db : TransferDB := mkDB ∅ ∅.

(** [SELECT album_id, status FROM folders WHERE path = ?] then [fetchone]. *)
Definition get_folder_resumption_data (db : TransferDB) (folder_path : string)
  : option (option string * string) :=
  let folder_path := as_posix folder_path in
  folders db !! folder_path.

(** [INSERT INTO folders (path, album_id) VALUES (?, ?)
     ON CONFLICT(path) DO UPDATE SET album_id = excluded.album_id];
    a new row takes the column default ['pending']. *)
Definition set_folder_album (db : TransferDB) (folder_path : string)
    (album_id : option string) : TransferDB :=
  let folder_path := as_posix folder_path in
  match folders db !! folder_path with
  | Some (_, status) =>
      mkDB (<[folder_path := (album_id, status)]> (folders db)) (files db)
  | None =>
      mkDB (<[folder_path := (album_id, "pending")]> (folders db)) (files db)
  end.

(** [UPDATE folders SET status = ? WHERE path = ?]: no row, no change. *)
Definition set_folder_status (db : TransferDB) (folder_path status : string)
  : TransferDB :=
  let folder_path := as_posix folder_path in
  match folders db !! folder_path with
  | Some (album_id, _) =>
      mkDB (<[folder_path := (album_id, status)]> (folders db)) (files db)
  | None => db
  end.

(** [SELECT 1 FROM files WHERE path = ? AND status = 'uploaded']. *)
Definition is_file_uploaded (db : TransferDB) (file_path : string) : bool :=
  let file_path := as_posix file_path in
  match files db !! file_path with
  | Some (_, status) => String.eqb status "uploaded"
  | None => false
  end.

(** [INSERT INTO files (path, folder_path, status) VALUES (?, ?, 'uploaded')
     ON CONFLICT(path) DO UPDATE SET status = 'uploaded']. *)
Definition mark_file_uploaded (db : TransferDB) (file_path folder_path : string)
  : TransferDB :=
  let file_path := as_posix file_path in
  let folder_path := as_posix folder_path in
  match files db !! file_path with
  | Some (old_folder, _) =>
      mkDB (folders db) (<[file_path := (old_folder, "uploaded")]> (files db))
  | None =>
      mkDB (folders db) (<[file_path := (folder_path, "uploaded")]> (files db))
  end.

(** Derived reading used by the statements: the stored status of a folder. *)
Definition folder_status (db : TransferDB) (folder_path : string)
  : option string :=
  snd <$> get_folder_resumption_data db folder_path.

Definition folder_processed (db : TransferDB) (folder_path : string) : bool :=
  match folder_status db folder_path with
  | Some status => String.eqb status "processed"
  | None => false
  end.

(* ===================================================================== *)
(** ** The remote service *)
(* ===================================================================== *)

(** What a call gives back: a value, or an exception seen through
    [str(e)]. *)
Inductive result (A : Type) : Type :=
| Ok (a : A)
| Err (error_msg : string).
Arguments Ok {A} a.
Arguments Err {A} error_msg.

(** One exchange with the remote service: the call and what came back.
    - [create_album(service, title)] returns [response.get("id")], which
      may be [None];
    - [upload_bytes(service, file_path)] returns the upload token;
    - [batch_create_media_items(service, upload_tokens, album_id)] returns
      the ids of the created items. *)
Inductive exchange : Type :=
| CreateAlbum (title : string) (r : result (option string))
| UploadFile (file_path : string) (r : result string)
| CommitBatch (upload_tokens : list string) (album_id : option string)
              (r : result (list string)).

Definition history : Type := list exchange.

(** The service object: each answer may depend on everything exchanged so
    far (quota running out, a flaky network, ...). *)
Record Service : Type := mkService {
  svc_create_album : history -> string -> result (option string);
  svc_upload_bytes : history -> string -> result string;
  svc_batch_create :
    history -> list string -> option string -> result (list string)
}.

(** [os.walk(top)]: the [(root, files)] pairs in walk order (the
    sub-directory names, which the code ignores, are left out). *)
Definition Walk : Type := string -> list (string * list string).

(** The test [ "quota" in error_msg.lower() or "429" in error_msg ], which
    the code writes out after each of the three remote calls. *)
Definition is_quota_error (error_msg : string) : bool :=
  Py.contains "quota" (Py.lower error_msg) || Py.contains "429" error_msg.

(** Python truthiness of an album id: [None] and [""] are falsy. *)
Definition truthy (album_id : option string) : bool :=
  match album_id with
  | None => false
  | Some s => negb (String.eqb s "")
  end.

Definition image_extensions : list string :=
  [".jpg"; ".jpeg"; ".png"; ".gif"; ".bmp"; ".webp"].

Definition BATCH_SIZE : nat := 10.

(** [range(0, n, step)]. *)
Definition range_step (n step : nat) : list nat :=
  List.map (fun k => k * step) (seq 0 ((n + step - 1) / step)).

(** [l[i : i + n]]. *)
Definition slice {A} (l : list A) (i n : nat) : list A := firstn n (skipn i l).

Section Engine.

Variable service : Service.
Variable walk : Walk.

Definition create_album (h : history) (title : string)
  : history * result (option string) :=
  let r := svc_create_album service h title in
  (h ++ [CreateAlbum title r], r).

Definition upload_bytes (h : history) (file_path : string)
  : history * result string :=
  let r := svc_upload_bytes service h file_path in
  (h ++ [UploadFile file_path r], r).

Definition batch_create_media_items (h : history)
    (upload_tokens : list string) (album_id : option string)
  : history * result (list string) :=
  let r := svc_batch_create service h upload_tokens album_id in
  (h ++ [CommitBatch upload_tokens album_id r], r).

(** Lines 494-501: the files under [folder_path] whose lower-cased
    extension is one of [image_extensions], as [os.path.join(root, f)]. *)
Definition is_image (f : string) : bool :=
  let ext := Py.lower (splitext_ext f) in
  existsb (String.eqb ext) image_extensions.

Definition gather_files (folder_path : string) : list string :=
  flat_map (fun '(root, fs) =>
              List.map (join root) (List.filter is_image fs))
           (walk folder_path).

(** Lines 529-541: the uploads of one batch.  [None] is the early
    [return False] on a quota-type failure; otherwise the collected
    [(upload_tokens, current_batch_paths)]. *)
Fixpoint upload_batch (h : history) (batch : list string)
    (upload_tokens current_batch_paths : list string)
  : history * option (list string * list string) :=
  match batch with
  | [] => (h, Some (upload_tokens, current_batch_paths))
  | file_path :: rest =>
      match upload_bytes h file_path with
      | (h1, Ok token) =>
          upload_batch h1 rest (upload_tokens ++ [token])
                       (current_batch_paths ++ [file_path])
      | (h1, Err error_msg) =>
          if is_quota_error error_msg then (h1, None)
          else upload_batch h1 rest upload_tokens current_batch_paths
      end
  end.

(** Lines 546-547: mark the paths of a committed batch. *)
Definition mark_all (db : TransferDB) (paths : list string)
    (folder_path : string) : TransferDB :=
  fold_left (fun d path => mark_file_uploaded d path folder_path) paths db.

(** Lines 525-552: one turn of the batch loop.  The boolean is [false]
    when the turn ends in [return False]. *)
Definition process_batch (db : TransferDB) (h : history)
    (folder_path : string) (album_id : option string) (batch : list string)
  : bool * TransferDB * history :=
  match upload_batch h batch [] [] with
  | (h1, None) => (false, db, h1)
  | (h1, Some (upload_tokens, current_batch_paths)) =>
      match upload_tokens with
      | [] => (true, db, h1)
      | _ :: _ =>
          match batch_create_media_items h1 upload_tokens album_id with
          | (h2, Ok _) =>
              (true, mark_all db current_batch_paths folder_path, h2)
          | (h2, Err error_msg) =>
              if is_quota_error error_msg then (false, db, h2)
              else (true, db, h2)
          end
      end
  end.

(** Lines 524-552: the batch loop over the batches in order. *)
Fixpoint upload_in_batches (db : TransferDB) (h : history)
    (folder_path : string) (album_id : option string)
    (batches : list (list string)) : bool * TransferDB * history :=
  match batches with
  | [] => (true, db, h)
  | batch :: rest =>
      match process_batch db h folder_path album_id batch with
      | (false, db1, h1) => (false, db1, h1)
      | (true, db1, h1) => upload_in_batches db1 h1 folder_path album_id rest
      end
  end.

(** The batches [files_to_upload[i : i + BATCH_SIZE]] for
    [i in range(0, len(files_to_upload), BATCH_SIZE)]. *)
Definition batches_of (files_to_upload : list string) : list (list string) :=
  List.map (fun i => slice files_to_upload i BATCH_SIZE)
           (range_step (length files_to_upload) BATCH_SIZE).

(** Lines 474-492: the album decision.  [None] is the [return False] of a
    failed album creation, which both branches of the quota test take. *)
Definition is_album_folder (folder_name : string) : bool :=
  negb (Py.startswith (Py.lower folder_name) "photos from").

Definition decide_album (db : TransferDB) (h : history)
    (folder_path folder_name : string) (existing_album_id : option string)
  : history * option (TransferDB * option string) :=
  let is_album := is_album_folder folder_name in
  let album_id := existing_album_id in
  if is_album && negb (truthy album_id) then
    match create_album h folder_name with
    | (h1, Ok album_id) =>
        (h1, Some (set_folder_album db folder_path album_id, album_id))
    | (h1, Err error_msg) =>
        if is_quota_error error_msg then (h1, None) else (h1, None)
    end
  else (h, Some (db, album_id)).

(** [TransferApp.process_folder]: the returned boolean, the database and
    the history afterwards. *)
Definition process_folder (db : TransferDB) (h : history)
    (folder_path : string) : bool * TransferDB * history :=
  let folder_path := as_posix folder_path in
  let folder_name := basename folder_path in
  let resumption_data := get_folder_resumption_data db folder_path in
  let existing_album_id :=
    match resumption_data with
    | Some (album_id, _) => album_id
    | None => None
    end in
  let already_processed :=
    match resumption_data with
    | Some (_, status) => String.eqb status "processed"
    | None => false
    end in
  if already_processed then (true, db, h)
  else
    match decide_album db h folder_path folder_name existing_album_id with
    | (h1, None) => (false, db, h1)
    | (h1, Some (db1, album_id)) =>
        let all_files := gather_files folder_path in
        match all_files with
        | [] => (true, set_folder_status db1 folder_path "processed", h1)
        | _ :: _ =>
            let files_to_upload :=
              List.filter (fun f => negb (is_file_uploaded db1 f)) all_files in
            match files_to_upload with
            | [] => (true, set_folder_status db1 folder_path "processed", h1)
            | _ :: _ =>
                match upload_in_batches db1 h1 folder_path album_id
                        (batches_of files_to_upload) with
                | (false, db2, h2) => (false, db2, h2)
                | (true, db2, h2) =>
                    (true, set_folder_status db2 folder_path "processed", h2)
                end
            end
        end
    end.

End Engine.

(* ===================================================================== *)
(** ** The session driver: [TransferApp.start_transfer] *)
(* ===================================================================== *)

(** What the driver shows: [progress_var.set(((i + 1) / total) * 100)] is
    kept as the pair [(i + 1, total)], and the message boxes by kind. *)
Inductive ui_event : Type :=
| Progress (done total : nat)
| ProgressReset
| WarnNoFolders
| ErrorAuthentication
| WarnTransferPaused
| InfoDone.

(** The application state the driver works on.  [calls] is the record of
    the [process_folder] invocations of the driver, in order, each with the
    value it returned. *)
Record App : Type := mkApp {
  app_db : TransferDB;
  app_history : history;
  selected_folders : list string;
  shown : list ui_event;
  calls : list (string * bool)
}.

(** [l.pop(0)] raises [IndexError] on an empty list. *)
Definition pop0 {A} (l : list A) : option (list A) :=
  match l with
  | [] => None
  | _ :: t => Some t
  end.

Section Driver.

Variable service : Service.
Variable walk : Walk.

(** Lines 433-449: the loop over the copy [list(self.selected_folders)];
    [None] is an [IndexError] out of [pop(0)]. *)
Fixpoint transfer_loop (total i : nat) (copy : list string) (app : App)
  : option App :=
  match copy with
  | [] => Some app
  | folder :: rest =>
      let '(success, db1, h1) :=
        process_folder service walk (app_db app) (app_history app) folder in
      let shown1 := shown app ++ [Progress (i + 1) total] in
      let calls1 := calls app ++ [(folder, success)] in
      if success then
        match pop0 (selected_folders app) with
        | None => None
        | Some queue =>
            transfer_loop total (S i) rest
                          (mkApp db1 h1 queue shown1 calls1)
        end
      else
        Some (mkApp db1 h1 (selected_folders app)
                    (shown1 ++ [WarnTransferPaused]) calls1)
  end.

(** [start_transfer]; [authenticated] tells whether [authenticate()]
    returned a service rather than raising. *)
Definition start_transfer (authenticated : bool) (app : App) : option App :=
  match selected_folders app with
  | [] =>
      Some (mkApp (app_db app) (app_history app) (selected_folders app)
                  (shown app ++ [WarnNoFolders]) (calls app))
  | _ :: _ =>
      if authenticated then
        let total := length (selected_folders app) in
        match transfer_loop total 0 (selected_folders app) app with
        | None => None
        | Some app1 =>
            Some (mkApp (app_db app1) (app_history app1)
                        (selected_folders app1)
                        (shown app1 ++ [ProgressReset; InfoDone])
                        (calls app1))
        end
      else
        Some (mkApp (app_db app) (app_history app) (selected_folders app)
                    (shown app ++ [ErrorAuthentication]) (calls app))
  end.

End Driver.

(** [migrate_json_to_db]: every legacy entry whose value is ["processed"]
    goes through [set_folder_status]. *)
Definition migrate_json_to_db (db : TransferDB) (data : list (string * string))
  : TransferDB :=
  fold_left (fun d '(folder_path, status) =>
               if String.eqb status "processed"
               then set_folder_status d folder_path "processed"
               else d)
            data db.


(* ===================================================================== *)
(** ** Notions used by the statements *)
(* ===================================================================== *)

(** A string without a slash. *)
Fixpoint no_slash (s : string) : bool :=
  match s with
  | EmptyString => true
  | String c t => negb (Ascii.eqb c "/") && no_slash t
  end.


(** The parts of a path: kept, slash-free components. *)
Definition parts_of (rel : string) : list string :=
  List.filter keep_part (Py.split_slash "" rel).


(** The row tests behind [is_file_uploaded] and the "already processed"
    test of [process_folder], on the stored key itself. *)
Definition uploaded_key (db : TransferDB) (key : string) : bool :=
  match files db !! key with
  | Some (_, status) => String.eqb status "uploaded"
  | None => false
  end.

Definition processed_key (db : TransferDB) (key : string) : bool :=
  match folders db !! key with
  | Some (_, status) => String.eqb status "processed"
  | None => false
  end.


Arguments as_posix : simpl never.
Arguments basename : simpl never.
Arguments is_quota_error : simpl never.


(** *** Reading a trace of exchanges *)

(** The exchanges after which [process_folder] returns [False]: a failed
    album creation, and an upload or commit that failed with a quota-type
    message. *)
Definition fatal (e : exchange) : bool :=
  match e with
  | CreateAlbum _ (Err _) => true
  | UploadFile _ (Err error_msg) => is_quota_error error_msg
  | CommitBatch _ _ (Err error_msg) => is_quota_error error_msg
  | _ => false
  end.

Definition no_fatal (t : history) : bool :=
  forallb (fun e => negb (fatal e)) t.

Definition is_create (e : exchange) : bool :=
  match e with CreateAlbum _ _ => true | _ => false end.

Definition is_upload (e : exchange) : bool :=
  match e with UploadFile _ _ => true | _ => false end.

Definition is_commit (e : exchange) : bool :=
  match e with CommitBatch _ _ _ => true | _ => false end.

(** The paths of the upload calls of a trace, in order. *)
Definition attempted (t : history) : list string :=
  flat_map (fun e => match e with UploadFile p _ => [p] | _ => [] end) t.

(** The [(path, token)] pairs of the uploads that succeeded. *)
Definition oks (t : history) : list (string * string) :=
  flat_map (fun e => match e with UploadFile p (Ok tok) => [(p, tok)] | _ => [] end)
           t.

(** Replaying a trace: the uploads that succeeded since the last commit
    call (the pending ones), and the paths whose pending upload was
    followed by a commit call that succeeded (the committed ones). *)
Definition replay_step (st : list (string * string) * list string)
    (e : exchange) : list (string * string) * list string :=
  match e with
  | UploadFile p (Ok tok) => (fst st ++ [(p, tok)], snd st)
  | CommitBatch _ _ (Ok _) => ([], snd st ++ List.map fst (fst st))
  | CommitBatch _ _ (Err _) => ([], snd st)
  | _ => st
  end.

Definition replay (t : history) (st : list (string * string) * list string)
  : list (string * string) * list string :=
  fold_left replay_step t st.

Definition pending_of (t : history) : list (string * string) :=
  fst (replay t ([], [])).

Definition committed_of (t : history) : list string :=
  snd (replay t ([], [])).

(** *** Recorded progress never goes back *)

(** Every row recorded [uploaded] is still there and still [uploaded],
    every row recorded [processed] is still there and still [processed]. *)
Definition progress_kept (db db' : TransferDB) : Prop :=
  (forall key folder_path,
      files db !! key = Some (folder_path, "uploaded") ->
      files db' !! key = Some (folder_path, "uploaded")) /\
  (forall key album_id,
      folders db !! key = Some (album_id, "processed") ->
      exists album_id', folders db' !! key = Some (album_id', "processed")).

(** Every commit call of the trace carries exactly the tokens of the
    uploads that succeeded since the commit call before it ([pe] holds the
    ones pending when the trace starts). *)
Fixpoint commits_carry_pending (pe : list (string * string)) (t : history)
  : Prop :=
  match t with
  | [] => True
  | e :: t' =>
      match e with
      | CommitBatch upload_tokens _ _ => upload_tokens = List.map snd pe
      | _ => True
      end /\
      commits_carry_pending (fst (replay_step (pe, []) e)) t'
  end.

(** The shape of the trace of a batch loop: no album creation, and commit
    calls that carry the pending tokens. *)
Definition batch_trace (t : history) : Prop :=
  Forall (fun e => is_create e = false) t /\ commits_carry_pending [] t.

(** *** What a run of the batch loop leaves behind *)

(** A run over the files [fs] that returned [b], took the database from
    [db] to [db'] and added the exchanges [t]: the database has gained
    exactly the marks of the committed paths; a completed run attempted
    every file and met no fatal exchange; an aborted run ends with its one
    fatal exchange, having attempted a prefix of the files. *)
Definition run_outcome (fs : list string) (folder_path : string) (b : bool)
    (db db' : TransferDB) (t : history) : Prop :=
  db' = mark_all db (committed_of t) folder_path /\
  batch_trace t /\
  if b then attempted t = fs /\ no_fatal t = true /\ pending_of t = []
  else exists t0 e, t = t0 ++ [e] /\ fatal e = true /\ no_fatal t0 = true /\
                    attempted t `prefix_of` fs.

(** *** What a call of [process_folder] does *)

(** The album id the store holds for a folder, if any. *)
Definition existing_album (db : TransferDB) (folder_path : string)
  : option string :=
  match get_folder_resumption_data db folder_path with
  | Some (album_id, _) => album_id
  | None => None
  end.

(** The test [is_album and not album_id] of line 478. *)
Definition needs_album (db : TransferDB) (folder_path : string) : bool :=
  is_album_folder (basename (as_posix folder_path))
  && negb (truthy (existing_album db folder_path)).

(** The list [files_to_upload] of line 509. *)
Definition files_to_upload (walk : Walk) (db : TransferDB)
    (folder_path : string) : list string :=
  List.filter (fun f => negb (is_file_uploaded db f))
              (gather_files walk (as_posix folder_path)).

(** The album decision went through: either no album had to be created, or
    one was created and its id stored. *)
Definition album_ready (service : Service) (db : TransferDB) (h : history)
    (folder_path : string) (pre : history) (db1 : TransferDB) : Prop :=
  (needs_album db folder_path = false /\ pre = [] /\ db1 = db) \/
  (needs_album db folder_path = true /\
   exists album_id,
     svc_create_album service h (basename (as_posix folder_path)) = Ok album_id /\
     pre = [CreateAlbum (basename (as_posix folder_path)) (Ok album_id)] /\
     db1 = set_folder_album db folder_path album_id).

(** The three ways a call of [process_folder] can go: the folder is
    skipped; the album creation fails; or the album decision goes through
    and the transfer runs (over no file at all when nothing is left to
    upload). *)
Inductive folder_run (service : Service) (walk : Walk) (db : TransferDB)
    (h : history) (folder_path : string)
  : bool -> TransferDB -> history -> Prop :=
| run_skipped :
    folder_processed db folder_path = true ->
    folder_run service walk db h folder_path true db h
| run_album_failed error_msg :
    folder_processed db folder_path = false ->
    needs_album db folder_path = true ->
    svc_create_album service h (basename (as_posix folder_path))
      = Err error_msg ->
    folder_run service walk db h folder_path false db
      (h ++ [CreateAlbum (basename (as_posix folder_path)) (Err error_msg)])
| run_transfer pre db1 t db2 ret :
    folder_processed db folder_path = false ->
    album_ready service db h folder_path pre db1 ->
    run_outcome (files_to_upload walk db folder_path) (as_posix folder_path)
                ret db1 db2 t ->
    folder_run service walk db h folder_path ret
      (if ret then set_folder_status db2 folder_path "processed" else db2)
      (h ++ pre ++ t).

(** The message of a failed exchange. *)
Definition failure_msg (e : exchange) : option string :=
  match e with
  | CreateAlbum _ (Err error_msg) => Some error_msg
  | UploadFile _ (Err error_msg) => Some error_msg
  | CommitBatch _ _ (Err error_msg) => Some error_msg
  | _ => None
  end.

(** The text of a message holds ["quota"] in some mix of cases, or
    ["429"]. *)
Definition quota_text (error_msg : string) : Prop :=
  (exists l r, Py.lower error_msg = l +:+ "quota" +:+ r) \/
  (exists l r, error_msg = l +:+ "429" +:+ r).

(* ===================================================================== *)
(** ** Concrete services and folders used as instances *)
(* ===================================================================== *)

(** A service where every call succeeds: the album id and the tokens are
    derived from the arguments. *)
Definition ok_service : Service :=
  mkService (fun _ title => Ok (Some ("album-" +:+ title)))
            (fun _ file_path => Ok ("token:" +:+ file_path))
            (fun _ upload_tokens _ => Ok upload_tokens).

(** A folder tree with one directory and the given file names. *)
Definition walk_flat (folder_path : string) (names : list string) : Walk :=
  fun top => if String.eqb top folder_path then [(folder_path, names)] else [].

(** Uploads of files whose path holds ["429"] fail, and the message echoes
    the path as [upload_bytes] does; nothing is said about quota. *)
Definition corrupt_429_service : Service :=
  mkService (fun _ title => Ok (Some ("album-" +:+ title)))
            (fun _ file_path =>
               if Py.contains "429" file_path
               then Err ("Upload failed for " +:+ file_path +:+ ": b'corrupt'")
               else Ok ("token:" +:+ file_path))
            (fun _ upload_tokens _ => Ok upload_tokens).

(** The quota runs out at the third upload call of the session. *)
Definition quota_after_two_service : Service :=
  mkService (fun _ title => Ok (Some ("album-" +:+ title)))
            (fun h file_path =>
               if (2 <=? length (List.filter is_upload h))%nat
               then Err "Quota exceeded for quota metric 'Write requests'"
               else Ok ("token:" +:+ file_path))
            (fun _ upload_tokens _ => Ok upload_tokens).

(** A folder with a file whose name holds ["429"]; the failed upload and
    the trace of the call on a fresh store. *)
Definition walk_429 : Walk := walk_flat "/t/A" ["img_429.jpg"; "b.jpg"].

Definition msg_429 : string :=
  "Upload failed for /t/A/img_429.jpg: b'corrupt'".

Definition failed_429 : exchange := UploadFile "/t/A/img_429.jpg" (Err msg_429).

Definition trace_429 : history :=
  [CreateAlbum "A" (Ok (Some "album-A")); failed_429].

(** Four files; the quota runs out at the third upload. *)
Definition walk_four : Walk :=
  walk_flat "/t/A" ["f1.jpg"; "f2.jpg"; "f3.jpg"; "f4.jpg"].

Definition msg_quota : string :=
  "Quota exceeded for quota metric 'Write requests'".

Definition trace_four_head : history :=
  [CreateAlbum "A" (Ok (Some "album-A"));
   UploadFile "/t/A/f1.jpg" (Ok "token:/t/A/f1.jpg");
   UploadFile "/t/A/f2.jpg" (Ok "token:/t/A/f2.jpg")].

(** In the trace [t], a file with the key of [p] was uploaded with success
    and the next commit call after that upload carried its token and
    succeeded. *)
Definition committed_after_upload (t : history) (p : string) : Prop :=
  exists q token t1 us upload_tokens album_id ids t3,
    as_posix q = as_posix p /\
    t = t1 ++ UploadFile q (Ok token) :: us
           ++ CommitBatch upload_tokens album_id (Ok ids) :: t3 /\
    Forall (fun e => is_commit e = false) us /\
    In token upload_tokens.

(** The first commit call of a session fails with a server error, the
    later ones succeed. *)
Definition msg_500 : string := "HttpError 500: Internal error encountered".

Definition flaky_commit_service : Service :=
  mkService (fun _ title => Ok (Some ("album-" +:+ title)))
            (fun _ file_path => Ok ("token:" +:+ file_path))
            (fun h upload_tokens _ =>
               if existsb is_commit h then Ok upload_tokens else Err msg_500).

Definition walk_one : Walk := walk_flat "/t/A" ["a.jpg"].

Definition trace_one_failed : history :=
  [CreateAlbum "A" (Ok (Some "album-A"));
   UploadFile "/t/A/a.jpg" (Ok "token:/t/A/a.jpg");
   CommitBatch ["token:/t/A/a.jpg"] (Some "album-A") (Err msg_500)].

(** Album creation is refused. *)
Definition msg_403 : string := "HttpError 403: The caller does not have permission".

Definition no_album_service : Service :=
  mkService (fun _ _ => Err msg_403)
            (fun _ file_path => Ok ("token:" +:+ file_path))
            (fun _ upload_tokens _ => Ok upload_tokens).

(** Every upload is refused as a bad file. *)
Definition msg_bad_file : string := "Upload failed for /t/Photos from 2019/p.jpg: b'Bad Request'".

Definition bad_file_service : Service :=
  mkService (fun _ title => Ok (Some ("album-" +:+ title)))
            (fun _ _ => Err msg_bad_file)
            (fun _ upload_tokens _ => Ok upload_tokens).

(** A folder of loose media, which gets no album. *)
Definition walk_loose : Walk := walk_flat "/t/Photos from 2019" ["p.jpg"].

(** A folder without any media file. *)
Definition walk_empty : Walk := walk_flat "/t/Empty" ["notes.txt"].

(** The scenario folder, and a service whose calls all succeed and give
    back the values passed here. *)
Definition walk_scenario : Walk :=
  walk_flat "/t/A" ["f1.jpg"; "f2.png"; "f3.mp4"].

Definition succeeding_service (album_id : option string)
    (token_of : string -> string) (ids : list string) : Service :=
  mkService (fun _ _ => Ok album_id)
            (fun _ file_path => Ok (token_of file_path))
            (fun _ _ _ => Ok ids).

(** *** The driver's run, as seen from outside *)

(** The calls of a run that worked through [done] and stopped before
    [rest]: every folder of [done] returned [True], and the head of [rest],
    if there is one, returned [False]. *)
Definition calls_of_run (done rest : list string) : list (string * bool) :=
  List.map (fun folder => (folder, true)) done
  ++ match rest with
     | [] => []
     | folder :: _ => [(folder, false)]
     end.

(** The calls of [process_folder] on the folders of [done], one after the
    other, each from the store and the history that the call before it
    left, and each returning [True]. *)
Inductive transferred (service : Service) (walk : Walk)
  : TransferDB -> history -> list string -> TransferDB -> history -> Prop :=
| transferred_nil db h :
    transferred service walk db h [] db h
| transferred_cons db h folder db1 h1 done db2 h2 :
    process_folder service walk db h folder = (true, db1, h1) ->
    transferred service walk db1 h1 done db2 h2 ->
    transferred service walk db h (folder :: done) db2 h2.

(** How a run that left the queue [rest] ended, from the store [db1] and
    the history [h1]: with nothing more when the queue is used up, and
    otherwise with the call for the head of [rest], which returned
    [False]. *)
Definition stopped_at (service : Service) (walk : Walk)
    (db1 : TransferDB) (h1 : history) (rest : list string)
    (db' : TransferDB) (h' : history) : Prop :=
  match rest with
  | [] => db' = db1 /\ h' = h1
  | folder :: _ =>
      process_folder service walk db1 h1 folder = (false, db', h')
  end.

(** The progress reports numbered [i + 1] to [i + k] out of [total]. *)
Definition progress_reports (total i k : nat) : list ui_event :=
  List.map (fun j => Progress (j + 1) total) (seq i k).

Definition paused_warning (rest : list string) : list ui_event :=
  match rest with
  | [] => []
  | _ :: _ => [WarnTransferPaused]
  end.

(** *** The operations of the engine on the store *)

(** One step of the engine, as far as the database goes: a call of
    [process_folder] or of [start_transfer] with any service and any
    folder tree, the legacy import, or one of the writes that the engine
    issues ([set_folder_status] is only ever called with ["processed"]). *)
Inductive engine_step : TransferDB -> TransferDB -> Prop :=
| step_process_folder service walk db h folder_path :
    engine_step db (snd (fst (process_folder service walk db h folder_path)))
| step_start_transfer service walk authenticated app app' :
    start_transfer service walk authenticated app = Some app' ->
    engine_step (app_db app) (app_db app')
| step_migrate db data :
    engine_step db (migrate_json_to_db db data)
| step_set_folder_album db folder_path album_id :
    engine_step db (set_folder_album db folder_path album_id)
| step_mark_file_uploaded db file_path folder_path :
    engine_step db (mark_file_uploaded db file_path folder_path)
| step_set_folder_processed db folder_path :
    engine_step db (set_folder_status db folder_path "processed").

(** A queue of two folders for the driver; the second one has a file that
    fails with a message holding ["429"]. *)
Definition walk_two : Walk :=
  fun top =>
    if String.eqb top "/t/A" then [("/t/A", ["f1.jpg"])]
    else if String.eqb top "/t/B" then [("/t/B", ["img_429.jpg"])]
    else if String.eqb top "/t/C" then [("/t/C", ["c.jpg"])]
    else [].

Definition app_two : App :=
  mkApp empty_db [] ["/t/A"; "/t/B"; "/t/C"] [] [].

(** Three steps of the engine: folder [/t/A] is transferred; folder [/t/B]
    is aborted on its first upload; a legacy list is imported. *)
Definition db_after_A : TransferDB :=
  snd (fst (process_folder ok_service walk_two empty_db [] "/t/A")).

Definition db_after_B : TransferDB :=
  snd (fst (process_folder corrupt_429_service walk_two db_after_A [] "/t/B")).

Definition db_after_import : TransferDB :=
  migrate_json_to_db db_after_B [("/t/B", "processed"); ("/t/A", "pending")].

(* ===================================================================== *)
(** ** More notions about calls of [process_folder] *)
(* ===================================================================== *)

(** The exchange [e], made at history [h], holds the answer the service
    gives there. *)
Definition answer_of (service : Service) (h : history) (e : exchange) : Prop :=
  match e with
  | CreateAlbum title r => r = svc_create_album service h title
  | UploadFile file_path r => r = svc_upload_bytes service h file_path
  | CommitBatch upload_tokens album_id r =>
      r = svc_batch_create service h upload_tokens album_id
  end.

(** The trace [t], made from history [h] on, holds the answers of the
    service, each asked at the history reached so far. *)
Fixpoint answers_from (service : Service) (h : history) (t : history) : Prop :=
  match t with
  | [] => True
  | e :: t' => answer_of service h e /\ answers_from service (h ++ [e]) t'
  end.

(** A service that answers every call with success. *)
Definition always_succeeds (service : Service) : Prop :=
  (forall h title, exists album_id,
      svc_create_album service h title = Ok album_id) /\
  (forall h file_path, exists token,
      svc_upload_bytes service h file_path = Ok token) /\
  (forall h upload_tokens album_id, exists ids,
      svc_batch_create service h upload_tokens album_id = Ok ids).

(** An exchange that came back with a value. *)
Definition succeeded (e : exchange) : bool :=
  match e with
  | CreateAlbum _ (Ok _) | UploadFile _ (Ok _) | CommitBatch _ _ (Ok _) => true
  | _ => false
  end.

(** A commit call for the album [album_id] with at least one and at most
    [n] tokens; other exchanges pass. *)
Definition commit_shape (album_id : option string) (n : nat) (e : exchange)
  : Prop :=
  match e with
  | CommitBatch upload_tokens album _ =>
      album = album_id /\ 1 <= length upload_tokens <= n
  | _ => True
  end.

(** The album creation calls of a trace. *)
Definition creations (t : history) : history := List.filter is_create t.

(** A store in which the first of the four files is already recorded. *)
Definition db_f1_done : TransferDB :=
  mark_file_uploaded empty_db "/t/A/f1.jpg" "/t/A".

(** A store in which folder [/t/A] has an album and is still pending. *)
Definition db_album_pending : TransferDB :=
  set_folder_album empty_db "/t/A" (Some "album-7").

(** A folder with twelve images, which makes two batches. *)
Definition names_twelve : list string :=
  ["01.jpg"; "02.jpg"; "03.jpg"; "04.jpg"; "05.jpg"; "06.jpg";
   "07.jpg"; "08.jpg"; "09.jpg"; "10.jpg"; "11.jpg"; "12.jpg"].

Definition walk_twelve : Walk := walk_flat "/t/A" names_twelve.

Definition last_commit_twelve : exchange :=
  CommitBatch ["token:/t/A/11.jpg"; "token:/t/A/12.jpg"] (Some "album-A")
              (Ok ["token:/t/A/11.jpg"; "token:/t/A/12.jpg"]).

(* ===================================================================== *)
(** ** [upload_bytes] over HTTP *)
(* ===================================================================== *)

(** What [http.request] gives back: the status and the body. *)
Record http_response : Type := mkResponse {
  response_status : nat;
  response_content : string
}.

(** The request of [upload_bytes]: the url, the method, the body and the
    headers. *)
Record http_request : Type := mkRequest {
  request_url : string;
  request_method : string;
  request_body : string;
  request_headers : list (string * string)
}.

(** [s.endswith(suffix)]. *)
Definition endswith (s suffix : string) : bool :=
  (String.length suffix <=? String.length s)%nat
  && String.eqb (Py.drop_chars (String.length s - String.length suffix) s) suffix.

(** Lines 156-163: the MIME type guessed from the extension.  The value
    is computed and then not used. *)
Definition mime_type_of (file_path : string) : string :=
  if endswith (Py.lower file_path) ".png" then "image/png"
  else if endswith (Py.lower file_path) ".gif" then "image/gif"
  else if endswith (Py.lower file_path) ".mp4" then "video/mp4"
  else "image/jpeg".

(** Lines 167-173. *)
Definition upload_request (credentials_token file_path data : string)
  : http_request :=
  let file_name := basename file_path in
  let mime_type := mime_type_of file_path in
  mkRequest "https://photoslibrary.googleapis.com/v1/uploads" "POST" data
    [("Authorization", "Bearer " +:+ credentials_token);
     ("Content-type", "application/octet-stream");
     ("X-Goog-Upload-File-Name", file_name);
     ("X-Goog-Upload-Protocol", "raw")].

(** The message of line 178; [content_repr] is how Python prints the
    body, a [bytes] value. *)
Definition upload_failed_message (file_path content_repr : string) : string :=
  "Upload failed for " +:+ file_path +:+ ": " +:+ content_repr.

Section UploadBytes.

(** Reading the file ([open] and [read], which may raise), the token of
    the credentials, the HTTP exchange (which may depend on what was
    exchanged before, and may raise), [content.decode("utf-8")] (which
    raises on a body that is not UTF-8), and the printing of a [bytes]
    value.  [Err] carries the text of the exception. *)
Variable read_file : string -> result string.
Variable credentials_token : string.
Variable http : history -> http_request -> result http_response.
Variable decode_utf8 : string -> result string.
Variable bytes_repr : string -> string.

(** [upload_bytes(service, file_path)], lines 151-180: an exception of
    [open], [read] or [http.request] goes through; a status other than 200
    raises [RuntimeError] with the message of line 178; otherwise the
    decoded body is the upload token, and a body that does not decode
    raises. *)
Definition upload_bytes_http (h : history) (file_path : string)
  : result string :=
  match read_file file_path with
  | Err error_msg => Err error_msg
  | Ok data =>
      match http h (upload_request credentials_token file_path data) with
      | Err error_msg => Err error_msg
      | Ok response =>
          if (response_status response =? 200)%nat
          then decode_utf8 (response_content response)
          else Err (upload_failed_message file_path
                      (bytes_repr (response_content response)))
      end
  end.

(** A service whose uploads go through [upload_bytes_http]. *)
Definition http_service
    (create : history -> string -> result (option string))
    (commit : history -> list string -> option string -> result (list string))
  : Service :=
  mkService create upload_bytes_http commit.

End UploadBytes.

(** A server that answers every upload with status 400. *)
Definition http_400 : history -> http_request -> result http_response :=
  fun _ _ => Ok (mkResponse 400 "Bad Request").

Definition service_400 : Service :=
  http_service (fun _ => Ok "data") "ya29.token" http_400
               (fun content => Ok content)
               (fun content => "b'" +:+ content +:+ "'")
               (fun _ title => Ok (Some ("album-" +:+ title)))
               (fun _ upload_tokens _ => Ok upload_tokens).

(** A server that answers every upload with status 200 and the one-byte
    body [0xff], which is not UTF-8, and a connection that fails on every
    request. *)
Definition body_ff : string := String (ascii_of_nat 255) "".

Definition service_bad_body : Service :=
  http_service (fun _ => Ok "data") "ya29.token"
               (fun _ _ => Ok (mkResponse 200 body_ff))
               (fun content =>
                  if String.eqb content body_ff
                  then Err "'utf-8' codec can't decode byte 0xff in position 0: invalid start byte"
                  else Ok content)
               (fun content => "b'" +:+ content +:+ "'")
               (fun _ title => Ok (Some ("album-" +:+ title)))
               (fun _ upload_tokens _ => Ok upload_tokens).

Definition service_no_connection : Service :=
  http_service (fun _ => Ok "data") "ya29.token"
               (fun _ _ => Err "[Errno 111] Connection refused")
               (fun content => Ok content)
               (fun content => "b'" +:+ content +:+ "'")
               (fun _ title => Ok (Some ("album-" +:+ title)))
               (fun _ upload_tokens _ => Ok upload_tokens).

(** A folder whose name holds ["quota"]. *)
Definition walk_quota_name : Walk :=
  walk_flat "/t/Quota reports" ["a.jpg"; "b.jpg"].


(** A legacy list: one processed folder that has a row, one that has
    none, and one that is not processed. *)
Definition legacy_data : list (string * string) :=
  [("/t/A/", "processed"); ("/t/Old", "processed"); ("/t/B", "pending")].

Definition db_two_rows : TransferDB :=
  set_folder_album (set_folder_album empty_db "/t/A" (Some "album-A"))
                   "/t/B" (Some "album-B").

(* ===================================================================== *)
(** ** The checklist and the queue of the window *)
(* ===================================================================== *)

(** A row of the checklist: the values [(icon, folder name, status)]. *)
Record TreeRow : Type := mkRow {
  row_icon : string;
  row_name : string;
  row_status : string
}.

(** [(Path(parent) / name).as_posix()]. *)
Definition path_child (parent name : string) : string :=
  as_posix (join parent name).

(** Lines 347-357: the row shown for the sub-directory [d]. *)
Definition display_row (db : TransferDB) (source_parent d : string) : TreeRow :=
  let full_path_str := path_child source_parent d in
  let db_data := get_folder_resumption_data db full_path_str in
  let status :=
    match db_data with
    | Some (_, status) => status
    | None => "Ready"
    end in
  let display_status :=
    if String.eqb status "processed" then "Uploaded" else "Ready" in
  let icon := if String.eqb display_status "Ready" then "[ ]" else "[x]" in
  mkRow icon d display_status.

(** [refresh_folder_list], lines 333-362.  [listing] is what the scan of
    line 343 gives: the names of the sub-directories, or the exception.
    The result is the new content of the checklist and the error shown,
    if any. *)
Definition refresh_folder_list (db : TransferDB) (source_parent : string)
    (listing : result (list string)) : list TreeRow * option string :=
  if String.eqb source_parent "" then ([], None)
  else
    match listing with
    | Err error_msg =>
        ([], Some ("Failed to list subdirectories: " +:+ error_msg))
    | Ok subdirs =>
        (List.map (display_row db source_parent)
                  (merge_sort String.le subdirs), None)
    end.

(** [on_tree_click], lines 364-381: [item_id] is the row under the
    pointer, if any, and [column] the column.  The boolean tells whether
    the "already uploaded" notice is shown. *)
Definition on_tree_click (tree : list TreeRow) (item_id : option nat)
    (column : string) : list TreeRow * bool :=
  match item_id with
  | None => (tree, false)
  | Some i =>
      match tree !! i with
      | None => (tree, false)
      | Some row =>
          if String.eqb column "#1" then
            if String.eqb (row_status row) "Uploaded" then (tree, true)
            else
              let icon :=
                if String.eqb (row_icon row) "[ ]" then "[V]" else "[ ]" in
              (<[i := mkRow icon (row_name row) (row_status row)]> tree, false)
          else (tree, false)
      end
  end.

(** [select_all_ready], lines 383-388. *)
Definition select_all_ready (tree : list TreeRow) : list TreeRow :=
  List.map (fun row =>
              if String.eqb (row_status row) "Ready"
              then mkRow "[V]" (row_name row) (row_status row)
              else row)
           tree.

(** [x in l] on a list of strings. *)
Definition in_list (x : string) (l : list string) : bool :=
  existsb (String.eqb x) l.

(** The loop of [add_selected_to_queue], lines 392-407, over the rows
    still to visit: the rows as they are left, the queue of paths, the
    queue of names shown, and the count of additions. *)
Fixpoint add_rows (source_parent : string) (rows : list TreeRow)
    (selected_folders queue_listbox : list string) (added_count : nat)
  : list TreeRow * list string * list string * nat :=
  match rows with
  | [] => ([], selected_folders, queue_listbox, added_count)
  | row :: rest =>
      if String.eqb (row_icon row) "[V]" then
        let folder_name := row_name row in
        let full_path_str := path_child source_parent folder_name in
        let '(selected1, listbox1, added1) :=
          if negb (in_list full_path_str selected_folders)
          then (selected_folders ++ [full_path_str],
                queue_listbox ++ [folder_name], added_count + 1)
          else (selected_folders, queue_listbox, added_count) in
        let '(rest', selected2, listbox2, added2) :=
          add_rows source_parent rest selected1 listbox1 added1 in
        (mkRow "[ ]" (row_name row) (row_status row) :: rest',
         selected2, listbox2, added2)
      else
        let '(rest', selected2, listbox2, added2) :=
          add_rows source_parent rest selected_folders queue_listbox
                   added_count in
        (row :: rest', selected2, listbox2, added2)
  end.

(** [add_selected_to_queue], lines 390-410; the boolean tells whether the
    "no new folders" notice is shown. *)
Definition add_selected_to_queue (source_parent : string)
    (tree : list TreeRow) (selected_folders queue_listbox : list string)
  : list TreeRow * list string * list string * bool :=
  let '(tree', selected', listbox', added_count) :=
    add_rows source_parent tree selected_folders queue_listbox 0 in
  (tree', selected', listbox', (added_count =? 0)%nat).

(** The loop of [remove_from_queue], lines 414-420, over the selected
    indices from the last to the first.  [selected_folders[idx]] raises
    [IndexError] ([None]) when the index is out of range; the list box
    ignores such an index. *)
Fixpoint remove_indices (indices : list nat)
    (selected_folders queue_listbox : list string)
  : option (list string * list string) :=
  match indices with
  | [] => Some (selected_folders, queue_listbox)
  | idx :: rest =>
      match selected_folders !! idx with
      | None => None
      | Some folder_path =>
          remove_indices rest (delete idx selected_folders)
                         (delete idx queue_listbox)
      end
  end.

(** [remove_from_queue]: [curselection] is what the list box reports, the
    selected indices in increasing order. *)
Definition remove_from_queue (curselection : list nat)
    (selected_folders queue_listbox : list string)
  : option (list string * list string) :=
  remove_indices (rev curselection) selected_folders queue_listbox.

(** No row shown as uploaded is ticked. *)
Definition no_uploaded_ticked (tree : list TreeRow) : Prop :=
  Forall (fun row => row_status row = "Uploaded" -> row_icon row <> "[V]") tree.

(** Increasing indices below [n]. *)
Fixpoint increasing_below (n : nat) (lo : nat) (indices : list nat) : Prop :=
  match indices with
  | [] => True
  | i :: rest => lo <= i /\ i < n /\ increasing_below n (S i) rest
  end.

(** Decreasing indices below [n]. *)
Fixpoint decreasing_below (n : nat) (indices : list nat) : Prop :=
  match indices with
  | [] => True
  | i :: rest => i < n /\ decreasing_below i rest
  end.

(** A store in which a file has a row that is not [uploaded], as a
    database written by another tool may have. *)
Definition db_file_failed : TransferDB :=
  mkDB ∅ (<["/t/A/f1.jpg" := ("/t/Old", "failed")]> ∅).

(** The row that [display_row] shows for a folder, by its stored
    status. *)
Definition row_for (processed : bool) (d : string) : TreeRow :=
  if processed then mkRow "[x]" d "Uploaded" else mkRow "[ ]" d "Ready".
(* ===================================================================== *)
(** ** Facts about the string and path helpers *)
(* ===================================================================== *)

Example as_posix_dup_slash : as_posix "/t//A/./b.jpg/" = "/t/A/b.jpg".
Proof. reflexivity. Qed.
Example as_posix_empty : as_posix "" = ".".
Proof. reflexivity. Qed.
Example as_posix_two_slashes : as_posix "//srv/x" = "//srv/x".
Proof. reflexivity. Qed.
Example as_posix_keeps_case : as_posix "/Photos/A" = "/Photos/A".
Proof. reflexivity. Qed.
Example basename_plain : basename "/t/Photos from 2019" = "Photos from 2019".
Proof. reflexivity. Qed.
Example splitext_upper : Py.lower (splitext_ext "IMG.01.JPG") = ".jpg".
Proof. reflexivity. Qed.
Example splitext_hidden : splitext_ext ".jpg" = "".
Proof. reflexivity. Qed.
Example join_plain : join "/t/A" "f1.jpg" = "/t/A/f1.jpg".
Proof. reflexivity. Qed.

Section StringFacts.

Lemma append_nil_r (s : string) : s +:+ "" = s.
Proof. induction s as [|c s IH]; simpl; [reflexivity | by rewrite IH]. Qed.

Lemma append_assoc (a b c : string) : (a +:+ b) +:+ c = a +:+ (b +:+ c).
Proof. induction a as [|x a IH]; simpl; [reflexivity | by rewrite IH]. Qed.

(** [String.prefix] is "begins with". *)
Lemma prefix_iff (p s : string) :
  String.prefix p s = true <-> exists r, s = p +:+ r.
Proof.
  revert s. induction p as [|c p IH]; intros s.
  - destruct s; simpl; (split; [intros _; eauto | done]).
  - destruct s as [|d s]; simpl.
    + split; [done | intros [r Hr]; discriminate].
    + destruct (ascii_dec c d) as [->|Hne].
      * rewrite IH. split; intros [r Hr]; exists r; congruence.
      * split; [done | intros [r Hr]; congruence].
Qed.

Lemma contains_unfold (needle hay : string) :
  Py.contains needle hay =
  if String.prefix needle hay then true
  else match hay with
       | EmptyString => false
       | String _ t => Py.contains needle t
       end.
Proof. by destruct hay. Qed.

(** Python's [needle in hay] finds exactly the occurrences of [needle]. *)
Lemma contains_iff (needle hay : string) :
  Py.contains needle hay = true <-> exists l r, hay = l +:+ needle +:+ r.
Proof.
  induction hay as [|c hay IH]; rewrite contains_unfold.
  - destruct (String.prefix needle "") eqn:Hp.
    + apply prefix_iff in Hp as [r Hr]. split; [|done].
      intros _. exists "", r. exact Hr.
    + split; [done|]. intros ([|x l] & r & Hr).
      * assert (String.prefix needle "" = true) as Hq
          by (apply prefix_iff; by exists r).
        congruence.
      * discriminate.
  - destruct (String.prefix needle (String c hay)) eqn:Hp.
    + apply prefix_iff in Hp as [r Hr]. split; [|done].
      intros _. exists "", r. exact Hr.
    + rewrite IH. split.
      * intros (l & r & ->). by exists (String c l), r.
      * intros ([|x l] & r & Hr).
        -- assert (String.prefix needle (String c hay) = true) as Hq
             by (apply prefix_iff; by exists r).
           congruence.
        -- simpl in Hr. injection Hr as _ ->. by exists l, r.
Qed.

End StringFacts.

(** Path normalisation is a projection: a normalised path is its own
    normal form, so the key under which a row is stored is stable however
    often the path goes through [as_posix]. *)
Section AsPosix.

Import Py.

Lemma no_slash_app a b : no_slash (a +:+ b) = no_slash a && no_slash b.
Proof.
  induction a as [|c a IH]; simpl; [done|].
  rewrite IH. by rewrite andb_assoc.
Qed.

Lemma split_slash_no_slash s cur :
  no_slash cur = true -> Forall (fun x => no_slash x = true) (split_slash cur s).
Proof.
  revert cur. induction s as [|c s IH]; intros cur Hcur; simpl.
  - by constructor.
  - destruct (Ascii.eqb c "/") eqn:Hc.
    + constructor; [done | by apply IH].
    + apply IH. rewrite no_slash_app, Hcur. simpl. by rewrite Hc.
Qed.

Lemma split_slash_app x cur s :
  no_slash x = true -> split_slash cur (x +:+ s) = split_slash (cur +:+ x) s.
Proof.
  revert cur. induction x as [|c x IH]; intros cur Hx; simpl.
  - by rewrite append_nil_r.
  - simpl in Hx. apply andb_true_iff in Hx as [Hc Hx].
    apply negb_true_iff in Hc. rewrite Hc, IH by done.
    by rewrite append_assoc.
Qed.

Lemma split_join parts :
  parts <> [] -> Forall (fun x => no_slash x = true) parts ->
  split_slash "" (join_slash parts) = parts.
Proof.
  induction parts as [|x ps IH]; [done|]. intros _ Hall.
  apply Forall_cons in Hall as [Hx Hps].
  destruct ps as [|y ps].
  - simpl. rewrite <- (append_nil_r x) at 1.
    rewrite split_slash_app by done. by simpl.
  - change (join_slash (x :: y :: ps))
      with (x +:+ String "/" (join_slash (y :: ps))).
    rewrite split_slash_app by done. simpl. f_equal. by apply IH.
Qed.

Lemma filter_keep_all l :
  Forall (fun x => keep_part x = true) (List.filter keep_part l).
Proof.
  induction l as [|x l IH]; simpl; [constructor|].
  destruct (keep_part x) eqn:Hk; [by constructor | done].
Qed.

Lemma filter_id l :
  Forall (fun x => keep_part x = true) l -> List.filter keep_part l = l.
Proof.
  induction 1 as [|x l Hx _ IH]; simpl; [done|]. by rewrite Hx, IH.
Qed.

Lemma Forall_filter_no_slash l :
  Forall (fun x => no_slash x = true) l ->
  Forall (fun x => no_slash x = true) (List.filter keep_part l).
Proof.
  induction 1 as [|x l Hx _ IH]; simpl; [constructor|].
  destruct (keep_part x); [by constructor | done].
Qed.

Lemma parts_of_join ps :
  Forall (fun x => keep_part x = true) ps ->
  Forall (fun x => no_slash x = true) ps ->
  parts_of (join_slash ps) = ps.
Proof.
  intros Hk Hn. unfold parts_of. destruct ps as [|x ps].
  - reflexivity.
  - rewrite split_join by done. by apply filter_id.
Qed.

(** A joined list of kept, slash-free parts does not start with a
    slash. *)
Lemma join_head ps :
  Forall (fun x => keep_part x = true) ps ->
  Forall (fun x => no_slash x = true) ps ->
  join_slash ps = "" \/
  exists c t, join_slash ps = String c t /\ Ascii.eqb c "/" = false.
Proof.
  intros Hk Hn. destruct ps as [|x ps]; [by left|]. right.
  apply Forall_cons in Hk as [Hx _]. apply Forall_cons in Hn as [Hnx _].
  destruct x as [|c x]; [by vm_compute in Hx|].
  simpl in Hnx. apply andb_true_iff in Hnx as [Hc _].
  apply negb_true_iff in Hc.
  destruct ps as [|y ps]; simpl; eauto.
Qed.

Lemma splitroot_head c t :
  Ascii.eqb c "/" = false ->
  splitroot (String c t) = ("", String c t) /\
  splitroot ("/" +:+ String c t) = ("/", String c t) /\
  splitroot ("//" +:+ String c t) = ("//", String c t).
Proof.
  intros Hc.
  destruct c as [[] [] [] [] [] [] [] []];
    first [discriminate Hc | repeat split; reflexivity].
Qed.

(** The shape of a normalised path. *)
Lemma as_posix_shape (p : string) :
  exists root ps,
    (root = "" \/ root = "/" \/ root = "//") /\
    Forall (fun x => keep_part x = true) ps /\
    Forall (fun x => no_slash x = true) ps /\
    as_posix p = match root, ps with
                 | EmptyString, [] => "."
                 | _, _ => root +:+ join_slash ps
                 end.
Proof.
  unfold as_posix. destruct (splitroot p) as [root rel] eqn:Hroot.
  exists root, (parts_of rel). repeat split.
  - unfold splitroot in Hroot.
    repeat (match type of Hroot with
            | context [match ?x with _ => _ end] => destruct x
            end; try (injection Hroot as <- _; auto)).
  - apply filter_keep_all.
  - apply Forall_filter_no_slash, split_slash_no_slash. done.
Qed.

Theorem as_posix_idempotent (p : string) : as_posix (as_posix p) = as_posix p.
Proof.
  destruct (as_posix_shape p) as (root & ps & Hr & Hk & Hn & ->).
  pose proof (parts_of_join _ Hk Hn) as Hparts.
  destruct (join_head _ Hk Hn) as [Hj | (c & t & Hj & Hc)].
  - (* no parts *)
    assert (ps = []) as ->.
    { destruct ps as [|x ps]; [done|]. exfalso.
      apply Forall_cons in Hk as [Hx _].
      destruct x; [by vm_compute in Hx|]. by destruct ps. }
    by destruct Hr as [-> | [-> | ->]].
  - assert (match root, ps with
            | EmptyString, [] => "."
            | _, _ => root +:+ join_slash ps
            end = root +:+ join_slash ps) as ->.
    { destruct root; [|done]. destruct ps; [discriminate Hj | done]. }
    destruct (splitroot_head c t Hc) as (H0 & H1 & H2).
    unfold as_posix.
    destruct Hr as [-> | [-> | ->]]; rewrite Hj.
    + change ("" +:+ String c t) with (String c t).
      rewrite H0, <- Hj. fold (parts_of (join_slash ps)). rewrite Hparts.
      destruct ps; [discriminate Hj | reflexivity].
    + rewrite H1, <- Hj. fold (parts_of (join_slash ps)). rewrite Hparts.
      destruct ps; [discriminate Hj | reflexivity].
    + rewrite H2, <- Hj. fold (parts_of (join_slash ps)). rewrite Hparts.
      destruct ps; [discriminate Hj | reflexivity].
Qed.

End AsPosix.

(* ===================================================================== *)
(** ** Facts about the state store *)
(* ===================================================================== *)

Section StoreFacts.

Implicit Types (db : TransferDB) (key : string).

Lemma is_file_uploaded_key db p :
  is_file_uploaded db p = uploaded_key db (as_posix p).
Proof. reflexivity. Qed.

Lemma folder_processed_key db p :
  folder_processed db p = processed_key db (as_posix p).
Proof.
  unfold folder_processed, folder_status, get_folder_resumption_data,
    processed_key.
  by destruct (folders db !! as_posix p) as [[? ?]|].
Qed.

(** Every store operation sees its path arguments through [as_posix]
    only. *)
Lemma get_folder_posix db p :
  get_folder_resumption_data db (as_posix p) = get_folder_resumption_data db p.
Proof. unfold get_folder_resumption_data. by rewrite as_posix_idempotent. Qed.

Lemma set_folder_album_posix db p a :
  set_folder_album db (as_posix p) a = set_folder_album db p a.
Proof. unfold set_folder_album. by rewrite as_posix_idempotent. Qed.

Lemma set_folder_status_posix db p s :
  set_folder_status db (as_posix p) s = set_folder_status db p s.
Proof. unfold set_folder_status. by rewrite as_posix_idempotent. Qed.

Lemma is_file_uploaded_posix db p :
  is_file_uploaded db (as_posix p) = is_file_uploaded db p.
Proof. unfold is_file_uploaded. by rewrite as_posix_idempotent. Qed.

Lemma mark_file_uploaded_posix db p f :
  mark_file_uploaded db (as_posix p) (as_posix f) = mark_file_uploaded db p f.
Proof. unfold mark_file_uploaded. by rewrite !as_posix_idempotent. Qed.

(** Which table each write touches. *)
Lemma files_set_folder_album db p a : files (set_folder_album db p a) = files db.
Proof.
  unfold set_folder_album. by destruct (folders db !! as_posix p) as [[? ?]|].
Qed.

Lemma files_set_folder_status db p s :
  files (set_folder_status db p s) = files db.
Proof.
  unfold set_folder_status. by destruct (folders db !! as_posix p) as [[? ?]|].
Qed.

Lemma folders_mark_file_uploaded db p f :
  folders (mark_file_uploaded db p f) = folders db.
Proof.
  unfold mark_file_uploaded. by destruct (files db !! as_posix p) as [[? ?]|].
Qed.

(** Rows after each write. *)
Lemma folders_set_folder_album db p a key :
  folders (set_folder_album db p a) !! key =
  if decide (as_posix p = key)
  then Some (a, match folders db !! key with
                | Some (_, status) => status
                | None => "pending"
                end)
  else folders db !! key.
Proof.
  unfold set_folder_album.
  destruct (folders db !! as_posix p) as [[a0 s0]|] eqn:Hrow; simpl;
    rewrite lookup_insert; case_decide; subst; by rewrite ?Hrow.
Qed.

Lemma folders_set_folder_status db p s key :
  folders (set_folder_status db p s) !! key =
  if decide (as_posix p = key)
  then match folders db !! key with
       | Some (a, _) => Some (a, s)
       | None => None
       end
  else folders db !! key.
Proof.
  unfold set_folder_status.
  destruct (folders db !! as_posix p) as [[a0 s0]|] eqn:Hrow; simpl.
  - rewrite lookup_insert. case_decide; subst; by rewrite ?Hrow.
  - case_decide; subst; by rewrite ?Hrow.
Qed.

Lemma files_mark_file_uploaded db p f key :
  files (mark_file_uploaded db p f) !! key =
  if decide (as_posix p = key)
  then Some (match files db !! key with
             | Some (old_folder, _) => old_folder
             | None => as_posix f
             end, "uploaded")
  else files db !! key.
Proof.
  unfold mark_file_uploaded.
  destruct (files db !! as_posix p) as [[f0 s0]|] eqn:Hrow; simpl;
    rewrite lookup_insert; case_decide; subst; by rewrite ?Hrow.
Qed.

Lemma uploaded_key_mark db p f key :
  uploaded_key (mark_file_uploaded db p f) key =
  bool_decide (as_posix p = key) || uploaded_key db key.
Proof.
  unfold uploaded_key. rewrite files_mark_file_uploaded.
  case_decide; [by rewrite bool_decide_eq_true_2 | by rewrite bool_decide_eq_false_2].
Qed.

Lemma mark_all_app db ps qs f :
  mark_all db (ps ++ qs) f = mark_all (mark_all db ps f) qs f.
Proof. apply fold_left_app. Qed.

Lemma mark_all_cons db p ps f :
  mark_all db (p :: ps) f = mark_all (mark_file_uploaded db p f) ps f.
Proof. reflexivity. Qed.

Lemma folders_mark_all db ps f : folders (mark_all db ps f) = folders db.
Proof.
  revert db. induction ps as [|p ps IH]; intros db; [done|].
  by rewrite mark_all_cons, IH, folders_mark_file_uploaded.
Qed.

Lemma uploaded_key_mark_all db ps f key :
  uploaded_key (mark_all db ps f) key =
  uploaded_key db key || bool_decide (key ∈ List.map as_posix ps).
Proof.
  revert db. induction ps as [|p ps IH]; intros db.
  - rewrite (bool_decide_eq_false_2 (key ∈ _)); [by rewrite orb_false_r|].
    apply not_elem_of_nil.
  - rewrite mark_all_cons, IH, uploaded_key_mark.
    destruct (decide (as_posix p = key)) as [<-|Hne].
    + rewrite (bool_decide_eq_true_2 (as_posix p = as_posix p)) by done.
      rewrite (bool_decide_eq_true_2 (_ ∈ List.map _ (_ :: _)))
        by apply list_elem_of_here.
      by rewrite orb_true_r.
    + rewrite (bool_decide_eq_false_2 (as_posix p = key)) by done. simpl.
      f_equal. apply bool_decide_ext. rewrite elem_of_cons.
      split; [by right | intros [Heq|Hin]; [congruence | done]].
Qed.

(** The files table after marking depends on the files table only. *)
Lemma files_mark_all_ext db1 db2 ps f :
  files db1 = files db2 -> files (mark_all db1 ps f) = files (mark_all db2 ps f).
Proof.
  revert db1 db2. induction ps as [|p ps IH]; intros db1 db2 Heq; [done|].
  rewrite !mark_all_cons. apply IH. unfold mark_file_uploaded. rewrite Heq.
  by destruct (files db2 !! as_posix p) as [[? ?]|].
Qed.

End StoreFacts.

(* ===================================================================== *)
(** ** Facts about traces *)
(* ===================================================================== *)

Section TraceFacts.

Implicit Types (t : history) (e : exchange).

Lemma no_fatal_app t1 t2 : no_fatal (t1 ++ t2) = no_fatal t1 && no_fatal t2.
Proof. apply forallb_app. Qed.

Lemma attempted_app t1 t2 : attempted (t1 ++ t2) = attempted t1 ++ attempted t2.
Proof. apply flat_map_app. Qed.

Lemma oks_app t1 t2 : oks (t1 ++ t2) = oks t1 ++ oks t2.
Proof. apply flat_map_app. Qed.

Lemma replay_app t1 t2 st : replay (t1 ++ t2) st = replay t2 (replay t1 st).
Proof. apply fold_left_app. Qed.

(** The committed paths accumulate: what was committed before stays in
    front. *)
Lemma replay_committed t pe co :
  replay t (pe, co) = (fst (replay t (pe, [])), co ++ snd (replay t (pe, []))).
Proof.
  revert pe co. induction t as [|e t IH]; intros pe co.
  - simpl. by rewrite app_nil_r.
  - change (replay (e :: t) (pe, co)) with (replay t (replay_step (pe, co) e)).
    change (replay (e :: t) (pe, [])) with (replay t (replay_step (pe, []) e)).
    destruct e as [title r | p [tok|msg] | toks alb [ids|msg]]; simpl;
      try apply IH.
    rewrite (IH [] (co ++ List.map fst pe)), (IH [] (List.map fst pe)).
    simpl. by rewrite app_assoc.
Qed.

(** Over upload calls only, replaying just collects the successes. *)
Lemma replay_uploads t pe co :
  Forall (fun e => is_upload e = true) t ->
  replay t (pe, co) = (pe ++ oks t, co).
Proof.
  intros Hall. revert pe. induction Hall as [|e t He _ IH]; intros pe.
  - simpl. by rewrite app_nil_r.
  - change (replay (e :: t) (pe, co)) with (replay t (replay_step (pe, co) e)).
    destruct e as [title r | p [tok|msg] | toks alb r]; try discriminate He;
      simpl; rewrite IH; [|done].
    by rewrite <- app_assoc.
Qed.

Lemma committed_of_app t1 t2 :
  pending_of t1 = [] ->
  committed_of (t1 ++ t2) = committed_of t1 ++ committed_of t2 /\
  pending_of (t1 ++ t2) = pending_of t2.
Proof.
  unfold pending_of, committed_of. intros Hp.
  rewrite replay_app.
  destruct (replay t1 ([], [])) as [pe co] eqn:Hr. simpl in Hp. subst pe.
  rewrite replay_committed. simpl. done.
Qed.

(** The committed paths are among the successful uploads. *)
Lemma replay_committed_sub t pe co :
  forall p, p ∈ snd (replay t (pe, co)) ->
            p ∈ co \/ p ∈ List.map fst pe \/ p ∈ List.map fst (oks t).
Proof.
  revert pe co. induction t as [|e t IH]; intros pe co p Hp.
  - by left.
  - change (replay (e :: t) (pe, co)) with (replay t (replay_step (pe, co) e))
      in Hp.
    destruct e as [title r | q [tok|msg] | toks alb [ids|msg]]; simpl in Hp;
      apply IH in Hp; simpl.
    + exact Hp.
    + rewrite elem_of_cons.
      destruct Hp as [Hp | [Hp | Hp]]; [by left | | by right; right; right].
      rewrite map_app in Hp. apply elem_of_app in Hp as [Hp|Hp]; [by right; left|].
      apply list_elem_of_singleton in Hp. by right; right; left.
    + exact Hp.
    + destruct Hp as [Hp | [Hp | Hp]]; [| by inversion Hp | by right; right].
      apply elem_of_app in Hp as [Hp|Hp]; [by left | by right; left].
    + destruct Hp as [Hp | [Hp | Hp]]; [by left | by inversion Hp | by right; right].
Qed.

Lemma committed_sub_oks t p : p ∈ committed_of t -> p ∈ List.map fst (oks t).
Proof.
  intros Hp. apply replay_committed_sub in Hp as [Hp | [Hp | Hp]];
    [by inversion Hp | by inversion Hp | done].
Qed.

Lemma oks_sub_attempted t p tok : (p, tok) ∈ oks t -> p ∈ attempted t.
Proof.
  induction t as [|e t IH]; [intros Hin; inversion Hin|].
  change (e :: t) with ([e] ++ t). rewrite oks_app, attempted_app.
  rewrite !elem_of_app. intros [He | Ht]; [left | right; by apply IH].
  destruct e as [title r | q [tok'|msg] | toks alb r]; simpl in *;
    try by inversion He.
  apply list_elem_of_singleton in He. injection He as -> ->. apply list_elem_of_here.
Qed.

(** A trace with a fatal exchange in it is not free of fatal exchanges. *)
Lemma no_fatal_In t e : no_fatal t = true -> In e t -> fatal e = false.
Proof.
  unfold no_fatal. rewrite forallb_forall. intros Hall Hin.
  apply negb_true_iff. by apply Hall.
Qed.


(** Exchanges other than commit calls only add to the pending uploads. *)
Lemma replay_no_commit t pe co :
  Forall (fun e => is_commit e = false) t ->
  replay t (pe, co) = (pe ++ oks t, co).
Proof.
  intros Hall. revert pe. induction Hall as [|e t He _ IH]; intros pe.
  - simpl. by rewrite app_nil_r.
  - change (replay (e :: t) (pe, co)) with (replay t (replay_step (pe, co) e)).
    destruct e as [title r | p [tok|msg] | toks alb r]; try discriminate He;
      simpl; rewrite IH; [done | | done].
    by rewrite <- app_assoc.
Qed.

Lemma replay_pending t pe co :
  fst (replay t (pe, co)) = fst (replay t (pe, [])).
Proof. by rewrite replay_committed. Qed.

Lemma commits_carry_pending_app t1 t2 pe :
  commits_carry_pending pe (t1 ++ t2) <->
  commits_carry_pending pe t1 /\
  commits_carry_pending (fst (replay t1 (pe, []))) t2.
Proof.
  revert pe. induction t1 as [|e t1 IH]; intros pe; simpl; [tauto|].
  rewrite IH.
  change (replay (e :: t1) (pe, [])) with (replay t1 (replay_step (pe, []) e)).
  destruct (replay_step (pe, []) e) as [pe1 co1] eqn:Hstep. simpl.
  rewrite (replay_pending t1 pe1 co1). tauto.
Qed.

Lemma commits_carry_pending_no_commit t pe :
  Forall (fun e => is_commit e = false) t -> commits_carry_pending pe t.
Proof.
  intros Hall. revert pe. induction Hall as [|e t He _ IH]; intros pe; [done|].
  simpl. split; [|apply IH]. by destruct e.
Qed.

Lemma uploads_no_commit t :
  Forall (fun e => is_upload e = true) t -> Forall (fun e => is_commit e = false) t.
Proof. intros Hall. eapply Forall_impl; [exact Hall|]. by intros []. Qed.

Lemma batch_trace_uploads us :
  Forall (fun e => is_upload e = true) us -> batch_trace us.
Proof.
  intros Hus. split.
  - eapply Forall_impl; [exact Hus|]. by intros [].
  - by apply commits_carry_pending_no_commit, uploads_no_commit.
Qed.

Lemma batch_trace_commit us toks alb r :
  Forall (fun e => is_upload e = true) us ->
  toks = List.map snd (oks us) ->
  batch_trace (us ++ [CommitBatch toks alb r]).
Proof.
  intros Hus ->. destruct (batch_trace_uploads us Hus) as [Hnc Hcarry]. split.
  - apply Forall_app. split; [done | by repeat constructor].
  - apply commits_carry_pending_app. split; [done|].
    rewrite replay_uploads by done. simpl. done.
Qed.

Lemma batch_trace_app t1 t2 :
  batch_trace t1 -> pending_of t1 = [] -> batch_trace t2 ->
  batch_trace (t1 ++ t2).
Proof.
  intros [Hnc1 Hc1] Hpe [Hnc2 Hc2]. split; [by apply Forall_app|].
  apply commits_carry_pending_app. split; [done|].
  unfold pending_of in Hpe. by rewrite Hpe.
Qed.

(** In a trace whose commit calls carry the pending tokens, the token of
    a successful upload is among the tokens of the next commit call. *)
Lemma token_is_carried t1 q token us toks alb r t3 pe :
  commits_carry_pending pe
    (t1 ++ UploadFile q (Ok token) :: us ++ CommitBatch toks alb r :: t3) ->
  Forall (fun e => is_commit e = false) us ->
  In token toks.
Proof.
  intros Hcarry Hus.
  apply commits_carry_pending_app in Hcarry as [_ Hcarry].
  destruct Hcarry as [_ Hcarry]. simpl in Hcarry.
  apply commits_carry_pending_app in Hcarry as [_ Hcarry].
  rewrite replay_no_commit in Hcarry by done.
  destruct Hcarry as [-> _]. simpl.
  rewrite !map_app. apply in_or_app. left. apply in_or_app. right. by left.
Qed.

End TraceFacts.

(* ===================================================================== *)
(** ** The batch loop *)
(* ===================================================================== *)

Section BatchFacts.

Variable service : Service.

Lemma upload_batch_spec batch :
  forall h toks paths h' r,
    upload_batch service h batch toks paths = (h', r) ->
    exists t,
      h' = h ++ t /\ Forall (fun e => is_upload e = true) t /\
      match r with
      | Some (toks', paths') =>
          attempted t = batch /\ no_fatal t = true /\
          toks' = toks ++ List.map snd (oks t) /\
          paths' = paths ++ List.map fst (oks t)
      | None =>
          exists t0 f msg,
            t = t0 ++ [UploadFile f (Err msg)] /\ is_quota_error msg = true /\
            no_fatal t0 = true /\ attempted t `prefix_of` batch
      end.
Proof.
  induction batch as [|file_path rest IH]; intros h toks paths h' r Hrun.
  - injection Hrun as <- <-. exists []. rewrite !app_nil_r. by repeat split.
  - simpl in Hrun. unfold upload_bytes in Hrun.
    destruct (svc_upload_bytes service h file_path) as [token|msg] eqn:Hup.
    + apply IH in Hrun as (t & -> & Hall & Hr).
      exists (UploadFile file_path (Ok token) :: t).
      split; [by rewrite <- app_assoc|]. split; [by constructor|].
      destruct r as [[toks' paths']|].
      * destruct Hr as (Hatt & Hnf & -> & ->). simpl.
        rewrite Hatt, <- !app_assoc. by repeat split.
      * destruct Hr as (t0 & f & m & -> & Hq & Hnf & Hpre).
        exists (UploadFile file_path (Ok token) :: t0), f, m.
        repeat split; [done | done |].
        simpl. by apply prefix_cons.
    + destruct (is_quota_error msg) eqn:Hq.
      * injection Hrun as <- <-. exists [UploadFile file_path (Err msg)].
        split; [done|]. split; [by repeat constructor|].
        exists [], file_path, msg. repeat split; [done|].
        simpl. apply prefix_cons, prefix_nil.
      * apply IH in Hrun as (t & -> & Hall & Hr).
        exists (UploadFile file_path (Err msg) :: t).
        split; [by rewrite <- app_assoc|]. split; [by constructor|].
        destruct r as [[toks' paths']|].
        -- destruct Hr as (Hatt & Hnf & -> & ->). simpl.
           rewrite Hatt, Hq. by repeat split.
        -- destruct Hr as (t0 & f & m & -> & Hqm & Hnf & Hpre).
           exists (UploadFile file_path (Err msg) :: t0), f, m.
           repeat split; [done | by simpl; rewrite Hq |].
           simpl. by apply prefix_cons.
Qed.

Lemma process_batch_spec db h folder_path album_id batch b db' h' :
  process_batch service db h folder_path album_id batch = (b, db', h') ->
  exists t, h' = h ++ t /\ run_outcome batch folder_path b db db' t.
Proof.
  unfold process_batch.
  destruct (upload_batch service h batch [] []) as [h1 r] eqn:Hup.
  apply upload_batch_spec in Hup as (t1 & -> & Hall & Hr).
  assert (replay t1 ([], []) = (oks t1, [])) as Hrep
    by (by rewrite replay_uploads).
  destruct r as [[toks paths]|].
  - destruct Hr as (Hatt & Hnf & Htoks & Hpaths). simpl in Htoks, Hpaths.
    destruct toks as [|tok toks].
    + intros [= <- <- <-]. exists t1. split; [done|].
      assert (oks t1 = []) as Hoks.
      { symmetry in Htoks. by apply fmap_nil_inv in Htoks. }
      unfold run_outcome, committed_of, pending_of. rewrite Hrep, Hoks.
      split; [done|]. split; [by apply batch_trace_uploads | done].
    + unfold batch_create_media_items.
      set (r := svc_batch_create service (h ++ t1) (tok :: toks) album_id).
      destruct r as [ids|msg] eqn:Hr.
      * intros [= <- <- <-]. eexists (t1 ++ [CommitBatch _ _ (Ok ids)]).
        split; [by rewrite app_assoc|].
        unfold run_outcome, committed_of, pending_of.
        rewrite replay_app, Hrep. simpl. rewrite Hpaths.
        split; [done|]. split; [by apply batch_trace_commit|].
        split; [|split; [|done]].
        -- rewrite attempted_app. simpl. by rewrite app_nil_r.
        -- rewrite no_fatal_app, Hnf. done.
      * destruct (is_quota_error msg) eqn:Hq; intros [= <- <- <-];
          eexists (t1 ++ [CommitBatch _ _ (Err msg)]);
          (split; [by rewrite app_assoc|]);
          unfold run_outcome, committed_of, pending_of;
          rewrite replay_app, Hrep; simpl;
          (split; [done|]);
          (split; [by apply batch_trace_commit|]).
        -- eexists t1, _. repeat split; [by simpl; rewrite Hq | done |].
           rewrite attempted_app. simpl. rewrite app_nil_r, Hatt. done.
        -- repeat split.
           ++ rewrite attempted_app. simpl. by rewrite app_nil_r.
           ++ rewrite no_fatal_app, Hnf. simpl. by rewrite Hq.
  - destruct Hr as (t0 & f & msg & -> & Hq & Hnf & Hpre).
    intros [= <- <- <-]. eexists. split; [done|].
    unfold run_outcome, committed_of. rewrite Hrep. simpl.
    split; [done|]. split; [by apply batch_trace_uploads|].
    exists t0, (UploadFile f (Err msg)). by repeat split.
Qed.

End BatchFacts.

Section LoopFacts.

Variable service : Service.

Lemma upload_in_batches_spec folder_path album_id batches :
  forall db h b db' h',
    upload_in_batches service db h folder_path album_id batches = (b, db', h') ->
    exists t, h' = h ++ t /\ run_outcome (concat batches) folder_path b db db' t.
Proof.
  induction batches as [|batch rest IH]; intros db h b db' h' Hrun.
  - injection Hrun as <- <- <-. exists []. rewrite app_nil_r.
    split; [done|]. by repeat split.
  - simpl in Hrun.
    destruct (process_batch service db h folder_path album_id batch)
      as [[b1 db1] h1] eqn:Hb.
    apply process_batch_spec in Hb as (t1 & -> & Hdb1 & Hnc1 & Hout1).
    destruct b1.
    + destruct Hout1 as (Hatt1 & Hnf1 & Hpe1).
      apply IH in Hrun as (t2 & -> & Hdb2 & Hnc2 & Hout2).
      exists (t1 ++ t2). split; [by rewrite app_assoc|].
      destruct (committed_of_app t1 t2 Hpe1) as [Hco Hpe].
      split; [by rewrite Hco, mark_all_app, <- Hdb1|].
      split; [by apply batch_trace_app|].
      destruct b.
      * destruct Hout2 as (Hatt2 & Hnf2 & Hpe2). simpl.
        rewrite attempted_app, no_fatal_app, Hatt1, Hatt2, Hnf1, Hnf2, Hpe.
        done.
      * destruct Hout2 as (t0 & e & -> & He & Hnf0 & Hpre).
        exists (t1 ++ t0), e. rewrite app_assoc.
        repeat split; [done | by rewrite no_fatal_app, Hnf1 |].
        rewrite <- app_assoc, attempted_app, Hatt1. simpl.
        by apply prefix_app.
    + injection Hrun as <- <- <-. exists t1. split; [done|].
      split; [done|]. split; [done|].
      destruct Hout1 as (t0 & e & -> & He & Hnf0 & Hpre).
      exists t0, e. repeat split; [done..|].
      simpl. by apply prefix_app_r.
Qed.

End LoopFacts.

(** Cutting a list into batches loses nothing and keeps the order. *)
Lemma concat_slices {A} (n : nat) (l : list A) :
  forall m, length l <= m * S n ->
    concat (List.map (fun i => slice l i (S n))
                     (List.map (fun k => k * S n) (seq 0 m))) = l.
Proof.
  intros m. revert l. induction m as [|m IH]; intros l Hlen.
  - destruct l; [done | simpl in Hlen; lia].
  - rewrite <- cons_seq, <- seq_shift. rewrite !map_cons, !map_map.
    rewrite concat_cons.
    transitivity (firstn (S n) l ++ skipn (S n) l); [|apply firstn_skipn].
    f_equal.
    rewrite <- (IH (skipn (S n) l)) by (rewrite length_skipn; lia).
    f_equal. rewrite map_map. apply map_ext. intros k. unfold slice.
    f_equal. rewrite skipn_skipn. f_equal. lia.
Qed.

Lemma concat_batches_of (fs : list string) : concat (batches_of fs) = fs.
Proof.
  unfold batches_of, range_step, BATCH_SIZE. apply concat_slices.
  pose proof (Nat.div_mod (length fs + 10 - 1) 10 ltac:(lia)) as Hdiv.
  pose proof (Nat.mod_upper_bound (length fs + 10 - 1) 10 ltac:(lia)). lia.
Qed.

(* ===================================================================== *)
(** ** The folder algorithm *)
(* ===================================================================== *)

Section FolderFacts.

Variable service : Service.
Variable walk : Walk.

Lemma is_file_uploaded_ext db1 db2 f :
  files db1 = files db2 -> is_file_uploaded db1 f = is_file_uploaded db2 f.
Proof. unfold is_file_uploaded. by intros ->. Qed.

Lemma album_ready_files db h folder_path pre db1 :
  album_ready service db h folder_path pre db1 -> files db1 = files db.
Proof.
  intros [(_ & _ & ->) | (_ & album_id & _ & _ & ->)]; [done|].
  apply files_set_folder_album.
Qed.

Lemma decide_album_cases db h folder_path h1 r :
  decide_album service db h (as_posix folder_path)
    (basename (as_posix folder_path)) (existing_album db folder_path) = (h1, r) ->
  match r with
  | None =>
      needs_album db folder_path = true /\
      exists error_msg,
        svc_create_album service h (basename (as_posix folder_path))
          = Err error_msg /\
        h1 = h ++ [CreateAlbum (basename (as_posix folder_path)) (Err error_msg)]
  | Some (db1, album_id) =>
      exists pre, h1 = h ++ pre /\ album_ready service db h folder_path pre db1
  end.
Proof.
  unfold decide_album. fold (needs_album db folder_path).
  destruct (needs_album db folder_path) eqn:Hneed.
  - unfold create_album.
    destruct (svc_create_album service h (basename (as_posix folder_path)))
      as [album_id|msg] eqn:Hcreate.
    + intros [= <- <-]. eexists. split; [done|]. right. split; [done|].
      exists album_id. by rewrite set_folder_album_posix.
    + destruct (is_quota_error msg); intros [= <- <-]; eauto.
  - intros [= <- <-]. exists []. rewrite app_nil_r. split; [done|]. by left.
Qed.

Lemma process_folder_unfold db h folder_path :
  process_folder service walk db h folder_path =
  if folder_processed db folder_path then (true, db, h)
  else
    match decide_album service db h (as_posix folder_path)
            (basename (as_posix folder_path))
            (existing_album db folder_path) with
    | (h1, None) => (false, db, h1)
    | (h1, Some (db1, album_id)) =>
        match files_to_upload walk db1 folder_path with
        | [] => (true, set_folder_status db1 folder_path "processed", h1)
        | _ :: _ =>
            match upload_in_batches service db1 h1 (as_posix folder_path)
                    album_id
                    (batches_of (files_to_upload walk db1 folder_path)) with
            | (false, db2, h2) => (false, db2, h2)
            | (true, db2, h2) =>
                (true, set_folder_status db2 folder_path "processed", h2)
            end
        end
    end.
Proof.
  unfold process_folder, folder_processed, folder_status, existing_album,
    files_to_upload.
  rewrite get_folder_posix.
  destruct (get_folder_resumption_data db folder_path) as [[a st]|]; simpl.
  - destruct (String.eqb st "processed"); [done|].
    destruct (decide_album _ _ _ _ _ _) as [h1 [[db1 album_id]|]]; [|done].
    rewrite !set_folder_status_posix.
    destruct (gather_files walk (as_posix folder_path)); [done|].
    destruct (List.filter _ _); [done|].
    destruct (upload_in_batches _ _ _ _ _ _) as [[[] ?] ?];
      by rewrite ?set_folder_status_posix.
  - destruct (decide_album _ _ _ _ _ _) as [h1 [[db1 album_id]|]]; [|done].
    rewrite !set_folder_status_posix.
    destruct (gather_files walk (as_posix folder_path)); [done|].
    destruct (List.filter _ _); [done|].
    destruct (upload_in_batches _ _ _ _ _ _) as [[[] ?] ?];
      by rewrite ?set_folder_status_posix.
Qed.

Lemma files_to_upload_ext db1 db2 folder_path :
  files db1 = files db2 ->
  files_to_upload walk db1 folder_path = files_to_upload walk db2 folder_path.
Proof.
  intros Heq. unfold files_to_upload. apply filter_ext. intros f.
  by rewrite (is_file_uploaded_ext db1 db2).
Qed.

(** Every call of [process_folder] goes one of the three ways. *)
Lemma process_folder_run db h folder_path ret db' h' :
  process_folder service walk db h folder_path = (ret, db', h') ->
  folder_run service walk db h folder_path ret db' h'.
Proof.
  rewrite process_folder_unfold.
  destruct (folder_processed db folder_path) eqn:Hproc.
  { intros [= <- <- <-]. by apply run_skipped. }
  destruct (decide_album _ _ _ _ _ _) as [h1 r] eqn:Halbum.
  apply decide_album_cases in Halbum.
  destruct r as [[db1 album_id]|].
  - destruct Halbum as (pre & -> & Hready).
    rewrite (files_to_upload_ext db1 db) by by eapply album_ready_files.
    destruct (files_to_upload walk db folder_path) as [|f fs] eqn:Hfs.
    + intros [= <- <- <-].
      replace (h ++ pre) with (h ++ pre ++ []) by by rewrite app_nil_r.
      apply (run_transfer service walk db h folder_path pre db1 [] db1 true);
        [done | done |]. rewrite Hfs. by repeat split.
    + destruct (upload_in_batches _ _ _ _ _ _) as [[b db2] h2] eqn:Hloop.
      apply upload_in_batches_spec in Hloop as (t & -> & Hout).
      rewrite concat_batches_of, <- Hfs in Hout.
      destruct b; intros [= <- <- <-]; rewrite <- app_assoc.
      * by apply (run_transfer service walk db h folder_path pre db1 t db2 true).
      * by apply (run_transfer service walk db h folder_path pre db1 t db2 false).
  - destruct Halbum as (Hneed & msg & Hcreate & ->).
    intros [= <- <- <-]. by apply run_album_failed.
Qed.

End FolderFacts.

(** What every call leaves behind, read off its trace [t]: the files table
    gains exactly the marks of the committed paths; the uploads attempted
    are a prefix of the files to upload; a call that returns [True] met no
    fatal exchange, and a call that returns [False] ends with its one
    fatal exchange. *)
Section FolderTrace.

Variable service : Service.
Variable walk : Walk.

Lemma committed_of_pre pre t :
  Forall (fun e => is_create e = true) pre ->
  committed_of (pre ++ t) = committed_of t /\ attempted (pre ++ t) = attempted t
  /\ pending_of (pre ++ t) = pending_of t.
Proof.
  intros Hpre. unfold committed_of, pending_of.
  rewrite replay_app, attempted_app.
  assert (replay pre ([], []) = ([], []) /\ attempted pre = []) as [-> ->]; [|done].
  induction Hpre as [|e pre He _ [IH1 IH2]]; [done|].
  destruct e; try discriminate He. simpl. done.
Qed.

Lemma album_ready_pre db h folder_path pre db1 :
  album_ready service db h folder_path pre db1 ->
  Forall (fun e => is_create e = true) pre /\ no_fatal pre = true.
Proof.
  intros [(_ & -> & _) | (_ & album_id & _ & -> & _)]; split;
    by repeat constructor.
Qed.

Lemma process_folder_trace db h folder_path ret db' h' :
  process_folder service walk db h folder_path = (ret, db', h') ->
  exists t,
    h' = h ++ t /\
    files db' = files (mark_all db (committed_of t) (as_posix folder_path)) /\
    attempted t `prefix_of` files_to_upload walk db folder_path /\
    (if ret then no_fatal t = true
     else exists t0 e, t = t0 ++ [e] /\ fatal e = true /\ no_fatal t0 = true).
Proof.
  intros Hrun. apply process_folder_run in Hrun.
  destruct Hrun as [Hproc | msg Hproc Hneed Hcreate
                   | pre db1 t db2 ret Hproc Hready Hout].
  - exists []. rewrite app_nil_r.
    split; [done|]. split; [done|]. split; [apply prefix_nil | done].
  - eexists. split; [done|]. split; [done|]. split; [apply prefix_nil|].
    by exists [], (CreateAlbum (basename (as_posix folder_path)) (Err msg)).
  - exists (pre ++ t). split; [done|].
    destruct (album_ready_pre _ _ _ _ _ Hready) as [Hpre Hnfpre].
    destruct (committed_of_pre pre t Hpre) as (-> & -> & _).
    destruct Hout as (Hdb2 & Hnc & Hout).
    assert (files db2 =
            files (mark_all db (committed_of t) (as_posix folder_path))) as Hfiles.
    { rewrite Hdb2. apply files_mark_all_ext. by eapply album_ready_files. }
    destruct ret.
    + destruct Hout as (Hatt & Hnf & _).
      rewrite files_set_folder_status, no_fatal_app, Hnfpre, Hnf, Hatt. done.
    + destruct Hout as (t0 & e & -> & He & Hnf0 & Hprefix).
      split; [done|]. split; [done|].
      exists (pre ++ t0), e. rewrite app_assoc, no_fatal_app, Hnfpre. done.
Qed.

(** A fatal exchange ends the call: it is the last exchange of the trace
    and the call returns [False]. *)
Lemma fatal_is_last db h folder_path ret db' t e :
  process_folder service walk db h folder_path = (ret, db', h ++ t) ->
  In e t -> fatal e = true -> ret = false /\ exists t0, t = t0 ++ [e].
Proof.
  intros Hrun Hin He.
  apply process_folder_trace in Hrun as (t' & Heq & _ & _ & Hret).
  apply app_inv_head in Heq as <-.
  destruct ret.
  - by rewrite (no_fatal_In t e Hret Hin) in He.
  - split; [done|]. destruct Hret as (t0 & e1 & -> & He1 & Hnf0).
    exists t0. apply in_app_or in Hin as [Hin | [-> | []]]; [|done].
    by rewrite (no_fatal_In t0 e Hnf0 Hin) in He.
Qed.

(** An exchange that is not fatal is never the last one of a call that
    returns [False]. *)
Lemma not_fatal_not_last db h folder_path db' t0 e :
  process_folder service walk db h folder_path = (false, db', h ++ t0 ++ [e]) ->
  fatal e = true.
Proof.
  intros Hrun.
  apply process_folder_trace in Hrun as (t' & Heq & _ & _ & Hret).
  apply app_inv_head in Heq as <-.
  destruct Hret as (t1 & e1 & Heq & He1 & _).
  apply app_inj_tail in Heq as [_ ->]. done.
Qed.

End FolderTrace.

(* ===================================================================== *)
(** ** Quota-type failures *)
(* ===================================================================== *)

Lemma is_quota_error_iff msg : is_quota_error msg = true <-> quota_text msg.
Proof.
  unfold is_quota_error, quota_text.
  by rewrite orb_true_iff, !contains_iff.
Qed.

Lemma fatal_failure e msg :
  failure_msg e = Some msg ->
  fatal e = is_create e || is_quota_error msg.
Proof.
  destruct e as [title [a|m] | p [tok|m] | toks alb [ids|m]];
    simpl; intros [= <-]; done.
Qed.

(** C10: a failure is taken as quota-type exactly when its message text
    holds "quota" (in any case) or "429"; a failure with such a message
    ends the call with [False] on the spot, whatever its real cause, and
    no other failed upload or commit does. *)
Theorem C10_quota_type_by_message_text
    service walk db h folder_path ret db' t e error_msg :
  process_folder service walk db h folder_path = (ret, db', h ++ t) ->
  In e t ->
  failure_msg e = Some error_msg ->
  (is_quota_error error_msg = true <-> quota_text error_msg) /\
  (quota_text error_msg -> ret = false /\ exists t0, t = t0 ++ [e]) /\
  (~ quota_text error_msg -> is_create e = false ->
   ret = false -> ~ exists t0, t = t0 ++ [e]).
Proof.
  intros Hrun Hin Hmsg. split; [apply is_quota_error_iff|]. split.
  - intros Hq%is_quota_error_iff.
    apply (fatal_is_last service walk db h folder_path ret db' t e Hrun Hin).
    rewrite (fatal_failure e error_msg Hmsg), Hq. apply orb_true_r.
  - intros Hnq Hnc -> [t0 ->].
    apply not_fatal_not_last in Hrun.
    rewrite (fatal_failure e error_msg Hmsg), Hnc in Hrun. simpl in Hrun.
    by apply Hnq, is_quota_error_iff.
Qed.

Lemma C10_witness :
  process_folder corrupt_429_service walk_429 empty_db [] "/t/A"
  = (false,
     snd (fst (process_folder corrupt_429_service walk_429 empty_db [] "/t/A")),
     [] ++ trace_429) /\
  In failed_429 trace_429 /\
  failure_msg failed_429 = Some msg_429 /\
  quota_text msg_429 /\
  exists t0, trace_429 = t0 ++ [failed_429].
Proof.
  assert (process_folder corrupt_429_service walk_429 empty_db [] "/t/A"
          = (false,
             snd (fst (process_folder corrupt_429_service walk_429 empty_db
                         [] "/t/A")),
             [] ++ trace_429)) as Hrun by (vm_compute; reflexivity).
  assert (In failed_429 trace_429) as Hin by (simpl; auto).
  destruct (C10_quota_type_by_message_text _ _ _ _ _ _ _ _ _ msg_429
              Hrun Hin eq_refl) as (Hiff & Hstop & _).
  assert (quota_text msg_429) as Hq by (apply Hiff; vm_compute; reflexivity).
  exact (conj Hrun (conj Hin (conj eq_refl (conj Hq (proj2 (Hstop Hq)))))).
Defined.

(* ===================================================================== *)
(** ** Files, uploads and commits *)
(* ===================================================================== *)

Lemma NoDup_map_filter {A B} (f : A -> B) (g : A -> bool) (l : list A) :
  NoDup (List.map f l) -> NoDup (List.map f (List.filter g l)).
Proof.
  induction l as [|x l IH]; simpl; [done|].
  rewrite NoDup_cons. intros [Hx Hl].
  destruct (g x); simpl; [|by apply IH].
  apply NoDup_cons. split; [|by apply IH].
  intros Hin. apply Hx.
  apply list_elem_of_fmap in Hin as (y & -> & Hy).
  apply list_elem_of_fmap. exists y. split; [done|].
  apply list_elem_of_In. apply list_elem_of_In in Hy.
  by apply filter_In in Hy as [Hy _].
Qed.

Section FolderFiles.

Variable service : Service.
Variable walk : Walk.

Lemma uploaded_after db h folder_path ret db' t p :
  process_folder service walk db h folder_path = (ret, db', h ++ t) ->
  is_file_uploaded db' p =
  is_file_uploaded db p
  || bool_decide (as_posix p ∈ List.map as_posix (committed_of t)).
Proof.
  intros Hrun.
  apply process_folder_trace in Hrun as (t' & Heq & Hfiles & _).
  apply app_inv_head in Heq as <-.
  rewrite !is_file_uploaded_key.
  rewrite <- (uploaded_key_mark_all db _ (as_posix folder_path)).
  unfold uploaded_key. by rewrite Hfiles.
Qed.

Lemma attempted_fresh db h folder_path ret db' t p :
  process_folder service walk db h folder_path = (ret, db', h ++ t) ->
  p ∈ attempted t -> is_file_uploaded db p = false.
Proof.
  intros Hrun Hp.
  apply process_folder_trace in Hrun as (t' & Heq & _ & [k Hpre] & _).
  apply app_inv_head in Heq as <-.
  assert (In p (files_to_upload walk db folder_path)) as Hin.
  { rewrite Hpre. apply in_or_app. left. by apply list_elem_of_In. }
  apply filter_In in Hin as [_ Hin]. by apply negb_true_iff.
Qed.

Lemma attempted_keys_NoDup db h folder_path ret db' t :
  process_folder service walk db h folder_path = (ret, db', h ++ t) ->
  NoDup (List.map as_posix (gather_files walk (as_posix folder_path))) ->
  NoDup (List.map as_posix (attempted t)).
Proof.
  intros Hrun Hnd.
  apply process_folder_trace in Hrun as (t' & Heq & _ & [k Hpre] & _).
  apply app_inv_head in Heq as <-.
  apply (NoDup_map_filter as_posix (fun f => negb (is_file_uploaded db f)))
    in Hnd.
  fold (files_to_upload walk db folder_path) in Hnd.
  rewrite Hpre, map_app in Hnd. by apply NoDup_app in Hnd as [Hnd _].
Qed.

(** A position in a trace that holds a fatal exchange is its end. *)
Lemma fatal_ends db h folder_path ret db' t1 e t2 :
  process_folder service walk db h folder_path = (ret, db', h ++ t1 ++ e :: t2) ->
  fatal e = true -> ret = false /\ t2 = [].
Proof.
  intros Hrun He.
  apply process_folder_trace in Hrun as (t' & Heq & _ & _ & Hret).
  apply app_inv_head in Heq as <-.
  destruct ret.
  - exfalso. rewrite (no_fatal_In _ e Hret) in He; [done|].
    apply in_or_app. right. by left.
  - split; [done|]. destruct Hret as (t0 & e1 & Heq & _ & Hnf0).
    destruct t2 as [|x t2 _] using rev_ind; [done|]. exfalso.
    rewrite app_comm_cons, app_assoc in Heq.
    apply app_inj_tail in Heq as [<- _].
    rewrite (no_fatal_In _ e Hnf0) in He; [done|].
    apply in_or_app. right. by left.
Qed.

End FolderFiles.

(** Uploads that no commit call follows are not committed. *)
Lemma committed_of_uploads_last t0 us :
  Forall (fun e => is_upload e = true) us ->
  committed_of (t0 ++ us) = committed_of t0.
Proof.
  intros Hus. unfold committed_of. rewrite replay_app.
  destruct (replay t0 ([], [])) as [pe co]. by rewrite replay_uploads.
Qed.

(** Uploads followed by a failed commit call are not committed either. *)
Lemma committed_of_failed_commit t0 us toks alb msg t2 :
  Forall (fun e => is_upload e = true) us ->
  committed_of (t0 ++ us ++ CommitBatch toks alb (Err msg) :: t2)
  = committed_of t0 ++ committed_of t2.
Proof.
  intros Hus. unfold committed_of.
  rewrite !replay_app. destruct (replay t0 ([], [])) as [pe co].
  rewrite replay_uploads by done.
  change (replay (CommitBatch toks alb (Err msg) :: t2) (pe ++ oks us, co))
    with (replay t2 ([], co)).
  by rewrite replay_committed.
Qed.

Lemma upload_In_attempted us p r :
  In (UploadFile p r) us -> p ∈ attempted us.
Proof.
  intros Hin. apply list_elem_of_In. unfold attempted. apply in_flat_map.
  exists (UploadFile p r). split; [done | by left].
Qed.

Lemma committed_sub_attempted t p : p ∈ committed_of t -> p ∈ attempted t.
Proof.
  intros Hp%committed_sub_oks. apply list_elem_of_fmap in Hp as ([q tok] & -> & Hq).
  by apply oks_sub_attempted in Hq.
Qed.

(** C3: when an upload fails with a quota-type message the call returns
    [False] at once: the failed upload is the last exchange of the trace
    (no file of the batch and no later batch is attempted after it), and
    the files uploaded just before it, with no commit in between, are not
    recorded as uploaded. *)
Theorem C3_quota_upload_stops_folder
    service walk db h folder_path ret db' t1 f error_msg t2 :
  process_folder service walk db h folder_path
  = (ret, db', h ++ t1 ++ UploadFile f (Err error_msg) :: t2) ->
  is_quota_error error_msg = true ->
  NoDup (List.map as_posix (gather_files walk (as_posix folder_path))) ->
  ret = false /\ t2 = [] /\
  forall t0 us p token,
    t1 = t0 ++ us -> Forall (fun e => is_upload e = true) us ->
    In (UploadFile p (Ok token)) us ->
    is_file_uploaded db' p = false.
Proof.
  intros Hrun Hq Hnd.
  destruct (fatal_ends service walk _ _ _ _ _ _ _ _ Hrun Hq) as [-> ->].
  split; [done|]. split; [done|].
  intros t0 us p token -> Hus Hin.
  pose proof (upload_In_attempted us p _ Hin) as Hp.
  pose proof (attempted_keys_NoDup service walk _ _ _ _ _ _ Hrun Hnd) as Hkeys.
  rewrite (uploaded_after service walk _ _ _ _ _ _ p Hrun).
  rewrite (attempted_fresh service walk _ _ _ _ _ _ p Hrun).
  2:{ rewrite !attempted_app, !elem_of_app. by left; right. }
  simpl. apply bool_decide_eq_false_2.
  replace ((t0 ++ us) ++ [UploadFile f (Err error_msg)])
    with (t0 ++ us ++ [UploadFile f (Err error_msg)]) by by rewrite app_assoc.
  rewrite committed_of_uploads_last
    by (apply Forall_app; split; [done | by repeat constructor]).
  rewrite <- app_assoc, !attempted_app, !map_app in Hkeys.
  apply NoDup_app in Hkeys as (_ & Hdisj & _).
  intros Hin0. apply list_elem_of_fmap in Hin0 as (q & Heq & Hq0).
  apply committed_sub_attempted in Hq0.
  apply (Hdisj (as_posix q)); [by apply list_elem_of_fmap_2|].
  rewrite <- Heq. apply elem_of_app. left. by apply list_elem_of_fmap_2.
Qed.

Lemma C3_witness :
  process_folder quota_after_two_service walk_four empty_db [] "/t/A"
  = (false,
     snd (fst (process_folder quota_after_two_service walk_four empty_db []
                 "/t/A")),
     [] ++ trace_four_head ++ [UploadFile "/t/A/f3.jpg" (Err msg_quota)]) /\
  is_quota_error msg_quota = true /\
  NoDup (List.map as_posix (gather_files walk_four (as_posix "/t/A"))) /\
  is_file_uploaded
    (snd (fst (process_folder quota_after_two_service walk_four empty_db []
                 "/t/A")))
    "/t/A/f2.jpg" = false.
Proof.
  assert (process_folder quota_after_two_service walk_four empty_db [] "/t/A"
          = (false,
             snd (fst (process_folder quota_after_two_service walk_four
                         empty_db [] "/t/A")),
             [] ++ trace_four_head ++ [UploadFile "/t/A/f3.jpg" (Err msg_quota)]))
    as Hrun by (vm_compute; reflexivity).
  assert (is_quota_error msg_quota = true) as Hq by (vm_compute; reflexivity).
  assert (NoDup (List.map as_posix (gather_files walk_four (as_posix "/t/A"))))
    as Hnd by (apply (bool_decide_unpack _); vm_compute; exact I).
  destruct (C3_quota_upload_stops_folder _ _ _ _ _ _ _ _ _ _ _ Hrun Hq Hnd)
    as (_ & _ & Hkept).
  refine (conj Hrun (conj Hq (conj Hnd _))).
  apply (Hkept [CreateAlbum "A" (Ok (Some "album-A"))]
               [UploadFile "/t/A/f1.jpg" (Ok "token:/t/A/f1.jpg");
                UploadFile "/t/A/f2.jpg" (Ok "token:/t/A/f2.jpg")]
               "/t/A/f2.jpg" "token:/t/A/f2.jpg");
    [reflexivity | by repeat constructor | simpl; auto].
Defined.

(* ===================================================================== *)
(** ** Marked only after upload and commit *)
(* ===================================================================== *)

(** Where a committed path comes from: it was committed before, or it was
    pending and a successful commit is the next commit call, or it was
    uploaded in the trace and the next commit call after it succeeded. *)
Lemma replay_committed_inv t :
  forall pe co q,
    q ∈ snd (replay t (pe, co)) ->
    q ∈ co \/
    (q ∈ List.map fst pe /\
     exists us toks alb ids t3,
       t = us ++ CommitBatch toks alb (Ok ids) :: t3 /\
       Forall (fun e => is_commit e = false) us) \/
    (exists token t1 us toks alb ids t3,
       t = t1 ++ UploadFile q (Ok token) :: us
              ++ CommitBatch toks alb (Ok ids) :: t3 /\
       Forall (fun e => is_commit e = false) us).
Proof.
  induction t as [|e t IH]; intros pe co q Hq; [by left|].
  change (replay (e :: t) (pe, co)) with (replay t (replay_step (pe, co) e)) in Hq.
  assert (forall st, replay_step (pe, co) e = st ->
            (st = (pe, co) /\ is_commit e = false) \/
            (exists p tok, e = UploadFile p (Ok tok) /\ st = (pe ++ [(p, tok)], co)) \/
            (exists toks alb ids, e = CommitBatch toks alb (Ok ids) /\
                                  st = ([], co ++ List.map fst pe)) \/
            (exists toks alb msg, e = CommitBatch toks alb (Err msg) /\
                                  st = ([], co))) as Hstep.
  { intros st <-.
    destruct e as [title r | p [tok|msg] | toks alb [ids|msg]]; simpl; eauto 10. }
  destruct (Hstep _ eq_refl) as [[Hst He] | [(p & tok & -> & Hst) |
                                 [(toks & alb & ids & -> & Hst) |
                                  (toks & alb & msg & -> & Hst)]]];
    rewrite Hst in Hq; apply IH in Hq.
  - destruct Hq as [Hq | [(Hq & us & toks & alb & ids & t3 & -> & Hus) |
                          (tok & t1 & us & toks & alb & ids & t3 & -> & Hus)]].
    + by left.
    + right; left. split; [done|]. exists (e :: us), toks, alb, ids, t3.
      split; [done | by constructor].
    + right; right. by exists tok, (e :: t1), us, toks, alb, ids, t3.
  - destruct Hq as [Hq | [(Hq & us & toks & alb & ids & t3 & -> & Hus) |
                          (tok' & t1 & us & toks & alb & ids & t3 & -> & Hus)]].
    + by left.
    + rewrite map_app in Hq. apply elem_of_app in Hq as [Hq | Hq].
      * right; left. split; [done|].
        exists (UploadFile p (Ok tok) :: us), toks, alb, ids, t3.
        split; [done | by constructor].
      * apply list_elem_of_singleton in Hq. simpl in Hq. subst q.
        right; right. by exists tok, [], us, toks, alb, ids, t3.
    + right; right.
      by exists tok', (UploadFile p (Ok tok) :: t1), us, toks, alb, ids, t3.
  - destruct Hq as [Hq | [(Hq & _) |
                          (tok & t1 & us & toks' & alb' & ids' & t3 & -> & Hus)]].
    + apply elem_of_app in Hq as [Hq | Hq]; [by left|].
      right; left. split; [done|]. by exists [], toks, alb, ids, t.
    + by inversion Hq.
    + right; right.
      by exists tok, (CommitBatch toks alb (Ok ids) :: t1), us, toks', alb', ids', t3.
  - destruct Hq as [Hq | [(Hq & _) |
                          (tok & t1 & us & toks' & alb' & ids' & t3 & -> & Hus)]].
    + by left.
    + by inversion Hq.
    + right; right.
      by exists tok, (CommitBatch toks alb (Err msg) :: t1), us, toks', alb', ids', t3.
Qed.

Lemma committed_of_inv t q :
  commits_carry_pending [] t ->
  q ∈ committed_of t -> committed_after_upload t q.
Proof.
  intros Hcarry Hq. apply replay_committed_inv in Hq as [Hq | [[Hq _] | Hq]];
    [by inversion Hq | by inversion Hq |].
  destruct Hq as (tok & t1 & us & toks & alb & ids & t3 & -> & Hus).
  exists q, tok, t1, us, toks, alb, ids, t3.
  split; [done|]. split; [done|]. split; [done|].
  by eapply token_is_carried.
Qed.

Section CommitFacts.

Variable service : Service.
Variable walk : Walk.

(** A commit that fails without a quota-type message leaves the database
    as it was and hands over to the next batch. *)
Lemma commit_failure_skips_batch db h folder_path album_id batch rest
    h1 toks paths msg :
  upload_batch service h batch [] [] = (h1, Some (toks, paths)) ->
  toks <> [] ->
  svc_batch_create service h1 toks album_id = Err msg ->
  is_quota_error msg = false ->
  upload_in_batches service db h folder_path album_id (batch :: rest)
  = upload_in_batches service db (h1 ++ [CommitBatch toks album_id (Err msg)])
      folder_path album_id rest.
Proof.
  intros Hup Hne Hcommit Hq. simpl. unfold process_batch. rewrite Hup.
  destruct toks as [|tok toks]; [done|].
  unfold batch_create_media_items. by rewrite Hcommit, Hq.
Qed.

(** A call that returns [True] after some exchange attempted every file
    that was to be uploaded. *)
Lemma completed_attempts_all db h folder_path db' t :
  process_folder service walk db h folder_path = (true, db', h ++ t) ->
  t <> [] ->
  attempted t = files_to_upload walk db folder_path.
Proof.
  intros Hrun Hne. apply process_folder_run in Hrun.
  inversion Hrun as [Hp Hret Hdb Hh | | pre db1 t' db2 ret Hp Hready Hout Hret Hdb Hh].
  - rewrite <- (app_nil_r h) in Hh at 1. by apply app_inv_head in Hh.
  - apply app_inv_head in Hh as <-.
    destruct (album_ready_pre _ _ _ _ _ _ Hready) as [Hpre _].
    destruct (committed_of_pre pre t' Hpre) as (_ & -> & _).
    by destruct Hout as (_ & _ & Hatt & _).
Qed.

(** The commit calls of a call of [process_folder] carry the tokens of the
    uploads pending at that point. *)
Lemma process_folder_carries db h folder_path ret db' t :
  process_folder service walk db h folder_path = (ret, db', h ++ t) ->
  commits_carry_pending [] t.
Proof.
  intros Hrun. apply process_folder_run in Hrun.
  inversion Hrun as [Hp Hret Hdb Hh | msg Hp Hneed Hcreate Hret Hdb Hh
                    | pre db1 t' db2 ret' Hp Hready Hout Hret Hdb Hh].
  - rewrite <- (app_nil_r h) in Hh at 1. by apply app_inv_head in Hh as <-.
  - apply app_inv_head in Hh as <-. by simpl.
  - apply app_inv_head in Hh as <-.
    destruct Hout as (_ & [_ Hcarry] & _).
    apply commits_carry_pending_app. split.
    + destruct Hready as [(_ & -> & _) | (_ & album_id & _ & -> & _)]; by simpl.
    + by destruct Hready as [(_ & -> & _) | (_ & album_id & _ & -> & _)].
Qed.

End CommitFacts.

(* ===================================================================== *)
(** ** The folder row *)
(* ===================================================================== *)

Section FolderRow.

Variable service : Service.
Variable walk : Walk.

Lemma run_outcome_folders fs folder_path b db1 db2 t :
  run_outcome fs folder_path b db1 db2 t -> folders db2 = folders db1.
Proof. intros [-> _]. apply folders_mark_all. Qed.

Lemma folder_processed_row db folder_path :
  folder_processed db folder_path = true <->
  exists album_id, folders db !! as_posix folder_path = Some (album_id, "processed").
Proof.
  rewrite folder_processed_key. unfold processed_key.
  destruct (folders db !! as_posix folder_path) as [[a st]|]; split.
  - intros Hst%String.eqb_eq. subst. by exists a.
  - intros [a' [= _ ->]]. done.
  - done.
  - by intros [a' ?].
Qed.

(** Rows are never removed. *)
Lemma row_kept db h folder_path ret db' h' key :
  process_folder service walk db h folder_path = (ret, db', h') ->
  is_Some (folders db !! key) -> is_Some (folders db' !! key).
Proof.
  intros Hrun Hrow. apply process_folder_run in Hrun.
  destruct Hrun as [Hproc | msg Hproc Hneed Hcreate
                   | pre db1 t db2 ret Hproc Hready Hout]; [done | done |].
  assert (is_Some (folders db2 !! key)) as Hrow2.
  { rewrite (run_outcome_folders _ _ _ _ _ _ Hout).
    destruct Hready as [(_ & _ & ->) | (_ & album_id & _ & _ & ->)]; [done|].
    rewrite folders_set_folder_album. by case_decide. }
  destruct ret; [|done].
  rewrite folders_set_folder_status. case_decide; [|done].
  destruct Hrow2 as [[a st] ->]. done.
Qed.

(** After a call that returned [True], the row of the folder, when there
    is one, says [processed]. *)
Lemma completed_row db h folder_path db' h' :
  process_folder service walk db h folder_path = (true, db', h') ->
  is_Some (get_folder_resumption_data db' folder_path) ->
  folder_processed db' folder_path = true.
Proof.
  intros Hrun Hrow. apply process_folder_run in Hrun.
  inversion Hrun as [Hproc | | pre db1 t db2 ret Hproc Hready Hout Hret Hdb Hh];
    subst; [done|].
  apply folder_processed_row.
  unfold get_folder_resumption_data in Hrow.
  rewrite folders_set_folder_status in Hrow |- *.
  rewrite decide_True in Hrow |- * by done.
  destruct (folders db2 !! as_posix folder_path) as [[a st]|]; [by exists a|].
  by destruct Hrow.
Qed.

(** An album folder has a row after a call that returned [True]. *)
Lemma album_row db h folder_path db' h' :
  process_folder service walk db h folder_path = (true, db', h') ->
  is_album_folder (basename (as_posix folder_path)) = true ->
  is_Some (get_folder_resumption_data db' folder_path).
Proof.
  intros Hrun Halbum.
  assert (is_Some (get_folder_resumption_data db folder_path) \/
          needs_album db folder_path = true) as [Hrow | Hneed].
  { unfold needs_album, existing_album. rewrite Halbum.
    destruct (get_folder_resumption_data db folder_path) as [[a st]|]; eauto. }
  { by eapply row_kept. }
  apply process_folder_run in Hrun.
  inversion Hrun as [Hproc | | pre db1 t db2 ret Hproc Hready Hout Hret Hdb Hh];
    subst.
  - apply folder_processed_row in Hproc as [a Hrow].
    unfold get_folder_resumption_data. by rewrite Hrow.
  - destruct Hready as [(Hno & _) | (_ & album_id & _ & _ & ->)]; [congruence|].
    unfold get_folder_resumption_data.
    rewrite folders_set_folder_status, decide_True by done.
    rewrite (run_outcome_folders _ _ _ _ _ _ Hout).
    rewrite folders_set_folder_album, decide_True by done. done.
Qed.

(** A folder recorded as processed is skipped: [True], no exchange, no
    write. *)
Lemma processed_is_skipped db h folder_path :
  folder_processed db folder_path = true ->
  process_folder service walk db h folder_path = (true, db, h).
Proof. intros Hproc. by rewrite process_folder_unfold, Hproc. Qed.

(** A folder of loose media without a row never gets one. *)
Lemma loose_folder_gets_no_row db h folder_path ret db' h' :
  process_folder service walk db h folder_path = (ret, db', h') ->
  is_album_folder (basename (as_posix folder_path)) = false ->
  get_folder_resumption_data db folder_path = None ->
  get_folder_resumption_data db' folder_path = None.
Proof.
  intros Hrun Halbum Hrow. apply process_folder_run in Hrun.
  destruct Hrun as [Hproc | msg Hproc Hneed Hcreate
                   | pre db1 t db2 ret Hproc Hready Hout]; [done | done |].
  assert (folders db2 = folders db) as Hsame.
  { rewrite (run_outcome_folders _ _ _ _ _ _ Hout).
    destruct Hready as [(_ & _ & ->) | (Hneed & _)]; [done|].
    unfold needs_album in Hneed. by rewrite Halbum in Hneed. }
  unfold get_folder_resumption_data in *.
  destruct ret; [|by rewrite Hsame].
  rewrite folders_set_folder_status, decide_True by done.
  by rewrite Hsame, Hrow.
Qed.

End FolderRow.

(* ===================================================================== *)
(** ** Files left behind by a failed commit *)
(* ===================================================================== *)

(** A call that finds the folder not processed and returns [True] has
    attempted every file that was to upload. *)
Lemma unprocessed_run_attempts_all service walk db h folder_path db' t :
  process_folder service walk db h folder_path = (true, db', h ++ t) ->
  folder_processed db folder_path = false ->
  attempted t = files_to_upload walk db folder_path.
Proof.
  intros Hrun Hproc. apply process_folder_run in Hrun.
  inversion Hrun as [Hp | | pre db1 t' db2 ret Hp Hready Hout Hret Hdb Hh];
    [congruence|].
  apply app_inv_head in Hh as <-.
  destruct (album_ready_pre _ _ _ _ _ _ Hready) as [Hpre _].
  destruct (committed_of_pre pre t' Hpre) as (_ & -> & _).
  by destruct Hout as (_ & _ & Hatt & _).
Qed.

(** C1 (as amended): a file is recorded as uploaded only after its upload
    succeeded and the next commit call after it, which carries its token,
    succeeded; when a commit
    fails, none of the files uploaded for it is recorded as uploaded, and
    unless the message is quota-type the call does not stop there: it goes
    on until every file to upload has been attempted or a fatal exchange
    is met.  What a later call for the folder does with such files
    depends on the folder row it finds: when the folder is recorded as
    processed the call uploads nothing, and when it is not and the call
    returns [True], every enumerated file that is not recorded as
    uploaded has been attempted.  The call that left the files behind
    records the folder as processed when it returns [True] and the
    folder is an album folder or has a row. *)
Theorem C1_marked_only_after_commit
    service walk db h folder_path ret db' t :
  process_folder service walk db h folder_path = (ret, db', h ++ t) ->
  NoDup (List.map as_posix (gather_files walk (as_posix folder_path))) ->
  (forall p, is_file_uploaded db' p = true ->
             is_file_uploaded db p = true \/ committed_after_upload t p) /\
  (forall t1 us upload_tokens album_id error_msg t2,
      t = t1 ++ us ++ CommitBatch upload_tokens album_id (Err error_msg) :: t2 ->
      Forall (fun e => is_upload e = true) us ->
      (forall p token, In (UploadFile p (Ok token)) us ->
                       is_file_uploaded db' p = false) /\
      (is_quota_error error_msg = false -> ret = false -> t2 <> []) /\
      (ret = true -> attempted t = files_to_upload walk db folder_path)) /\
  (ret = true ->
   is_album_folder (basename (as_posix folder_path)) = true \/
   is_Some (get_folder_resumption_data db folder_path) ->
   folder_processed db' folder_path = true) /\
  (forall service2 walk2 db2 h2 ret2 db3 t2,
      process_folder service2 walk2 db2 h2 folder_path = (ret2, db3, h2 ++ t2) ->
      (folder_processed db2 folder_path = true ->
       ret2 = true /\ db3 = db2 /\ t2 = []) /\
      (folder_processed db2 folder_path = false -> ret2 = true ->
       forall p, In p (gather_files walk2 (as_posix folder_path)) ->
                 is_file_uploaded db2 p = false ->
                 In p (attempted t2))).
Proof.
  intros Hrun Hnd. split; [|split; [|split]].
  - intros p Hp.
    rewrite (uploaded_after service walk _ _ _ _ _ _ p Hrun) in Hp.
    apply orb_true_iff in Hp as [Hp | Hp]; [by left | right].
    apply bool_decide_eq_true_1, list_elem_of_fmap in Hp as (q & Heq & Hq).
    apply committed_of_inv in Hq
      as (q' & tok & t1 & us & toks & alb & ids & t3 & Hkey & Ht & Hus);
      [|by apply (process_folder_carries service walk _ _ _ _ _ _ Hrun)].
    exists q', tok, t1, us, toks, alb, ids, t3. split; [congruence | done].
  - intros t1 us toks alb msg t2 -> Hus. split; [|split].
    + intros p token Hin.
      pose proof (upload_In_attempted us p _ Hin) as Hp.
      pose proof (attempted_keys_NoDup service walk _ _ _ _ _ _ Hrun Hnd)
        as Hkeys.
      rewrite (uploaded_after service walk _ _ _ _ _ _ p Hrun).
      rewrite (attempted_fresh service walk _ _ _ _ _ _ p Hrun).
      2:{ rewrite !attempted_app, !elem_of_app. by right; left. }
      simpl. apply bool_decide_eq_false_2.
      rewrite committed_of_failed_commit by done.
      rewrite !attempted_app, !map_app in Hkeys. simpl in Hkeys.
      apply NoDup_app in Hkeys as (_ & Hdisj1 & Hkeys).
      apply NoDup_app in Hkeys as (_ & Hdisj2 & _).
      rewrite map_app, elem_of_app.
      intros [Hin0 | Hin0];
        apply list_elem_of_fmap in Hin0 as (q & Heq & Hq0);
        apply committed_sub_attempted in Hq0.
      * apply (Hdisj1 (as_posix q)); [by apply list_elem_of_fmap_2|].
        rewrite <- Heq. apply elem_of_app. left. by apply list_elem_of_fmap_2.
      * apply (Hdisj2 (as_posix p)); [by apply list_elem_of_fmap_2|].
        rewrite Heq. by apply list_elem_of_fmap_2.
    + intros Hq -> ->.
      replace (h ++ t1 ++ us ++ [CommitBatch toks alb (Err msg)])
        with (h ++ (t1 ++ us) ++ [CommitBatch toks alb (Err msg)])
        in Hrun by by rewrite <- !app_assoc.
      apply not_fatal_not_last in Hrun. simpl in Hrun. congruence.
    + intros ->.
      apply (completed_attempts_all service walk _ _ _ _ _ Hrun).
      by destruct t1, us.
  - intros -> Hcase.
    apply (completed_row service walk db h _ db' _ Hrun).
    destruct Hcase as [Halbum | Hrow].
    + by apply (album_row service walk db h _ db' _ Hrun).
    + by apply (row_kept service walk db h folder_path true db' (h ++ t)).
  - intros service2 walk2 db2 h2 ret2 db3 t2 Hrun2. split.
    + intros Hproc.
      rewrite (processed_is_skipped service2 walk2 db2 h2 _ Hproc) in Hrun2.
      injection Hrun2 as <- <- Hh.
      rewrite <- (app_nil_r h2) in Hh at 1. by apply app_inv_head in Hh.
    + intros Hproc -> p Hp Hnew.
      rewrite (unprocessed_run_attempts_all service2 walk2 _ _ _ _ _ Hrun2 Hproc).
      unfold files_to_upload. apply filter_In. by rewrite Hnew.
Qed.

Lemma C1_witness :
  process_folder flaky_commit_service walk_one empty_db [] "/t/A"
  = (true,
     snd (fst (process_folder flaky_commit_service walk_one empty_db [] "/t/A")),
     [] ++ trace_one_failed) /\
  NoDup (List.map as_posix (gather_files walk_one (as_posix "/t/A"))) /\
  is_file_uploaded
    (snd (fst (process_folder flaky_commit_service walk_one empty_db [] "/t/A")))
    "/t/A/a.jpg" = false /\
  attempted trace_one_failed = files_to_upload walk_one empty_db "/t/A" /\
  folder_processed
    (snd (fst (process_folder flaky_commit_service walk_one empty_db [] "/t/A")))
    "/t/A" = true.
Proof.
  assert (process_folder flaky_commit_service walk_one empty_db [] "/t/A"
          = (true,
             snd (fst (process_folder flaky_commit_service walk_one empty_db
                         [] "/t/A")),
             [] ++ trace_one_failed)) as Hrun by (vm_compute; reflexivity).
  assert (NoDup (List.map as_posix (gather_files walk_one (as_posix "/t/A"))))
    as Hnd by (apply (bool_decide_unpack _); vm_compute; exact I).
  destruct (C1_marked_only_after_commit _ _ _ _ _ _ _ _ Hrun Hnd)
    as (_ & Hfail & Hrow & _).
  destruct (Hfail [CreateAlbum "A" (Ok (Some "album-A"))]
                  [UploadFile "/t/A/a.jpg" (Ok "token:/t/A/a.jpg")]
                  ["token:/t/A/a.jpg"] (Some "album-A") msg_500 []
                  eq_refl ltac:(by repeat constructor))
    as (Hkept & _ & Hall).
  refine (conj Hrun (conj Hnd (conj _ (conj (Hall eq_refl)
            (Hrow eq_refl (or_introl eq_refl)))))).
  apply (Hkept "/t/A/a.jpg" "token:/t/A/a.jpg"). simpl. auto.
Defined.

(** C1 with its last clause does not hold: after a commit that failed
    without a quota-type message the file is not recorded as uploaded, the folder
    is recorded as processed all the same, and the next call for the
    folder does not upload the file again although the commit would now
    go through. *)
Lemma C1_not_retried_on_next_run :
  process_folder flaky_commit_service walk_one empty_db [] "/t/A"
  = (true,
     snd (fst (process_folder flaky_commit_service walk_one empty_db [] "/t/A")),
     trace_one_failed) /\
  is_quota_error msg_500 = false /\
  is_file_uploaded
    (snd (fst (process_folder flaky_commit_service walk_one empty_db [] "/t/A")))
    "/t/A/a.jpg" = false /\
  folder_processed
    (snd (fst (process_folder flaky_commit_service walk_one empty_db [] "/t/A")))
    "/t/A" = true /\
  svc_batch_create flaky_commit_service trace_one_failed
    ["token:/t/A/a.jpg"] (Some "album-A") = Ok ["token:/t/A/a.jpg"] /\
  process_folder flaky_commit_service walk_one
    (snd (fst (process_folder flaky_commit_service walk_one empty_db [] "/t/A")))
    trace_one_failed "/t/A"
  = (true,
     snd (fst (process_folder flaky_commit_service walk_one empty_db [] "/t/A")),
     trace_one_failed).
Proof. vm_compute. repeat split; reflexivity. Qed.

(** C2 (as amended): when a call returns [True] for an album folder, or
    for a folder that had a row in the store, the folder is recorded as
    processed, and the next call returns [True] again, exchanges nothing
    with the remote service and leaves the store as it is. *)
Theorem C2_second_call_is_skipped
    service walk db h folder_path db' h' :
  process_folder service walk db h folder_path = (true, db', h') ->
  is_album_folder (basename (as_posix folder_path)) = true \/
  is_Some (get_folder_resumption_data db folder_path) ->
  folder_processed db' folder_path = true /\
  process_folder service walk db' h' folder_path = (true, db', h').
Proof.
  intros Hrun Hcase.
  assert (folder_processed db' folder_path = true) as Hproc.
  { apply (completed_row service walk db h folder_path db' h' Hrun).
    destruct Hcase as [Halbum | Hrow].
    - by apply (album_row service walk db h folder_path db' h').
    - by apply (row_kept service walk db h folder_path true db' h'). }
  split; [done | by apply processed_is_skipped].
Qed.

Lemma C2_witness :
  process_folder ok_service walk_four empty_db [] "/t/A"
  = (true, snd (fst (process_folder ok_service walk_four empty_db [] "/t/A")),
     snd (process_folder ok_service walk_four empty_db [] "/t/A")) /\
  (is_album_folder (basename (as_posix "/t/A")) = true \/
   is_Some (get_folder_resumption_data empty_db "/t/A")) /\
  folder_processed
    (snd (fst (process_folder ok_service walk_four empty_db [] "/t/A"))) "/t/A"
  = true /\
  process_folder ok_service walk_four
    (snd (fst (process_folder ok_service walk_four empty_db [] "/t/A")))
    (snd (process_folder ok_service walk_four empty_db [] "/t/A")) "/t/A"
  = (true, snd (fst (process_folder ok_service walk_four empty_db [] "/t/A")),
     snd (process_folder ok_service walk_four empty_db [] "/t/A")).
Proof.
  assert (process_folder ok_service walk_four empty_db [] "/t/A"
          = (true,
             snd (fst (process_folder ok_service walk_four empty_db [] "/t/A")),
             snd (process_folder ok_service walk_four empty_db [] "/t/A")))
    as Hrun by (vm_compute; reflexivity).
  assert (is_album_folder (basename (as_posix "/t/A")) = true \/
          is_Some (get_folder_resumption_data empty_db "/t/A")) as Hcase
    by (left; vm_compute; reflexivity).
  exact (conj Hrun (conj Hcase (C2_second_call_is_skipped _ _ _ _ _ _ _ Hrun Hcase))).
Defined.

(** C2 without a restriction on the folder does not hold, in two ways.  A
    first call may
    return [False] (here the album creation is refused).  And for a folder
    of loose media, which never gets a row, a first call that returned
    [True] after skipping a bad file is followed by a second call that
    uploads again. *)
Lemma C2_not_for_every_folder :
  fst (fst (process_folder no_album_service walk_four empty_db [] "/t/A"))
  = false /\
  process_folder bad_file_service walk_loose empty_db [] "/t/Photos from 2019"
  = (true, empty_db,
     [UploadFile "/t/Photos from 2019/p.jpg" (Err msg_bad_file)]) /\
  process_folder bad_file_service walk_loose empty_db
    [UploadFile "/t/Photos from 2019/p.jpg" (Err msg_bad_file)]
    "/t/Photos from 2019"
  = (true, empty_db,
     [UploadFile "/t/Photos from 2019/p.jpg" (Err msg_bad_file);
      UploadFile "/t/Photos from 2019/p.jpg" (Err msg_bad_file)]).
Proof. vm_compute. repeat split; reflexivity. Qed.

(** C5: the code at a folder of loose media on a fresh store.  The call
    uploads and commits the file and returns [True], but the folder has no
    row afterwards, neither pending nor processed: [set_folder_status] is
    an update of a row that was never inserted. *)
Theorem C5_loose_folder_is_never_recorded :
  process_folder ok_service walk_loose empty_db [] "/t/Photos from 2019"
  = (true,
     mark_file_uploaded empty_db "/t/Photos from 2019/p.jpg"
                        "/t/Photos from 2019",
     [UploadFile "/t/Photos from 2019/p.jpg"
                 (Ok "token:/t/Photos from 2019/p.jpg");
      CommitBatch ["token:/t/Photos from 2019/p.jpg"] None
                  (Ok ["token:/t/Photos from 2019/p.jpg"])]) /\
  get_folder_resumption_data
    (mark_file_uploaded empty_db "/t/Photos from 2019/p.jpg"
                        "/t/Photos from 2019")
    "/t/Photos from 2019" = None /\
  folder_processed
    (mark_file_uploaded empty_db "/t/Photos from 2019/p.jpg"
                        "/t/Photos from 2019")
    "/t/Photos from 2019" = false.
Proof. vm_compute. repeat split; reflexivity. Qed.

(* ===================================================================== *)
(** ** Folders without media files *)
(* ===================================================================== *)

(** C6 (as amended): for a folder without matching media files a call
    makes no upload and no commit.  When the folder is not yet processed
    and needs an album, the call makes the one album creation call, and
    returns [False] when that fails; otherwise it makes no remote call at
    all.  In every other case it returns [True], and the folder is
    recorded as processed provided it is an album folder or has a row. *)
Theorem C6_folder_without_media
    service walk db h folder_path ret db' h' :
  gather_files walk (as_posix folder_path) = [] ->
  process_folder service walk db h folder_path = (ret, db', h') ->
  (folder_processed db folder_path = false ->
   needs_album db folder_path = true ->
   h' = h ++ [CreateAlbum (basename (as_posix folder_path))
                (svc_create_album service h (basename (as_posix folder_path)))] /\
   match svc_create_album service h (basename (as_posix folder_path)) with
   | Ok album_id =>
       ret = true /\
       db' = set_folder_status (set_folder_album db folder_path album_id)
               folder_path "processed"
   | Err _ => ret = false /\ db' = db
   end) /\
  (folder_processed db folder_path = true \/ needs_album db folder_path = false ->
   ret = true /\ h' = h /\
   db' = if folder_processed db folder_path then db
         else set_folder_status db folder_path "processed") /\
  (ret = true ->
   is_album_folder (basename (as_posix folder_path)) = true \/
   is_Some (get_folder_resumption_data db' folder_path) ->
   folder_processed db' folder_path = true).
Proof.
  intros Hnone Hrun.
  split; [|split];
    [| | intros -> Hrow;
         apply (completed_row service walk db h folder_path db' h' Hrun);
         destruct Hrow as [Halbum | Hrow]; [|done];
         by apply (album_row service walk db h folder_path db' h')].
  - intros Hproc Hneed. revert Hrun.
    rewrite process_folder_unfold, Hproc. unfold decide_album.
    fold (needs_album db folder_path). rewrite Hneed. unfold create_album.
    destruct (svc_create_album service h (basename (as_posix folder_path)))
      as [album_id|msg].
    + unfold files_to_upload. rewrite Hnone. simpl.
      rewrite set_folder_album_posix. by intros [= <- <- <-].
    + by destruct (is_quota_error msg); intros [= <- <- <-].
  - intros Hcase. revert Hrun. rewrite process_folder_unfold.
    destruct (folder_processed db folder_path) eqn:Hproc.
    + by intros [= <- <- <-].
    + destruct Hcase as [|Hneed]; [done|].
      unfold decide_album. fold (needs_album db folder_path). rewrite Hneed.
      unfold files_to_upload. rewrite Hnone. simpl. by intros [= <- <- <-].
Qed.

Lemma C6_witness :
  gather_files walk_empty (as_posix "/t/Empty") = [] /\
  process_folder ok_service walk_empty empty_db [] "/t/Empty"
  = (true,
     snd (fst (process_folder ok_service walk_empty empty_db [] "/t/Empty")),
     [CreateAlbum "Empty" (Ok (Some "album-Empty"))]) /\
  folder_processed
    (snd (fst (process_folder ok_service walk_empty empty_db [] "/t/Empty")))
    "/t/Empty" = true.
Proof.
  assert (gather_files walk_empty (as_posix "/t/Empty") = []) as Hnone
    by (vm_compute; reflexivity).
  assert (process_folder ok_service walk_empty empty_db [] "/t/Empty"
          = (true,
             snd (fst (process_folder ok_service walk_empty empty_db []
                         "/t/Empty")),
             [CreateAlbum "Empty" (Ok (Some "album-Empty"))])) as Hrun
    by (vm_compute; reflexivity).
  destruct (C6_folder_without_media _ _ _ _ _ _ _ _ Hnone Hrun)
    as (_ & _ & Hproc).
  refine (conj Hnone (conj Hrun (Hproc eq_refl _))).
  left. vm_compute. reflexivity.
Defined.

(** C6 with zero remote calls for every folder does not hold: an album
    folder without media files
    costs one remote call, the album creation, and when that call fails
    the folder is not marked and [False] is returned. *)
Lemma C6_empty_album_folder_calls_remote :
  gather_files walk_empty (as_posix "/t/Empty") = [] /\
  process_folder ok_service walk_empty empty_db [] "/t/Empty"
  = (true,
     set_folder_status
       (set_folder_album empty_db "/t/Empty" (Some "album-Empty"))
       "/t/Empty" "processed",
     [CreateAlbum "Empty" (Ok (Some "album-Empty"))]) /\
  process_folder no_album_service walk_empty empty_db [] "/t/Empty"
  = (false, empty_db, [CreateAlbum "Empty" (Err msg_403)]).
Proof. vm_compute. repeat split; reflexivity. Qed.

(* ===================================================================== *)
(** ** Enumeration *)
(* ===================================================================== *)

Lemma is_image_iff name :
  is_image name = true <-> In (Py.lower (splitext_ext name)) image_extensions.
Proof.
  unfold is_image. rewrite existsb_exists. split.
  - intros (ext & Hin & Heq). apply String.eqb_eq in Heq. by subst.
  - intros Hin. eexists. split; [exact Hin | apply String.eqb_refl].
Qed.

Lemma gather_files_iff walk folder_path f :
  In f (gather_files walk folder_path) <->
  exists root names name,
    In (root, names) (walk folder_path) /\ In name names /\
    In (Py.lower (splitext_ext name)) image_extensions /\
    f = join root name.
Proof.
  unfold gather_files. rewrite in_flat_map. split.
  - intros ([root names] & Hwalk & Hf).
    apply in_map_iff in Hf as (name & <- & Hname).
    apply filter_In in Hname as [Hname Himg].
    exists root, names, name. by rewrite <- is_image_iff.
  - intros (root & names & name & Hwalk & Hname & Hext & ->).
    exists (root, names). split; [done|].
    apply in_map, filter_In. by rewrite is_image_iff.
Qed.

(** C4 (as amended): enumeration selects exactly the files whose
    lower-cased extension is one of the image types [.jpg], [.jpeg],
    [.png], [.gif], [.bmp], [.webp]; [.mp4] is not among them.  For the
    folder with [f1.jpg], [f2.png] and [f3.mp4], on a fresh store and with
    every remote call succeeding, the call makes one album creation call,
    one upload call for each of [f1.jpg] and [f2.png] and one commit call
    with their two tokens; these two files are then recorded as uploaded,
    [f3.mp4] is not, and the folder is recorded as processed. *)
Theorem C4_enumeration_and_scenario :
  (forall walk folder_path f,
      In f (gather_files walk folder_path) <->
      exists root names name,
        In (root, names) (walk folder_path) /\ In name names /\
        In (Py.lower (splitext_ext name)) image_extensions /\
        f = join root name) /\
  (Py.lower (splitext_ext "f3.mp4") = ".mp4" /\ ~ In ".mp4" image_extensions) /\
  (forall album_id token_of ids,
      let db' :=
        set_folder_status
          (mark_file_uploaded
             (mark_file_uploaded (set_folder_album empty_db "/t/A" album_id)
                                 "/t/A/f1.jpg" "/t/A")
             "/t/A/f2.png" "/t/A")
          "/t/A" "processed" in
      process_folder (succeeding_service album_id token_of ids) walk_scenario
        empty_db [] "/t/A"
      = (true, db',
         [CreateAlbum "A" (Ok album_id);
          UploadFile "/t/A/f1.jpg" (Ok (token_of "/t/A/f1.jpg"));
          UploadFile "/t/A/f2.png" (Ok (token_of "/t/A/f2.png"));
          CommitBatch [token_of "/t/A/f1.jpg"; token_of "/t/A/f2.png"]
                      album_id (Ok ids)]) /\
      is_file_uploaded db' "/t/A/f1.jpg" = true /\
      is_file_uploaded db' "/t/A/f2.png" = true /\
      is_file_uploaded db' "/t/A/f3.mp4" = false /\
      folder_processed db' "/t/A" = true).
Proof.
  split; [exact gather_files_iff|]. split.
  - split; [reflexivity|]. simpl. intros Hin.
    repeat (destruct Hin as [Hin | Hin]; [discriminate Hin|]). done.
  - intros album_id token_of ids. vm_compute. repeat split; reflexivity.
Qed.

(** C4 with video types does not hold on its own scenario: [f3.mp4] is not
    selected, so it is neither uploaded nor recorded, and the commit call
    carries two tokens, not three. *)
Lemma C4_mp4_is_not_selected :
  gather_files walk_scenario (as_posix "/t/A") = ["/t/A/f1.jpg"; "/t/A/f2.png"] /\
  snd (process_folder ok_service walk_scenario empty_db [] "/t/A")
  = [CreateAlbum "A" (Ok (Some "album-A"));
     UploadFile "/t/A/f1.jpg" (Ok "token:/t/A/f1.jpg");
     UploadFile "/t/A/f2.png" (Ok "token:/t/A/f2.png");
     CommitBatch ["token:/t/A/f1.jpg"; "token:/t/A/f2.png"] (Some "album-A")
                 (Ok ["token:/t/A/f1.jpg"; "token:/t/A/f2.png"])] /\
  is_file_uploaded
    (snd (fst (process_folder ok_service walk_scenario empty_db [] "/t/A")))
    "/t/A/f3.mp4" = false.
Proof. vm_compute. repeat split; reflexivity. Qed.

(* ===================================================================== *)
(** ** The session driver *)
(* ===================================================================== *)

Section DriverFacts.

Variable service : Service.
Variable walk : Walk.

(** The loop, started with the queue equal to the copy it iterates over:
    it never fails on [pop(0)], works through a prefix [done] of the
    queue, and leaves the rest in the queue. *)
Lemma transfer_loop_spec total copy :
  forall i app,
    selected_folders app = copy ->
    exists app' done rest db1 h1,
      transfer_loop service walk total i copy app = Some app' /\
      copy = done ++ rest /\
      transferred service walk (app_db app) (app_history app) done db1 h1 /\
      stopped_at service walk db1 h1 rest (app_db app') (app_history app') /\
      selected_folders app' = rest /\
      calls app' = calls app ++ calls_of_run done rest /\
      shown app' = shown app
                   ++ progress_reports total i (length (calls_of_run done rest))
                   ++ paused_warning rest.
Proof.
  induction copy as [|folder copy IH]; intros i app Hqueue.
  - exists app, [], [], (app_db app), (app_history app). simpl.
    rewrite !app_nil_r. repeat split; try done. constructor.
  - simpl.
    destruct (process_folder service walk (app_db app) (app_history app) folder)
      as [[success db1] h1] eqn:Hcall.
    destruct success.
    + rewrite Hqueue. simpl.
      destruct (IH (S i)
                  (mkApp db1 h1 copy (shown app ++ [Progress (i + 1) total])
                         (calls app ++ [(folder, true)])) eq_refl)
        as (app' & done & rest & db2 & h2 & -> & -> & Hdone & Hstop & Hrest
            & Hcalls & Hshown).
      exists app', (folder :: done), rest, db2, h2.
      split; [done|]. split; [done|].
      split; [by econstructor|]. split; [done|]. split; [done|].
      simpl in Hcalls, Hshown. rewrite Hcalls, Hshown, <- !app_assoc.
      split; reflexivity.
    + eexists _, [], (folder :: copy), (app_db app), (app_history app). simpl.
      split; [done|]. split; [done|]. split; [constructor|].
      split; [done|]. split; [done|].
      by rewrite <- app_assoc.
Qed.

Lemma progress_kept_refl db : progress_kept db db.
Proof. split; eauto. Qed.

Lemma progress_kept_trans db1 db2 db3 :
  progress_kept db1 db2 -> progress_kept db2 db3 -> progress_kept db1 db3.
Proof.
  intros [Hf12 Hd12] [Hf23 Hd23]. split.
  - intros key f Hrow. by apply Hf23, Hf12.
  - intros key a Hrow. apply Hd12 in Hrow as [a' Hrow]. by apply Hd23 in Hrow.
Qed.

Lemma progress_kept_set_folder_album db p a :
  progress_kept db (set_folder_album db p a).
Proof.
  split.
  - intros key f Hrow. by rewrite files_set_folder_album.
  - intros key a0 Hrow. rewrite folders_set_folder_album.
    case_decide; rewrite Hrow; eauto.
Qed.

Lemma progress_kept_set_processed db p :
  progress_kept db (set_folder_status db p "processed").
Proof.
  split.
  - intros key f Hrow. by rewrite files_set_folder_status.
  - intros key a0 Hrow. rewrite folders_set_folder_status.
    case_decide; rewrite Hrow; eauto.
Qed.

Lemma progress_kept_mark db p f :
  progress_kept db (mark_file_uploaded db p f).
Proof.
  split.
  - intros key f0 Hrow. rewrite files_mark_file_uploaded.
    case_decide; by rewrite Hrow.
  - intros key a0 Hrow. rewrite folders_mark_file_uploaded. eauto.
Qed.

Lemma progress_kept_mark_all db ps f : progress_kept db (mark_all db ps f).
Proof.
  revert db. induction ps as [|p ps IH]; intros db; [apply progress_kept_refl|].
  rewrite mark_all_cons.
  eapply progress_kept_trans; [apply progress_kept_mark | apply IH].
Qed.

Lemma progress_kept_process_folder db h folder_path ret db' h' :
  process_folder service walk db h folder_path = (ret, db', h') ->
  progress_kept db db'.
Proof.
  intros Hrun. apply process_folder_run in Hrun.
  destruct Hrun as [Hproc | msg Hproc Hneed Hcreate
                   | pre db1 t db2 ret Hproc Hready Hout];
    [apply progress_kept_refl | apply progress_kept_refl |].
  assert (progress_kept db db1) as H1.
  { destruct Hready as [(_ & _ & ->) | (_ & album_id & _ & _ & ->)];
      [apply progress_kept_refl | apply progress_kept_set_folder_album]. }
  assert (progress_kept db1 db2) as H2.
  { destruct Hout as [-> _]. apply progress_kept_mark_all. }
  destruct ret.
  - eapply progress_kept_trans; [exact H1|].
    eapply progress_kept_trans; [exact H2 | apply progress_kept_set_processed].
  - by eapply progress_kept_trans.
Qed.

Lemma progress_kept_transfer_loop total copy :
  forall i app app',
    transfer_loop service walk total i copy app = Some app' ->
    progress_kept (app_db app) (app_db app').
Proof.
  induction copy as [|folder copy IH]; intros i app app' Hloop.
  - injection Hloop as <-. apply progress_kept_refl.
  - simpl in Hloop.
    destruct (process_folder service walk (app_db app) (app_history app) folder)
      as [[success db1] h1] eqn:Hrun.
    apply progress_kept_process_folder in Hrun.
    destruct success.
    + destruct (pop0 (selected_folders app)) as [queue|]; [|done].
      apply IH in Hloop. by eapply progress_kept_trans.
    + by injection Hloop as <-.
Qed.

Lemma progress_kept_start_transfer authenticated app app' :
  start_transfer service walk authenticated app = Some app' ->
  progress_kept (app_db app) (app_db app').
Proof.
  unfold start_transfer.
  destruct (selected_folders app) as [|folder queue] eqn:Hqueue.
  { intros [= <-]. apply progress_kept_refl. }
  destruct authenticated; [|intros [= <-]; apply progress_kept_refl].
  destruct (transfer_loop _ _ _ _ _ _) as [app1|] eqn:Hloop; [|done].
  intros [= <-]. simpl. by eapply progress_kept_transfer_loop.
Qed.

End DriverFacts.

(** C8: with a non-empty queue and a service at hand, the driver works
    through the queue from its head.  The queue splits into [done] and
    [rest]: the algorithm ran on the folders of [done] in order, each call
    from the store and the history the call before it left, and each
    returned [True]; if [rest] is not empty the algorithm ran once more,
    on the head of [rest], and returned [False]; the store and the history
    of the driver afterwards are those this last call left, so no folder
    after it was processed.  Each call is followed by one progress report;
    the queue afterwards is [rest], so the folder that returned [False]
    is still first. *)
Theorem C8_driver_is_head_first service walk app :
  selected_folders app <> [] ->
  exists app' done rest db1 h1,
    start_transfer service walk true app = Some app' /\
    selected_folders app = done ++ rest /\
    transferred service walk (app_db app) (app_history app) done db1 h1 /\
    stopped_at service walk db1 h1 rest (app_db app') (app_history app') /\
    selected_folders app' = rest /\
    calls app' = calls app ++ calls_of_run done rest /\
    shown app' =
      shown app
      ++ progress_reports (length (selected_folders app)) 0
                          (length (calls_of_run done rest))
      ++ paused_warning rest ++ [ProgressReset; InfoDone].
Proof.
  intros Hne. unfold start_transfer.
  destruct (selected_folders app) as [|folder queue] eqn:Hqueue; [done|].
  destruct (transfer_loop_spec service walk (length (folder :: queue))
              (folder :: queue) 0 app Hqueue)
    as (app' & done & rest & db1 & h1 & -> & Hsplit & Hdone & Hstop & Hrest
        & Hcalls & Hshown).
  eexists _, done, rest, db1, h1. split; [done|]. simpl.
  rewrite Hshown, <- !app_assoc. done.
Qed.

(** The driver without work to do: an empty queue, or no service, means
    no call of the algorithm and an untouched queue and store. *)
Lemma start_transfer_idle service walk authenticated app :
  selected_folders app = [] \/ authenticated = false ->
  exists app',
    start_transfer service walk authenticated app = Some app' /\
    app_db app' = app_db app /\ app_history app' = app_history app /\
    selected_folders app' = selected_folders app /\ calls app' = calls app.
Proof.
  intros Hidle. unfold start_transfer.
  destruct (selected_folders app) as [|folder queue] eqn:Hqueue.
  - eexists. split; [done|]. by simpl.
  - destruct Hidle as [Hempty | ->]; [done|].
    eexists. split; [done|]. by simpl.
Qed.

(** Three folders in the queue, the second one fails: the first is
    removed, the second and third stay, two calls and two reports. *)
Example start_transfer_two :
  (fun app' => (selected_folders app', calls app', shown app'))
    <$> start_transfer corrupt_429_service walk_two true app_two
  = Some (["/t/B"; "/t/C"],
          [("/t/A", true); ("/t/B", false)],
          [Progress 1 3; Progress 2 3; WarnTransferPaused;
           ProgressReset; InfoDone]).
Proof. vm_compute. reflexivity. Qed.

Lemma C8_witness :
  selected_folders app_two <> [] /\
  exists app' done rest db1 h1,
    start_transfer corrupt_429_service walk_two true app_two = Some app' /\
    selected_folders app_two = done ++ rest /\
    transferred corrupt_429_service walk_two
                (app_db app_two) (app_history app_two) done db1 h1 /\
    stopped_at corrupt_429_service walk_two db1 h1 rest
               (app_db app') (app_history app') /\
    selected_folders app' = rest /\
    calls app' = calls app_two ++ calls_of_run done rest /\
    shown app' =
      shown app_two
      ++ progress_reports (length (selected_folders app_two)) 0
                          (length (calls_of_run done rest))
      ++ paused_warning rest ++ [ProgressReset; InfoDone].
Proof.
  assert (selected_folders app_two <> []) as Hne by (simpl; discriminate).
  exact (conj Hne
           (C8_driver_is_head_first corrupt_429_service walk_two app_two Hne)).
Defined.

(* ===================================================================== *)
(** ** Recorded progress is never lost *)
(* ===================================================================== *)

Lemma progress_kept_migrate data :
  forall db, progress_kept db (migrate_json_to_db db data).
Proof.
  induction data as [|[folder_path status] data IH]; intros db.
  - apply progress_kept_refl.
  - unfold migrate_json_to_db. simpl. fold (migrate_json_to_db).
    destruct (String.eqb status "processed").
    + eapply progress_kept_trans; [apply progress_kept_set_processed | apply IH].
    + apply IH.
Qed.

Lemma progress_kept_step db db' : engine_step db db' -> progress_kept db db'.
Proof.
  intros [service walk db0 h folder_path
         | service walk authenticated app app' Hrun
         | db0 data | db0 p a | db0 p f | db0 p].
  - destruct (process_folder service walk db0 h folder_path)
      as [[ret db1] h1] eqn:Hrun.
    by apply progress_kept_process_folder in Hrun.
  - by apply progress_kept_start_transfer in Hrun.
  - apply progress_kept_migrate.
  - apply progress_kept_set_folder_album.
  - apply progress_kept_mark.
  - apply progress_kept_set_processed.
Qed.

(** C9: along any sequence of engine operations, whatever the remote
    service answers, a file row recorded as uploaded stays in the store
    as it is, and a folder row recorded as processed stays in the store
    and stays processed. *)
Theorem C9_recorded_progress_is_kept db db' :
  rtc engine_step db db' -> progress_kept db db'.
Proof.
  induction 1 as [db | db1 db2 db3 Hstep _ IH].
  - apply progress_kept_refl.
  - eapply progress_kept_trans; [by apply progress_kept_step | exact IH].
Qed.

Lemma C9_witness :
  rtc engine_step db_after_A db_after_import /\
  files db_after_A !! "/t/A/f1.jpg" = Some ("/t/A", "uploaded") /\
  folders db_after_A !! "/t/A" = Some (Some "album-A", "processed") /\
  files db_after_import !! "/t/A/f1.jpg" = Some ("/t/A", "uploaded") /\
  exists album_id,
    folders db_after_import !! "/t/A" = Some (album_id, "processed").
Proof.
  assert (rtc engine_step db_after_A db_after_import) as Hsteps.
  { eapply rtc_l; [apply step_process_folder|].
    eapply rtc_l; [apply step_migrate|]. apply rtc_refl. }
  assert (files db_after_A !! "/t/A/f1.jpg" = Some ("/t/A", "uploaded")) as Hfile
    by (vm_compute; reflexivity).
  assert (folders db_after_A !! "/t/A" = Some (Some "album-A", "processed"))
    as Hfolder by (vm_compute; reflexivity).
  destruct (C9_recorded_progress_is_kept _ _ Hsteps) as [Hfiles Hfolders].
  exact (conj Hsteps (conj Hfile (conj Hfolder
           (conj (Hfiles _ _ Hfile) (Hfolders _ _ Hfolder))))).
Defined.

(* ===================================================================== *)
(** ** Keys of the store *)
(* ===================================================================== *)

(** The components of a joined list are the components that are kept. *)
Lemma parts_of_join_any parts :
  Forall (fun x => no_slash x = true) parts ->
  parts_of (Py.join_slash parts) = List.filter keep_part parts.
Proof.
  intros Hn. unfold parts_of. destruct parts as [|x parts]; [reflexivity|].
  by rewrite split_join.
Qed.

(** A joined list whose first component is not empty does not start with
    a slash. *)
Lemma join_first parts :
  Forall (fun x => no_slash x = true) parts ->
  head parts <> Some "" ->
  (parts = [] /\ Py.join_slash parts = "") \/
  exists c t, Py.join_slash parts = String c t /\ Ascii.eqb c "/" = false.
Proof.
  intros Hn Hhead. destruct parts as [|x parts]; [by left|]. right.
  apply Forall_cons in Hn as [Hx _].
  destruct x as [|c x]; [done|].
  simpl in Hx. apply andb_true_iff in Hx as [Hc _].
  apply negb_true_iff in Hc.
  destruct parts as [|y parts]; simpl; eauto.
Qed.

(** The normal form of a path spelled as a root followed by components
    that are joined by single slashes. *)
Lemma as_posix_spelled root parts :
  root = "" \/ root = "/" \/ root = "//" ->
  Forall (fun x => no_slash x = true) parts ->
  head parts <> Some "" ->
  as_posix (root +:+ Py.join_slash parts)
  = match root, List.filter keep_part parts with
    | EmptyString, [] => "."
    | _, kept => root +:+ Py.join_slash kept
    end.
Proof.
  intros Hroot Hn Hhead.
  pose proof (parts_of_join_any parts Hn) as Hparts.
  destruct (join_first parts Hn Hhead) as [[-> Hj] | (c & t & Hj & Hc)].
  - by destruct Hroot as [-> | [-> | ->]].
  - destruct (splitroot_head c t Hc) as (H0 & H1 & H2).
    unfold as_posix.
    destruct Hroot as [-> | [-> | ->]]; rewrite Hj.
    + change ("" +:+ String c t) with (String c t).
      rewrite H0, <- Hj. fold (parts_of (Py.join_slash parts)).
      rewrite Hparts. by destruct (List.filter keep_part parts).
    + rewrite H1, <- Hj. fold (parts_of (Py.join_slash parts)).
      by rewrite Hparts.
    + rewrite H2, <- Hj. fold (parts_of (Py.join_slash parts)).
      by rewrite Hparts.
Qed.

(** Three slashes or more at the front count as one. *)
Lemma as_posix_many_slashes parts :
  Forall (fun x => no_slash x = true) parts ->
  as_posix ("///" +:+ Py.join_slash parts)
  = "/" +:+ Py.join_slash (List.filter keep_part parts).
Proof.
  intros Hn. rewrite <- (parts_of_join_any parts Hn).
  unfold as_posix, parts_of. reflexivity.
Qed.

Lemma kept_head ps :
  Forall (fun x => keep_part x = true) ps -> head ps <> Some "".
Proof. intros Hk. destruct ps as [|x ps]; [done|]. intros [= ->]. by inversion Hk. Qed.

(** Components that are kept are kept as they are: lists of components
    that differ, be it in the case of one letter, give normal forms that
    differ. *)
Lemma as_posix_kept_inj root ps qs :
  root = "" \/ root = "/" \/ root = "//" ->
  Forall (fun x => keep_part x = true) ps ->
  Forall (fun x => no_slash x = true) ps ->
  Forall (fun x => keep_part x = true) qs ->
  Forall (fun x => no_slash x = true) qs ->
  as_posix (root +:+ Py.join_slash ps) = as_posix (root +:+ Py.join_slash qs) ->
  ps = qs.
Proof.
  intros Hroot Hkp Hnp Hkq Hnq.
  rewrite !as_posix_spelled by auto using kept_head.
  rewrite !filter_id by done.
  assert (forall xs, Forall (fun x => keep_part x = true) xs ->
                     Forall (fun x => no_slash x = true) xs ->
                     Py.join_slash xs = "." -> False) as Hdot.
  { intros xs Hk Hn Heq. pose proof (parts_of_join xs Hk Hn) as Hparts.
    rewrite Heq in Hparts. vm_compute in Hparts. subst xs.
    vm_compute in Heq. discriminate. }
  assert (Py.join_slash ps = Py.join_slash qs -> ps = qs) as Hinj.
  { intros Heq. rewrite <- (parts_of_join ps Hkp Hnp), Heq.
    by apply parts_of_join. }
  destruct Hroot as [-> | [-> | ->]].
  - destruct ps as [|x ps], qs as [|y qs]; [done | | |].
    + intros Heq. exfalso. by eapply (Hdot (y :: qs)).
    + intros Heq. exfalso. by eapply (Hdot (x :: ps)).
    + exact Hinj.
  - intros [= Heq]. by apply Hinj.
  - intros [= Heq]. by apply Hinj.
Qed.

(** C7 (as amended): every store operation sees its path arguments
    through [as_posix] and nothing else, before every read and write.  Two
    spellings with the same [as_posix] form are one key: each operation
    does the same under either spelling, and a read under one spelling
    sees the row written under the other.  Two spellings with different
    forms are two keys: a read under one does not see what was written
    under the other.  The form is stable (a path already in that form is
    its own key) and is what is left of the spelling when empty
    components (from a repeated or a trailing slash) and [.] components
    are dropped: the root is kept, be it none, one slash or exactly two
    slashes, three slashes or more at the front count as one, the empty
    relative path is [.], and the components that stay are kept as they
    are, so that lists of components that differ, if only in letter case,
    give different keys. *)
Theorem C7_same_normal_form_same_key db a b :
  (as_posix a = as_posix b ->
   (get_folder_resumption_data db a = get_folder_resumption_data db b /\
    is_file_uploaded db a = is_file_uploaded db b /\
    (forall album_id, set_folder_album db a album_id = set_folder_album db b album_id) /\
    (forall status, set_folder_status db a status = set_folder_status db b status) /\
    (forall f, mark_file_uploaded db a f = mark_file_uploaded db b f) /\
    (forall f, mark_file_uploaded db f a = mark_file_uploaded db f b)) /\
   ((forall album_id,
        fst <$> get_folder_resumption_data (set_folder_album db a album_id) b
        = Some album_id) /\
    (forall album_id status,
        get_folder_resumption_data
          (set_folder_status (set_folder_album db a album_id) a status) b
        = Some (album_id, status)) /\
    (forall f, is_file_uploaded (mark_file_uploaded db a f) b = true))) /\
  (as_posix a <> as_posix b ->
   (forall album_id status,
       get_folder_resumption_data
         (set_folder_status (set_folder_album db a album_id) a status) b
       = get_folder_resumption_data db b) /\
   (forall f, is_file_uploaded (mark_file_uploaded db a f) b
              = is_file_uploaded db b)) /\
  as_posix (as_posix a) = as_posix a /\
  (forall root parts,
      root = "" \/ root = "/" \/ root = "//" ->
      Forall (fun x => no_slash x = true) parts ->
      head parts <> Some "" ->
      as_posix (root +:+ Py.join_slash parts)
      = match root, List.filter keep_part parts with
        | EmptyString, [] => "."
        | _, kept => root +:+ Py.join_slash kept
        end) /\
  (forall parts,
      Forall (fun x => no_slash x = true) parts ->
      as_posix ("///" +:+ Py.join_slash parts)
      = "/" +:+ Py.join_slash (List.filter keep_part parts)) /\
  (forall root ps qs,
      root = "" \/ root = "/" \/ root = "//" ->
      Forall (fun x => keep_part x = true) ps ->
      Forall (fun x => no_slash x = true) ps ->
      Forall (fun x => keep_part x = true) qs ->
      Forall (fun x => no_slash x = true) qs ->
      ps <> qs ->
      as_posix (root +:+ Py.join_slash ps) <> as_posix (root +:+ Py.join_slash qs)).
Proof.
  split; [|split; [|split; [apply as_posix_idempotent|split; [|split]]]].
  - intros Hkey. split.
    + unfold get_folder_resumption_data, is_file_uploaded, set_folder_album,
        set_folder_status, mark_file_uploaded.
      rewrite Hkey. done.
    + split; [|split].
      * intros album_id. unfold get_folder_resumption_data.
        rewrite folders_set_folder_album, decide_True by done. done.
      * intros album_id status. unfold get_folder_resumption_data.
        rewrite folders_set_folder_status, decide_True by done.
        rewrite folders_set_folder_album, decide_True by done. done.
      * intros f. rewrite is_file_uploaded_key, uploaded_key_mark.
        by rewrite bool_decide_eq_true_2.
  - intros Hkey. split.
    + intros album_id status. unfold get_folder_resumption_data.
      rewrite folders_set_folder_status, decide_False by done.
      by rewrite folders_set_folder_album, decide_False by done.
    + intros f. rewrite !is_file_uploaded_key, uploaded_key_mark.
      by rewrite bool_decide_eq_false_2.
  - apply as_posix_spelled.
  - apply as_posix_many_slashes.
  - intros root ps qs Hroot Hkp Hnp Hkq Hnq Hne Heq. apply Hne.
    by apply (as_posix_kept_inj root).
Qed.

Lemma C7_witness :
  as_posix "/t//A/" = as_posix "/t/./A" /\
  get_folder_resumption_data
    (set_folder_status (set_folder_album empty_db "/t//A/" (Some "album-A"))
                       "/t//A/" "processed")
    "/t/./A" = Some (Some "album-A", "processed") /\
  is_file_uploaded (mark_file_uploaded empty_db "/t//A/" "/t") "/t/./A" = true /\
  as_posix ("/" +:+ Py.join_slash ["t"; ""; "A"; ""]) = "/t/A" /\
  as_posix "/t/A" <> as_posix "/t/a".
Proof.
  assert (as_posix "/t//A/" = as_posix "/t/./A") as Hkey
    by (vm_compute; reflexivity).
  destruct (C7_same_normal_form_same_key empty_db "/t//A/" "/t/./A")
    as (Hsame & _ & _ & Hform & _ & Hcase).
  destruct (Hsame Hkey) as (_ & _ & Hstatus & Hfile).
  refine (conj Hkey (conj (Hstatus _ _) (conj (Hfile _) (conj _ _)))).
  - rewrite (Hform "/" ["t"; ""; "A"; ""]); [reflexivity | auto | | done].
    by repeat constructor.
  - apply (Hcase "/" ["t"; "A"] ["t"; "a"]); try (by repeat constructor); auto.
Defined.

(** C7 with case-normalised keys does not hold: the keys keep the letter
    case of the
    path (and, in this flavour, its backslashes), so two spellings that
    differ in letter case only are two keys, and a read under one does
    not see what was written under the other. *)
Lemma C7_letter_case_makes_two_keys :
  Py.lower "/Photos/Trip" = Py.lower "/photos/trip" /\
  as_posix "/Photos/Trip" <> as_posix "/photos/trip" /\
  get_folder_resumption_data
    (set_folder_album empty_db "/Photos/Trip" (Some "album-1")) "/photos/trip"
  = None /\
  is_file_uploaded
    (mark_file_uploaded empty_db "/Photos/Trip/IMG_1.JPG" "/Photos/Trip")
    "/photos/trip/img_1.jpg" = false.
Proof. vm_compute. repeat split; try reflexivity. discriminate. Qed.

(* ===================================================================== *)
(** ** More about calls of [process_folder] *)
(* ===================================================================== *)

Section AnswerFacts.

Variable service : Service.

Lemma answers_from_app h t1 t2 :
  answers_from service h (t1 ++ t2) <->
  answers_from service h t1 /\ answers_from service (h ++ t1) t2.
Proof.
  revert h. induction t1 as [|e t1 IH]; intros h; simpl.
  - rewrite app_nil_r. tauto.
  - rewrite IH, <- app_assoc. simpl. tauto.
Qed.

Lemma upload_batch_answers batch :
  forall h toks paths h' r,
    upload_batch service h batch toks paths = (h', r) ->
    exists t, h' = h ++ t /\ answers_from service h t /\
              length (oks t) <= length batch.
Proof.
  induction batch as [|file_path rest IH]; intros h toks paths h' r Hrun.
  - injection Hrun as <- <-. exists []. by rewrite app_nil_r.
  - simpl in Hrun. unfold upload_bytes in Hrun.
    destruct (svc_upload_bytes service h file_path) as [token|msg] eqn:Hup.
    + apply IH in Hrun as (t & -> & Hans & Hlen).
      exists (UploadFile file_path (Ok token) :: t).
      rewrite <- app_assoc. simpl. split; [done|]. split; [done | lia].
    + destruct (is_quota_error msg).
      * injection Hrun as <- <-. exists [UploadFile file_path (Err msg)].
        simpl. split; [done|]. split; [done | lia].
      * apply IH in Hrun as (t & -> & Hans & Hlen).
        exists (UploadFile file_path (Err msg) :: t).
        rewrite <- app_assoc. simpl. split; [done|]. split; [done | lia].
Qed.

Lemma commit_shape_uploads album_id n us :
  Forall (fun e => is_upload e = true) us -> Forall (commit_shape album_id n) us.
Proof. intros Hus. eapply Forall_impl; [exact Hus|]. by intros []. Qed.

Lemma process_batch_answers db h folder_path album_id batch b db' h' :
  process_batch service db h folder_path album_id batch = (b, db', h') ->
  exists t, h' = h ++ t /\ answers_from service h t /\
            Forall (commit_shape album_id (length batch)) t.
Proof.
  unfold process_batch.
  destruct (upload_batch service h batch [] []) as [h1 r] eqn:Hup.
  pose proof Hup as Hspec.
  apply upload_batch_answers in Hup as (t1 & -> & Hans & Hlen).
  apply upload_batch_spec in Hspec as (t1' & Heq & Hall & Hr).
  apply app_inv_head in Heq as <-.
  pose proof (commit_shape_uploads album_id (length batch) t1 Hall) as Hshape.
  destruct r as [[toks paths]|]; [|intros [= <- <- <-]; eauto].
  destruct Hr as (_ & _ & Htoks & _). simpl in Htoks.
  destruct toks as [|tok toks]; [intros [= <- <- <-]; eauto|].
  unfold batch_create_media_items.
  assert (answers_from service h
            (t1 ++ [CommitBatch (tok :: toks) album_id
                      (svc_batch_create service (h ++ t1) (tok :: toks) album_id)])
          /\ Forall (commit_shape album_id (length batch))
               (t1 ++ [CommitBatch (tok :: toks) album_id
                         (svc_batch_create service (h ++ t1) (tok :: toks)
                            album_id)])) as [Hans' Hshape'].
  { split.
    - apply answers_from_app. split; [done|]. by simpl.
    - apply Forall_app. split; [done|].
      apply Forall_cons. split; [|by constructor].
      simpl. split; [done|]. split; [lia|].
      change (S (length toks)) with (length (tok :: toks)).
      rewrite Htoks, length_map. lia. }
  destruct (svc_batch_create service (h ++ t1) (tok :: toks) album_id)
    as [ids|msg]; [|destruct (is_quota_error msg)];
    intros [= <- <- <-]; eexists; (split; [by rewrite <- app_assoc|]); done.
Qed.

Lemma commit_shape_mono album_id n m e :
  n <= m -> commit_shape album_id n e -> commit_shape album_id m e.
Proof.
  intros Hle. destruct e; simpl; [done | done |].
  intros (Halbum & Hlow & Hhigh). split; [done | lia].
Qed.

Lemma upload_in_batches_answers folder_path album_id n batches :
  Forall (fun batch => length batch <= n) batches ->
  forall db h b db' h',
    upload_in_batches service db h folder_path album_id batches = (b, db', h') ->
    exists t, h' = h ++ t /\ answers_from service h t /\
              Forall (commit_shape album_id n) t.
Proof.
  induction 1 as [|batch rest Hlen _ IH]; intros db h b db' h' Hrun.
  - injection Hrun as <- <- <-. exists []. by rewrite app_nil_r.
  - simpl in Hrun.
    destruct (process_batch service db h folder_path album_id batch)
      as [[b1 db1] h1] eqn:Hb.
    apply process_batch_answers in Hb as (t1 & -> & Hans1 & Hshape1).
    assert (Forall (commit_shape album_id n) t1) as Hshape1'.
    { eapply Forall_impl; [exact Hshape1|]. intros e. by apply commit_shape_mono. }
    destruct b1.
    + apply IH in Hrun as (t2 & -> & Hans2 & Hshape2).
      exists (t1 ++ t2). rewrite app_assoc. split; [done|].
      split; [by apply answers_from_app | by apply Forall_app].
    + injection Hrun as <- <- <-. eauto.
Qed.

Lemma batches_of_lengths (fs : list string) :
  Forall (fun batch => length batch <= BATCH_SIZE) (batches_of fs).
Proof.
  unfold batches_of. apply Forall_forall. intros batch Hin.
  apply list_elem_of_fmap in Hin as (i & -> & _).
  unfold slice. rewrite length_firstn. lia.
Qed.

End AnswerFacts.

Section ShapeFacts.

Variable service : Service.
Variable walk : Walk.

Lemma existing_album_folders db1 db2 p :
  folders db1 = folders db2 -> existing_album db1 p = existing_album db2 p.
Proof.
  intros Heq. unfold existing_album, get_folder_resumption_data. by rewrite Heq.
Qed.

Lemma existing_album_set_status db p s :
  existing_album (set_folder_status db p s) p = existing_album db p.
Proof.
  unfold existing_album, get_folder_resumption_data.
  rewrite folders_set_folder_status, decide_True by done.
  by destruct (folders db !! as_posix p) as [[a st]|].
Qed.

Lemma existing_album_set_album db p a :
  existing_album (set_folder_album db p a) p = a.
Proof.
  unfold existing_album, get_folder_resumption_data.
  by rewrite folders_set_folder_album, decide_True.
Qed.

Lemma creations_none t :
  Forall (fun e => is_create e = false) t -> creations t = [].
Proof.
  induction 1 as [|e t He _ IH]; [done|].
  unfold creations in *. simpl. by rewrite He.
Qed.

Lemma commit_shape_no_commit album_id n t :
  Forall (fun e => is_commit e = false) t -> Forall (commit_shape album_id n) t.
Proof. intros Hall. eapply Forall_impl; [exact Hall|]. by intros []. Qed.

(** The transfer part of a call, from the album decision on. *)
Lemma transfer_shape db1 h1 folder_path album_id ret db' h' :
  match files_to_upload walk db1 folder_path with
  | [] => (true, set_folder_status db1 folder_path "processed", h1)
  | _ :: _ =>
      match upload_in_batches service db1 h1 (as_posix folder_path) album_id
              (batches_of (files_to_upload walk db1 folder_path)) with
      | (false, db2, h2) => (false, db2, h2)
      | (true, db2, h2) =>
          (true, set_folder_status db2 folder_path "processed", h2)
      end
  end = (ret, db', h') ->
  exists t,
    h' = h1 ++ t /\ answers_from service h1 t /\
    Forall (commit_shape album_id BATCH_SIZE) t /\
    creations t = [] /\
    existing_album db' folder_path = existing_album db1 folder_path.
Proof.
  destruct (files_to_upload walk db1 folder_path) as [|f fs] eqn:Hfs.
  - intros [= <- <- <-]. exists []. rewrite app_nil_r.
    by rewrite existing_album_set_status.
  - destruct (upload_in_batches _ _ _ _ _ _) as [[b db2] h2] eqn:Hloop.
    pose proof Hloop as Hspec.
    apply (upload_in_batches_answers service _ _ BATCH_SIZE) in Hloop
      as (t & -> & Hans & Hshape); [|apply batches_of_lengths].
    apply upload_in_batches_spec in Hspec as (t' & Heq & Hout).
    apply app_inv_head in Heq as <-.
    pose proof (run_outcome_folders _ _ _ _ _ _ Hout) as Hfolders.
    destruct Hout as (_ & [Hnc _] & _).
    assert (existing_album db2 folder_path = existing_album db1 folder_path)
      as Halbum by by apply existing_album_folders.
    destruct b; intros [= <- <- <-]; exists t;
      rewrite ?existing_album_set_status; by rewrite creations_none.
Qed.

(** What the trace of any call looks like: it holds the answers of the
    service; every commit call carries the album id that the store holds
    for the folder afterwards, with one to ten tokens; and an album is
    created at most once, first of all, and only when one is needed. *)
Lemma process_folder_shape db h folder_path ret db' t :
  process_folder service walk db h folder_path = (ret, db', h ++ t) ->
  answers_from service h t /\
  Forall (commit_shape (existing_album db' folder_path) BATCH_SIZE) t /\
  ((creations t = [] /\
    existing_album db' folder_path = existing_album db folder_path /\
    (folder_processed db folder_path = true \/
     needs_album db folder_path = false)) \/
   (exists r t',
      folder_processed db folder_path = false /\
      needs_album db folder_path = true /\
      t = CreateAlbum (basename (as_posix folder_path)) r :: t' /\
      creations t' = [] /\
      match r with
      | Ok album_id => existing_album db' folder_path = album_id
      | Err _ => t' = [] /\ ret = false /\ db' = db
      end)).
Proof.
  rewrite process_folder_unfold.
  destruct (folder_processed db folder_path) eqn:Hproc.
  { intros [= <- <- Hh]. rewrite <- (app_nil_r h) in Hh at 1.
    apply app_inv_head in Hh as <-. split; [done|]. split; [done|].
    left. split; [done|]. split; [done | by left]. }
  unfold decide_album. fold (needs_album db folder_path).
  destruct (needs_album db folder_path) eqn:Hneed.
  - unfold create_album.
    destruct (svc_create_album service h (basename (as_posix folder_path)))
      as [album_id|msg] eqn:Hcreate.
    + intros Hrun. apply transfer_shape in Hrun
        as (t' & Hh & Hans & Hshape & Hcre & Halbum).
      rewrite <- app_assoc in Hh. apply app_inv_head in Hh as ->.
      rewrite set_folder_album_posix, existing_album_set_album in Halbum.
      split; [by simpl|]. rewrite Halbum.
      split; [by constructor|]. right.
      exists (Ok album_id), t'. by rewrite <- Hcreate.
    + assert ((false, db, h ++ [CreateAlbum (basename (as_posix folder_path))
                                  (Err msg)]) = (ret, db', h ++ t) ->
              ret = false /\ db' = db /\
              t = [CreateAlbum (basename (as_posix folder_path)) (Err msg)])
        as Hinv.
      { intros [= <- <- Hh]. by apply app_inv_head in Hh as <-. }
      intros Hrun.
      assert (ret = false /\ db' = db /\
              t = [CreateAlbum (basename (as_posix folder_path)) (Err msg)])
        as (-> & -> & ->) by (destruct (is_quota_error msg); by apply Hinv).
      split; [by simpl|]. split; [by repeat constructor|]. right.
      exists (Err msg), []. by rewrite <- Hcreate.
  - intros Hrun. apply transfer_shape in Hrun
      as (t' & Hh & Hans & Hshape & Hcre & Halbum).
    apply app_inv_head in Hh as ->.
    split; [done|]. rewrite Halbum. split; [done|].
    left. split; [done|]. split; [done | by right].
Qed.

End ShapeFacts.

Section MoreFolderFacts.

Variable service : Service.
Variable walk : Walk.

Lemma processed_key_set_folder_album db p a key :
  processed_key (set_folder_album db p a) key = processed_key db key.
Proof.
  unfold processed_key. rewrite folders_set_folder_album.
  case_decide; [|done]. by destruct (folders db !! key) as [[? ?]|].
Qed.

Lemma files_mark_all_other db ps f key :
  key ∉ List.map as_posix ps ->
  files (mark_all db ps f) !! key = files db !! key.
Proof.
  revert db. induction ps as [|p ps IH]; intros db Hkey; [done|].
  rewrite mark_all_cons, IH.
  - rewrite files_mark_file_uploaded, decide_False; [done|].
    intros Heq. apply Hkey. rewrite <- Heq. apply list_elem_of_here.
  - intros Hin. apply Hkey. by apply list_elem_of_further.
Qed.

Lemma files_mark_all_new db ps f key g st :
  files (mark_all db ps f) !! key = Some (g, st) ->
  files db !! key = None ->
  g = as_posix f /\ st = "uploaded".
Proof.
  revert db. induction ps as [|p ps IH]; intros db Hrow Hnone.
  - simpl in Hrow. congruence.
  - rewrite mark_all_cons in Hrow.
    destruct (decide (as_posix p = key)) as [Heq | Hne].
    + assert (files (mark_file_uploaded db p f) !! key
              = Some (as_posix f, "uploaded")) as Hnew.
      { rewrite files_mark_file_uploaded, decide_True by done. by rewrite Hnone. }
      destruct (progress_kept_mark_all (mark_file_uploaded db p f) ps f)
        as [Hkeep _].
      apply Hkeep in Hnew. rewrite Hnew in Hrow. by injection Hrow as <- <-.
    + apply (IH _ Hrow).
      by rewrite files_mark_file_uploaded, decide_False.
Qed.

Lemma attempted_in_files db h folder_path ret db' t q :
  process_folder service walk db h folder_path = (ret, db', h ++ t) ->
  In q (attempted t) ->
  In q (gather_files walk (as_posix folder_path)) /\
  is_file_uploaded db q = false.
Proof.
  intros Hrun Hq.
  apply process_folder_trace in Hrun as (t' & Heq & _ & [k Hpre] & _).
  apply app_inv_head in Heq as <-.
  assert (In q (files_to_upload walk db folder_path)) as Hin.
  { rewrite Hpre. apply in_or_app. by left. }
  apply filter_In in Hin as [Hin Hnew]. split; [done|].
  by apply negb_true_iff.
Qed.

(** All exchanges of a call with a service that always succeeds came back
    with a value. *)
Lemma answers_succeeded h t :
  always_succeeds service -> answers_from service h t ->
  Forall (fun e => succeeded e = true) t.
Proof.
  intros (Hcreate & Hupload & Hcommit). revert h.
  induction t as [|e t IH]; intros h Hans; [constructor|].
  destruct Hans as [He Hans]. constructor; [|by eapply IH].
  destruct e as [title r | p r | toks alb r]; simpl in He; subst r; simpl.
  - by destruct (Hcreate h title) as [a ->].
  - by destruct (Hupload h p) as [a ->].
  - by destruct (Hcommit h toks alb) as [a ->].
Qed.

Lemma succeeded_not_fatal e : succeeded e = true -> fatal e = false.
Proof. by destruct e as [title [a|m] | p [tok|m] | toks alb [ids|m]]. Qed.

(** When every exchange succeeded, each upload ends up committed once the
    pending uploads are flushed. *)
Lemma replay_all_succeeded t :
  Forall (fun e => succeeded e = true) t ->
  forall pe co,
    snd (replay t (pe, co)) ++ List.map fst (fst (replay t (pe, co)))
    = co ++ List.map fst pe ++ attempted t.
Proof.
  induction 1 as [|e t He _ IH]; intros pe co.
  - simpl. by rewrite app_nil_r.
  - change (replay (e :: t) (pe, co)) with (replay t (replay_step (pe, co) e)).
    destruct e as [title [a|m] | p [tok|m] | toks alb [ids|m]];
      try discriminate He; simpl; rewrite IH; simpl.
    + done.
    + by rewrite map_app, <- !app_assoc.
    + by rewrite <- app_assoc.
Qed.

End MoreFolderFacts.

(* ===================================================================== *)
(** ** What a call of [process_folder] uploads, creates and writes *)
(* ===================================================================== *)

(** X1: a call never uploads a file that the store records as uploaded,
    and never a file outside the enumeration of the folder; when the
    enumeration lists each key once, no key is uploaded twice in one
    call. *)
Theorem X1_uploads_at_most_once service walk db h folder_path ret db' t :
  process_folder service walk db h folder_path = (ret, db', h ++ t) ->
  (forall q, In q (attempted t) ->
             In q (gather_files walk (as_posix folder_path)) /\
             is_file_uploaded db q = false) /\
  (forall p q, is_file_uploaded db p = true -> In q (attempted t) ->
               as_posix q <> as_posix p) /\
  (NoDup (List.map as_posix (gather_files walk (as_posix folder_path))) ->
   NoDup (List.map as_posix (attempted t))).
Proof.
  intros Hrun. split; [|split].
  - intros q Hq. by apply (attempted_in_files service walk db h folder_path ret db' t).
  - intros p q Hp Hq Hkey.
    destruct (attempted_in_files service walk _ _ _ _ _ _ q Hrun Hq) as [_ Hnew].
    rewrite is_file_uploaded_key, Hkey, <- is_file_uploaded_key in Hnew.
    congruence.
  - by apply (attempted_keys_NoDup service walk db h folder_path ret db' t).
Qed.

Lemma X1_witness :
  process_folder ok_service walk_four db_f1_done [] "/t/A"
  = (true,
     snd (fst (process_folder ok_service walk_four db_f1_done [] "/t/A")),
     [] ++ snd (process_folder ok_service walk_four db_f1_done [] "/t/A")) /\
  is_file_uploaded db_f1_done "/t/A/f1.jpg" = true /\
  attempted (snd (process_folder ok_service walk_four db_f1_done [] "/t/A"))
  = ["/t/A/f2.jpg"; "/t/A/f3.jpg"; "/t/A/f4.jpg"] /\
  forall q,
    In q (attempted
            (snd (process_folder ok_service walk_four db_f1_done [] "/t/A"))) ->
    as_posix q <> as_posix "/t/A/f1.jpg".
Proof.
  assert (process_folder ok_service walk_four db_f1_done [] "/t/A"
          = (true,
             snd (fst (process_folder ok_service walk_four db_f1_done [] "/t/A")),
             [] ++ snd (process_folder ok_service walk_four db_f1_done []
                          "/t/A"))) as Hrun by (vm_compute; reflexivity).
  assert (is_file_uploaded db_f1_done "/t/A/f1.jpg" = true) as Hdone
    by (vm_compute; reflexivity).
  destruct (X1_uploads_at_most_once _ _ _ _ _ _ _ _ Hrun) as (_ & Honce & _).
  refine (conj Hrun (conj Hdone (conj _ (fun q => Honce _ q Hdone)))).
  vm_compute. reflexivity.
Defined.

(** X2: the uploads of a call follow the enumeration: the files attempted
    are a prefix of the not-yet-uploaded files in walk order, and a call
    that returns [True] for a folder not yet processed attempted all of
    them. *)
Theorem X2_uploads_follow_enumeration
    service walk db h folder_path ret db' t :
  process_folder service walk db h folder_path = (ret, db', h ++ t) ->
  attempted t `prefix_of` files_to_upload walk db folder_path /\
  (ret = true -> folder_processed db folder_path = false ->
   attempted t = files_to_upload walk db folder_path).
Proof.
  intros Hrun. split.
  - apply process_folder_trace in Hrun as (t' & Heq & _ & Hpre & _).
    by apply app_inv_head in Heq as <-.
  - intros -> Hproc. apply process_folder_run in Hrun.
    inversion Hrun as [Hp | | pre db1 t' db2 ret Hp Hready Hout Hret Hdb Hh];
      [congruence|].
    apply app_inv_head in Hh as <-.
    destruct (album_ready_pre _ _ _ _ _ _ Hready) as [Hpre _].
    destruct (committed_of_pre pre t' Hpre) as (_ & -> & _).
    by destruct Hout as (_ & _ & Hatt & _).
Qed.

Lemma X2_witness :
  process_folder quota_after_two_service walk_four db_f1_done [] "/t/A"
  = (false,
     snd (fst (process_folder quota_after_two_service walk_four db_f1_done []
                 "/t/A")),
     [] ++ snd (process_folder quota_after_two_service walk_four db_f1_done []
                  "/t/A")) /\
  files_to_upload walk_four db_f1_done "/t/A"
  = ["/t/A/f2.jpg"; "/t/A/f3.jpg"; "/t/A/f4.jpg"] /\
  attempted (snd (process_folder quota_after_two_service walk_four db_f1_done
                    [] "/t/A"))
  `prefix_of` files_to_upload walk_four db_f1_done "/t/A".
Proof.
  assert (process_folder quota_after_two_service walk_four db_f1_done [] "/t/A"
          = (false,
             snd (fst (process_folder quota_after_two_service walk_four
                         db_f1_done [] "/t/A")),
             [] ++ snd (process_folder quota_after_two_service walk_four
                          db_f1_done [] "/t/A"))) as Hrun
    by (vm_compute; reflexivity).
  refine (conj Hrun (conj _ (proj1 (X2_uploads_follow_enumeration
                                      _ _ _ _ _ _ _ _ Hrun)))).
  vm_compute. reflexivity.
Defined.

(** X3: no album is created for a folder of loose media, nor for a folder
    whose row holds a usable album id: the call makes no album creation
    call, leaves the stored album id as it is, and every commit call
    carries that id. *)
Theorem X3_album_is_reused service walk db h folder_path ret db' t :
  process_folder service walk db h folder_path = (ret, db', h ++ t) ->
  is_album_folder (basename (as_posix folder_path)) = false \/
  truthy (existing_album db folder_path) = true ->
  creations t = [] /\
  existing_album db' folder_path = existing_album db folder_path /\
  forall upload_tokens album_id r,
    In (CommitBatch upload_tokens album_id r) t ->
    album_id = existing_album db folder_path.
Proof.
  intros Hrun Hcase.
  assert (needs_album db folder_path = false) as Hneed.
  { unfold needs_album. destruct Hcase as [-> | ->]; [done|].
    by rewrite andb_false_r. }
  destruct (process_folder_shape service walk _ _ _ _ _ _ Hrun)
    as (_ & Hshape & [(Hcre & Halbum & _) | (r & t' & _ & Hneed' & _)]);
    [|congruence].
  split; [done|]. split; [done|].
  intros toks alb r Hin. rewrite Forall_forall in Hshape.
  apply list_elem_of_In, Hshape in Hin. simpl in Hin.
  destruct Hin as [-> _]. done.
Qed.

Lemma X3_witness :
  process_folder ok_service walk_four db_album_pending [] "/t/A"
  = (true,
     snd (fst (process_folder ok_service walk_four db_album_pending [] "/t/A")),
     [] ++ snd (process_folder ok_service walk_four db_album_pending [] "/t/A"))
  /\
  (is_album_folder (basename (as_posix "/t/A")) = false \/
   truthy (existing_album db_album_pending "/t/A") = true) /\
  creations (snd (process_folder ok_service walk_four db_album_pending []
                    "/t/A")) = [] /\
  existing_album
    (snd (fst (process_folder ok_service walk_four db_album_pending [] "/t/A")))
    "/t/A" = Some "album-7".
Proof.
  assert (process_folder ok_service walk_four db_album_pending [] "/t/A"
          = (true,
             snd (fst (process_folder ok_service walk_four db_album_pending []
                         "/t/A")),
             [] ++ snd (process_folder ok_service walk_four db_album_pending []
                          "/t/A"))) as Hrun by (vm_compute; reflexivity).
  assert (is_album_folder (basename (as_posix "/t/A")) = false \/
          truthy (existing_album db_album_pending "/t/A") = true) as Hcase
    by (right; vm_compute; reflexivity).
  destruct (X3_album_is_reused _ _ _ _ _ _ _ _ Hrun Hcase) as (Hcre & Halbum & _).
  refine (conj Hrun (conj Hcase (conj Hcre _))).
  rewrite Halbum. vm_compute. reflexivity.
Defined.

(** X4: when a folder not yet processed needs an album, the call starts
    with the one album creation call and makes no other; the id that
    comes back is in the store when the call ends, also when the call is
    aborted later, and if the id is usable no later call for the folder
    creates an album again, whatever the service answers then. *)
Theorem X4_album_created_once_and_stored
    service walk db h folder_path ret db' t :
  process_folder service walk db h folder_path = (ret, db', h ++ t) ->
  folder_processed db folder_path = false ->
  needs_album db folder_path = true ->
  exists t',
    t = CreateAlbum (basename (as_posix folder_path))
          (svc_create_album service h (basename (as_posix folder_path))) :: t' /\
    creations t' = [] /\
    forall album_id,
      svc_create_album service h (basename (as_posix folder_path)) = Ok album_id ->
      existing_album db' folder_path = album_id /\
      (truthy album_id = true ->
       forall service2 walk2 h2 ret2 db2 t2,
         process_folder service2 walk2 db' h2 folder_path = (ret2, db2, h2 ++ t2) ->
         creations t2 = [] /\ existing_album db2 folder_path = album_id).
Proof.
  intros Hrun Hproc Hneed.
  destruct (process_folder_shape service walk _ _ _ _ _ _ Hrun)
    as (Hans & _ & [(_ & _ & [? | ?]) | (r & t' & _ & _ & -> & Hcre & Hr)]);
    [congruence | congruence |].
  destruct Hans as [Hanswer _]. simpl in Hanswer. subst r.
  exists t'. split; [done|]. split; [done|].
  intros album_id Hcreate. rewrite Hcreate in Hr. split; [done|].
  intros Husable service2 walk2 h2 ret2 db2 t2 Hrun2.
  assert (needs_album db' folder_path = false) as Hneed2.
  { unfold needs_album. by rewrite Hr, Husable, andb_false_r. }
  destruct (process_folder_shape service2 walk2 _ _ _ _ _ _ Hrun2)
    as (_ & _ & [(Hcre2 & Halbum2 & _) | (r2 & t2' & _ & Hneed2' & _)]);
    [|congruence].
  split; [done | congruence].
Qed.

Lemma X4_witness :
  process_folder quota_after_two_service walk_four empty_db [] "/t/A"
  = (false,
     snd (fst (process_folder quota_after_two_service walk_four empty_db []
                 "/t/A")),
     [] ++ snd (process_folder quota_after_two_service walk_four empty_db []
                  "/t/A")) /\
  folder_processed empty_db "/t/A" = false /\
  needs_album empty_db "/t/A" = true /\
  existing_album
    (snd (fst (process_folder quota_after_two_service walk_four empty_db []
                 "/t/A"))) "/t/A" = Some "album-A".
Proof.
  assert (process_folder quota_after_two_service walk_four empty_db [] "/t/A"
          = (false,
             snd (fst (process_folder quota_after_two_service walk_four
                         empty_db [] "/t/A")),
             [] ++ snd (process_folder quota_after_two_service walk_four
                          empty_db [] "/t/A"))) as Hrun
    by (vm_compute; reflexivity).
  assert (folder_processed empty_db "/t/A" = false) as Hproc
    by (vm_compute; reflexivity).
  assert (needs_album empty_db "/t/A" = true) as Hneed
    by (vm_compute; reflexivity).
  destruct (X4_album_created_once_and_stored _ _ _ _ _ _ _ _ Hrun Hproc Hneed)
    as (t' & _ & _ & Hstored).
  exact (conj Hrun (conj Hproc (conj Hneed
           (proj1 (Hstored (Some "album-A") eq_refl))))).
Defined.

(** X5: every commit call of a call of [process_folder] carries at least
    one and at most ten upload tokens, and the album id that the store
    holds for the folder when the call ends. *)
Theorem X5_commit_calls_are_bounded
    service walk db h folder_path ret db' t upload_tokens album_id r :
  process_folder service walk db h folder_path = (ret, db', h ++ t) ->
  In (CommitBatch upload_tokens album_id r) t ->
  1 <= length upload_tokens <= 10 /\
  album_id = existing_album db' folder_path.
Proof.
  intros Hrun Hin.
  destruct (process_folder_shape service walk _ _ _ _ _ _ Hrun)
    as (_ & Hshape & _).
  rewrite Forall_forall in Hshape.
  apply list_elem_of_In, Hshape in Hin. simpl in Hin.
  destruct Hin as [-> Hlen]. done.
Qed.

Lemma aborted_stays_unprocessed service walk db h folder_path db' h' :
  process_folder service walk db h folder_path = (false, db', h') ->
  folder_processed db folder_path = false /\
  folder_processed db' folder_path = false /\
  length h < length h'.
Proof.
  intros Hrun. apply process_folder_run in Hrun.
  inversion Hrun as [| msg Hp Hneed Hcreate Hret Hdb Hh
                     | pre db1 t db2 ret Hp Hready Hout Hret Hdb Hh].
  - subst. split; [done|]. split; [done|]. rewrite length_app. simpl. lia.
  - subst ret. split; [done|]. split.
    + rewrite folder_processed_key in Hp |- *. unfold processed_key.
      rewrite (run_outcome_folders _ _ _ _ _ _ Hout).
      destruct Hready as [(_ & _ & ->) | (_ & album_id & _ & _ & ->)];
        [done|].
      fold (processed_key (set_folder_album db folder_path album_id)
              (as_posix folder_path)).
      by rewrite processed_key_set_folder_album.
    + destruct Hout as (_ & _ & t0 & e & -> & _).
      rewrite !length_app. simpl. lia.
Qed.



Lemma X5_witness :
  process_folder ok_service walk_twelve empty_db [] "/t/A"
  = (true,
     snd (fst (process_folder ok_service walk_twelve empty_db [] "/t/A")),
     [] ++ snd (process_folder ok_service walk_twelve empty_db [] "/t/A")) /\
  In last_commit_twelve
     (snd (process_folder ok_service walk_twelve empty_db [] "/t/A")) /\
  List.map (fun e => match e with
                     | CommitBatch upload_tokens _ _ => length upload_tokens
                     | _ => 0
                     end)
           (List.filter is_commit
              (snd (process_folder ok_service walk_twelve empty_db [] "/t/A")))
  = [10; 2] /\
  Some "album-A"
  = existing_album
      (snd (fst (process_folder ok_service walk_twelve empty_db [] "/t/A")))
      "/t/A".
Proof.
  assert (process_folder ok_service walk_twelve empty_db [] "/t/A"
          = (true,
             snd (fst (process_folder ok_service walk_twelve empty_db [] "/t/A")),
             [] ++ snd (process_folder ok_service walk_twelve empty_db []
                          "/t/A"))) as Hrun by (vm_compute; reflexivity).
  assert (In last_commit_twelve
            (snd (process_folder ok_service walk_twelve empty_db [] "/t/A")))
    as Hin by (vm_compute; auto 20).
  refine (conj Hrun (conj Hin (conj _
            (proj2 (X5_commit_calls_are_bounded _ _ _ _ _ _ _ _ _ _ _
                      Hrun Hin))))).
  vm_compute. reflexivity.
Defined.

Section HappyPath.

Variable service : Service.
Variable walk : Walk.

(** X7: with a service whose calls all succeed, one call for a folder not
    yet processed returns [True] and leaves every enumerated file
    recorded as uploaded; every upload succeeded and was committed. *)
Theorem X7_all_files_recorded_when_calls_succeed
    db h folder_path ret db' t :
  always_succeeds service ->
  folder_processed db folder_path = false ->
  process_folder service walk db h folder_path = (ret, db', h ++ t) ->
  ret = true /\
  committed_of t = files_to_upload walk db folder_path /\
  forall p, In p (gather_files walk (as_posix folder_path)) ->
            is_file_uploaded db' p = true.
Proof.
  intros Hsucc Hproc Hrun.
  destruct (process_folder_shape service walk _ _ _ _ _ _ Hrun) as (Hans & _).
  pose proof (answers_succeeded service h t Hsucc Hans) as Hok.
  assert (ret = true) as ->.
  { destruct ret; [done|].
    apply process_folder_trace in Hrun as (t' & Heq & _ & _ & Hret).
    apply app_inv_head in Heq as <-.
    destruct Hret as (t0 & e & -> & He & _).
    apply Forall_app in Hok as [_ Hok]. apply Forall_cons in Hok as [Hok _].
    apply succeeded_not_fatal in Hok. congruence. }
  split; [done|].
  assert (committed_of t = files_to_upload walk db folder_path) as Hcommitted.
  { pose proof Hrun as Hrun'. apply process_folder_run in Hrun'.
    inversion Hrun' as [Hp | | pre db1 t' db2 ret Hp Hready Hout Hret Hdb Hh];
      [congruence|].
    apply app_inv_head in Hh as <-.
    destruct (album_ready_pre _ _ _ _ _ _ Hready) as [Hpre _].
    destruct (committed_of_pre pre t' Hpre) as (Hco & Hatt & Hpe).
    destruct Hout as (_ & _ & Hatt' & _ & Hpe').
    pose proof (replay_all_succeeded (pre ++ t') Hok [] []) as Hreplay.
    fold (committed_of (pre ++ t')) in Hreplay.
    fold (pending_of (pre ++ t')) in Hreplay.
    rewrite Hpe, Hpe', Hatt, Hatt' in Hreplay. simpl in Hreplay.
    by rewrite app_nil_r in Hreplay. }
  split; [done|].
  intros p Hp.
  rewrite (uploaded_after service walk _ _ _ _ _ _ p Hrun), Hcommitted.
  destruct (is_file_uploaded db p) eqn:Hold; [done|]. simpl.
  apply bool_decide_eq_true_2, list_elem_of_fmap_2, list_elem_of_In.
  apply filter_In. by rewrite Hold.
Qed.

(** X8: a call writes nothing but the row of its own folder and the rows
    of files it uploaded in this call; a file row that the call creates
    names the folder as its parent and is recorded as uploaded. *)
Theorem X8_call_writes_own_rows_only db h folder_path ret db' t :
  process_folder service walk db h folder_path = (ret, db', h ++ t) ->
  (forall key, key <> as_posix folder_path ->
               folders db' !! key = folders db !! key) /\
  (forall key, key ∉ List.map as_posix (attempted t) ->
               files db' !! key = files db !! key) /\
  (forall key parent status,
      files db !! key = None -> files db' !! key = Some (parent, status) ->
      parent = as_posix folder_path /\ status = "uploaded").
Proof.
  intros Hrun. split; [|split].
  - intros key Hkey. apply process_folder_run in Hrun.
    destruct Hrun as [Hproc | msg Hproc Hneed Hcreate
                     | pre db1 t' db2 ret Hproc Hready Hout]; [done | done |].
    assert (folders db2 !! key = folders db !! key) as Hsame.
    { rewrite (run_outcome_folders _ _ _ _ _ _ Hout).
      destruct Hready as [(_ & _ & ->) | (_ & album_id & _ & _ & ->)]; [done|].
      by rewrite folders_set_folder_album, decide_False. }
    destruct ret; [|done].
    by rewrite folders_set_folder_status, decide_False.
  - intros key Hkey.
    apply process_folder_trace in Hrun as (t' & Heq & -> & _).
    apply app_inv_head in Heq as <-.
    apply files_mark_all_other. intros Hin. apply Hkey.
    apply list_elem_of_fmap in Hin as (q & -> & Hq).
    by apply list_elem_of_fmap_2, committed_sub_attempted.
  - intros key parent status Hnone Hrow.
    apply process_folder_trace in Hrun as (t' & Heq & Hfiles & _).
    rewrite Hfiles in Hrow.
    apply files_mark_all_new in Hrow as [-> ->]; [|done].
    by rewrite as_posix_idempotent.
Qed.

End HappyPath.

Lemma X7_witness :
  always_succeeds ok_service /\
  folder_processed db_f1_done "/t/A" = false /\
  process_folder ok_service walk_four db_f1_done [] "/t/A"
  = (true,
     snd (fst (process_folder ok_service walk_four db_f1_done [] "/t/A")),
     [] ++ snd (process_folder ok_service walk_four db_f1_done [] "/t/A")) /\
  is_file_uploaded
    (snd (fst (process_folder ok_service walk_four db_f1_done [] "/t/A")))
    "/t/A/f4.jpg" = true.
Proof.
  assert (always_succeeds ok_service) as Hsucc
    by (repeat split; intros; eexists; reflexivity).
  assert (folder_processed db_f1_done "/t/A" = false) as Hproc
    by (vm_compute; reflexivity).
  assert (process_folder ok_service walk_four db_f1_done [] "/t/A"
          = (true,
             snd (fst (process_folder ok_service walk_four db_f1_done [] "/t/A")),
             [] ++ snd (process_folder ok_service walk_four db_f1_done []
                          "/t/A"))) as Hrun by (vm_compute; reflexivity).
  destruct (X7_all_files_recorded_when_calls_succeed _ _ _ _ _ _ _ _
              Hsucc Hproc Hrun) as (_ & _ & Hall).
  refine (conj Hsucc (conj Hproc (conj Hrun (Hall _ _)))).
  vm_compute. auto.
Defined.

Lemma X8_witness :
  process_folder ok_service walk_two db_after_A [] "/t/B"
  = (true,
     snd (fst (process_folder ok_service walk_two db_after_A [] "/t/B")),
     [] ++ snd (process_folder ok_service walk_two db_after_A []
                  "/t/B")) /\
  "/t/A" <> as_posix "/t/B" /\
  folders
    (snd (fst (process_folder ok_service walk_two db_after_A [] "/t/B")))
    !! "/t/A"
  = folders db_after_A !! "/t/A".
Proof.
  assert (process_folder ok_service walk_two db_after_A [] "/t/B"
          = (true,
             snd (fst (process_folder ok_service walk_two db_after_A []
                         "/t/B")),
             [] ++ snd (process_folder ok_service walk_two db_after_A []
                          "/t/B"))) as Hrun by (vm_compute; reflexivity).
  assert ("/t/A" <> as_posix "/t/B") as Hkey by (vm_compute; discriminate).
  destruct (X8_call_writes_own_rows_only _ _ _ _ _ _ _ _ Hrun) as (Hfolders & _).
  exact (conj Hrun (conj Hkey (Hfolders _ Hkey))).
Defined.

(* ===================================================================== *)
(** ** Uploads over HTTP *)
(* ===================================================================== *)

Lemma lower_app a b : Py.lower (a +:+ b) = Py.lower a +:+ Py.lower b.
Proof. induction a as [|c a IH]; simpl; [done | by rewrite IH]. Qed.

Lemma contains_app_r needle a b :
  Py.contains needle b = true -> Py.contains needle (a +:+ b) = true.
Proof.
  rewrite !contains_iff. intros (l & r & ->).
  exists (a +:+ l), r. by rewrite append_assoc.
Qed.

Lemma contains_app_l needle a b :
  Py.contains needle a = true -> Py.contains needle (a +:+ b) = true.
Proof.
  rewrite !contains_iff. intros (l & r & ->).
  exists l, (r +:+ b). by rewrite !append_assoc.
Qed.

(** The message of a failed upload echoes the path, so it is quota-type
    as soon as the path is. *)
Lemma upload_failed_message_quota file_path content_repr :
  is_quota_error file_path = true ->
  is_quota_error (upload_failed_message file_path content_repr) = true.
Proof.
  unfold is_quota_error, upload_failed_message.
  rewrite !orb_true_iff, !lower_app.
  intros [Hq | Hq]; [left | right];
    by apply contains_app_r, contains_app_l.
Qed.

Lemma answers_from_In service h t e :
  answers_from service h t -> In e t -> exists h', answer_of service h' e.
Proof.
  revert h. induction t as [|e' t IH]; intros h Hans Hin; [done|].
  destruct Hans as [He Hans]. destruct Hin as [-> | Hin]; [eauto|].
  by eapply IH.
Qed.

(** X9: [upload_bytes] puts the file path into the message of a refused
    upload, and the quota test reads that message.  So when a path holds
    "429" or "quota" (in any case), an upload of that file which the
    server answers with a status other than 200 fails with a message that
    passes the quota test, and ends the call for the folder with [False]
    on the spot, as a quota failure would. *)
Theorem X9_refused_upload_of_quota_named_file_aborts
    read_file credentials_token http decode_utf8 bytes_repr create commit
    walk db h folder_path ret db' t0 file_path r t1 data response :
  process_folder
    (http_service read_file credentials_token http decode_utf8 bytes_repr
                  create commit)
    walk db h folder_path = (ret, db', h ++ t0 ++ UploadFile file_path r :: t1) ->
  read_file file_path = Ok data ->
  http (h ++ t0) (upload_request credentials_token file_path data)
  = Ok response ->
  response_status response <> 200 ->
  is_quota_error file_path = true ->
  r = Err (upload_failed_message file_path
             (bytes_repr (response_content response))) /\
  is_quota_error (upload_failed_message file_path
                    (bytes_repr (response_content response))) = true /\
  ret = false /\
  t1 = [].
Proof.
  intros Hrun Hread Hhttp Hstatus Hpath.
  destruct (process_folder_shape _ walk _ _ _ _ _ _ Hrun) as (Hans & _).
  apply answers_from_app in Hans as [_ [Hanswer _]].
  simpl in Hanswer. unfold upload_bytes_http in Hanswer.
  rewrite Hread, Hhttp in Hanswer.
  apply Nat.eqb_neq in Hstatus. rewrite Hstatus in Hanswer.
  pose proof (upload_failed_message_quota file_path
                (bytes_repr (response_content response)) Hpath) as Hq.
  split; [done|]. split; [done|].
  apply (fatal_ends _ walk db h folder_path ret db' t0 _ t1 Hrun).
  by rewrite Hanswer.
Qed.

Lemma X9_witness :
  process_folder service_400 walk_quota_name empty_db [] "/t/Quota reports"
  = (false,
     snd (fst (process_folder service_400 walk_quota_name empty_db []
                 "/t/Quota reports")),
     [] ++ [CreateAlbum "Quota reports" (Ok (Some "album-Quota reports"))]
        ++ UploadFile "/t/Quota reports/a.jpg"
             (Err "Upload failed for /t/Quota reports/a.jpg: b'Bad Request'")
           :: []) /\
  is_quota_error "/t/Quota reports/a.jpg" = true /\
  is_quota_error "Bad Request" = false /\
  is_quota_error
    (upload_failed_message "/t/Quota reports/a.jpg" "b'Bad Request'") = true.
Proof.
  assert (process_folder service_400 walk_quota_name empty_db []
            "/t/Quota reports"
          = (false,
             snd (fst (process_folder service_400 walk_quota_name empty_db []
                         "/t/Quota reports")),
             [] ++ [CreateAlbum "Quota reports"
                      (Ok (Some "album-Quota reports"))]
                ++ UploadFile "/t/Quota reports/a.jpg"
                     (Err "Upload failed for /t/Quota reports/a.jpg: b'Bad Request'")
                   :: [])) as Hrun
    by (vm_compute; reflexivity).
  assert (is_quota_error "/t/Quota reports/a.jpg" = true) as Hpath
    by (vm_compute; reflexivity).
  destruct (X9_refused_upload_of_quota_named_file_aborts
              (fun _ => Ok "data") "ya29.token" http_400
              (fun content => Ok content)
              (fun content => "b'" +:+ content +:+ "'")
              (fun _ title => Ok (Some ("album-" +:+ title)))
              (fun _ upload_tokens _ => Ok upload_tokens)
              walk_quota_name empty_db [] "/t/Quota reports" false _
              [CreateAlbum "Quota reports" (Ok (Some "album-Quota reports"))]
              "/t/Quota reports/a.jpg" _ [] "data"
              (mkResponse 400 "Bad Request")
              Hrun eq_refl eq_refl ltac:(simpl; lia) Hpath)
    as (_ & Hq & _).
  refine (conj Hrun (conj Hpath (conj _ Hq))).
  vm_compute. reflexivity.
Defined.

(** An upload can also fail before or after the status test: the
    connection fails, or the body of a 200 answer is not UTF-8.  The
    message is then that of the exception; these two do not pass the
    quota test, the call goes on with the next file and returns
    [True]. *)
Example upload_errors_outside_the_status_test :
  fst (fst (process_folder service_no_connection walk_quota_name empty_db []
              "/t/Quota reports")) = true /\
  svc_upload_bytes service_no_connection [] "/t/Quota reports/a.jpg"
  = Err "[Errno 111] Connection refused" /\
  svc_upload_bytes service_bad_body [] "/t/Quota reports/a.jpg"
  = Err "'utf-8' codec can't decode byte 0xff in position 0: invalid start byte" /\
  is_quota_error "[Errno 111] Connection refused" = false /\
  fst (fst (process_folder service_bad_body walk_quota_name empty_db []
              "/t/Quota reports")) = true.
Proof. vm_compute. repeat split; reflexivity. Qed.

(* ===================================================================== *)
(** ** More about the store *)
(* ===================================================================== *)

(** X10: a write under one key is not seen by a read under another key,
    and a write to one table is not seen by a read of the other table. *)
Theorem X10_writes_touch_one_key db a b :
  as_posix a <> as_posix b ->
  (forall album_id,
      get_folder_resumption_data (set_folder_album db a album_id) b
      = get_folder_resumption_data db b) /\
  (forall status,
      get_folder_resumption_data (set_folder_status db a status) b
      = get_folder_resumption_data db b) /\
  (forall folder_path,
      is_file_uploaded (mark_file_uploaded db a folder_path) b
      = is_file_uploaded db b) /\
  (forall album_id status,
      is_file_uploaded (set_folder_album db a album_id) a
      = is_file_uploaded db a /\
      is_file_uploaded (set_folder_status db a status) a
      = is_file_uploaded db a) /\
  (forall folder_path,
      get_folder_resumption_data (mark_file_uploaded db a folder_path) a
      = get_folder_resumption_data db a /\
      get_folder_resumption_data (mark_file_uploaded db b a) a
      = get_folder_resumption_data db a).
Proof.
  intros Hkey. unfold get_folder_resumption_data.
  split; [|split; [|split; [|split]]].
  - intros album_id. by rewrite folders_set_folder_album, decide_False.
  - intros status. by rewrite folders_set_folder_status, decide_False.
  - intros folder_path. rewrite !is_file_uploaded_key, uploaded_key_mark.
    by rewrite bool_decide_eq_false_2.
  - intros album_id status. unfold is_file_uploaded.
    by rewrite files_set_folder_album, files_set_folder_status.
  - intros folder_path. by rewrite !folders_mark_file_uploaded.
Qed.

Lemma X10_witness :
  as_posix "/t/A" <> as_posix "/t/a" /\
  get_folder_resumption_data
    (set_folder_status db_two_rows "/t/A" "processed") "/t/a" = None /\
  get_folder_resumption_data
    (set_folder_status db_two_rows "/t/A" "processed") "/t/B"
  = Some (Some "album-B", "pending").
Proof.
  assert (as_posix "/t/A" <> as_posix "/t/a") as Hkey1
    by (vm_compute; discriminate).
  assert (as_posix "/t/A" <> as_posix "/t/B") as Hkey2
    by (vm_compute; discriminate).
  destruct (X10_writes_touch_one_key db_two_rows _ _ Hkey1) as (_ & Hs1 & _).
  destruct (X10_writes_touch_one_key db_two_rows _ _ Hkey2) as (_ & Hs2 & _).
  refine (conj Hkey1 (conj _ _)).
  - rewrite Hs1. vm_compute. reflexivity.
  - rewrite Hs2. vm_compute. reflexivity.
Defined.

(** X11: [mark_file_uploaded] is an insert whose conflict clause sets the
    status and nothing else.  A file without a row gets one under the
    given parent folder; a file with a row keeps the parent folder it has
    and becomes uploaded, whatever its status was.  So marking it again,
    under any spelling of the same key and with any parent folder,
    changes nothing. *)
Theorem X11_marking_twice_is_marking_once db p q f g :
  as_posix p = as_posix q ->
  mark_file_uploaded (mark_file_uploaded db p f) q g = mark_file_uploaded db p f /\
  files (mark_file_uploaded db p f) !! as_posix q
  = Some (match files db !! as_posix p with
          | Some (old_folder, _) => old_folder
          | None => as_posix f
          end, "uploaded") /\
  is_file_uploaded (mark_file_uploaded db p f) q = true.
Proof.
  intros Hkey.
  assert (files (mark_file_uploaded db p f) !! as_posix q
          = Some (match files db !! as_posix p with
                  | Some (old_folder, _) => old_folder
                  | None => as_posix f
                  end, "uploaded")) as Hrow.
  { rewrite files_mark_file_uploaded, decide_True by done. by rewrite Hkey. }
  split; [|split; [exact Hrow|]].
  - unfold mark_file_uploaded at 1. rewrite Hrow.
    rewrite insert_id by exact Hrow. by destruct (mark_file_uploaded db p f).
  - rewrite is_file_uploaded_key, uploaded_key_mark.
    by rewrite bool_decide_eq_true_2.
Qed.

Lemma X11_witness :
  as_posix "/t/A//f1.jpg" = as_posix "/t/A/f1.jpg" /\
  files db_file_failed !! "/t/A/f1.jpg" = Some ("/t/Old", "failed") /\
  mark_file_uploaded (mark_file_uploaded db_file_failed "/t/A//f1.jpg" "/t/A")
                     "/t/A/f1.jpg" "/t/Other"
  = mark_file_uploaded db_file_failed "/t/A//f1.jpg" "/t/A" /\
  files (mark_file_uploaded db_file_failed "/t/A//f1.jpg" "/t/A")
    !! as_posix "/t/A/f1.jpg"
  = Some ("/t/Old", "uploaded").
Proof.
  assert (as_posix "/t/A//f1.jpg" = as_posix "/t/A/f1.jpg") as Hkey
    by (vm_compute; reflexivity).
  assert (files db_file_failed !! "/t/A/f1.jpg" = Some ("/t/Old", "failed"))
    as Hold by (vm_compute; reflexivity).
  destruct (X11_marking_twice_is_marking_once db_file_failed _ _ "/t/A"
              "/t/Other" Hkey) as (Hsame & Hrow & _).
  refine (conj Hkey (conj Hold (conj Hsame _))).
  rewrite Hrow. vm_compute. reflexivity.
Defined.

(** X12: the folder row through its two writes.  [set_folder_album]
    creates the row as pending when there is none and otherwise replaces
    the album id, also a usable one, and keeps the status;
    [set_folder_status] keeps the album id and never creates a row: on a
    folder without a row it leaves the whole store as it is. *)
Theorem X12_folder_row_writes db p album_id status :
  get_folder_resumption_data (set_folder_album db p album_id) p
  = Some (album_id,
          match get_folder_resumption_data db p with
          | Some (_, old_status) => old_status
          | None => "pending"
          end) /\
  get_folder_resumption_data (set_folder_status db p status) p
  = match get_folder_resumption_data db p with
    | Some (old_album, _) => Some (old_album, status)
    | None => None
    end /\
  (get_folder_resumption_data db p = None ->
   set_folder_status db p status = db).
Proof.
  unfold get_folder_resumption_data. split; [|split].
  - by rewrite folders_set_folder_album, decide_True.
  - by rewrite folders_set_folder_status, decide_True.
  - intros Hnone. unfold set_folder_status. by rewrite Hnone.
Qed.

(* ===================================================================== *)
(** ** The legacy import *)
(* ===================================================================== *)



(** The import on a store with rows for [/t/A] and [/t/B]: [/t/A] becomes
    processed, [/t/B] stays pending, [/t/Old] gets no row. *)
Example legacy_import_two_rows :
  List.map (fun key => folders (migrate_json_to_db db_two_rows legacy_data) !! key)
           ["/t/A"; "/t/B"; "/t/Old"]
  = [Some (Some "album-A", "processed"); Some (Some "album-B", "pending"); None].
Proof. vm_compute. reflexivity. Qed.

(* ===================================================================== *)
(** ** The checklist *)
(* ===================================================================== *)

Lemma as_posix_path_child parent d :
  as_posix (path_child parent d) = path_child parent d.
Proof. apply as_posix_idempotent. Qed.

Lemma display_row_processed db parent d :
  display_row db parent d
  = row_for (folder_processed db (path_child parent d)) d.
Proof.
  unfold display_row, folder_processed, folder_status.
  destruct (get_folder_resumption_data db (path_child parent d))
    as [[a st]|]; simpl; [|done].
  by destruct (String.eqb st "processed").
Qed.

(** X14: the checklist after [refresh_folder_list] on a listed source
    directory has one row for every sub-directory, in sorted order; a row
    shows [Uploaded] with the icon [[x]] exactly when the store records
    the folder [(Path(parent) / name).as_posix()] as processed, and
    [Ready] with the icon [[ ]] otherwise. *)
Theorem X14_checklist_shows_stored_status db source_parent subdirs :
  source_parent <> "" ->
  refresh_folder_list db source_parent (Ok subdirs)
  = (List.map (fun d => row_for (folder_processed db (path_child source_parent d)) d)
              (merge_sort String.le subdirs), None) /\
  merge_sort String.le subdirs ≡ₚ subdirs /\
  Sorted String.le (merge_sort String.le subdirs).
Proof.
  intros Hparent. unfold refresh_folder_list.
  apply String.eqb_neq in Hparent. rewrite Hparent.
  split; [|split].
  - f_equal. apply map_ext. intros d. apply display_row_processed.
  - apply merge_sort_Permutation.
  - apply Sorted_merge_sort. apply _.
Qed.

Lemma X14_witness :
  "/t" <> "" /\
  refresh_folder_list db_after_A "/t" (Ok ["b"; "A"; "Photos from 2019"])
  = ([mkRow "[x]" "A" "Uploaded"; mkRow "[ ]" "Photos from 2019" "Ready";
      mkRow "[ ]" "b" "Ready"], None).
Proof.
  assert ("/t" <> "") as Hparent by discriminate.
  split; [exact Hparent|].
  destruct (X14_checklist_shows_stored_status db_after_A "/t"
              ["b"; "A"; "Photos from 2019"] Hparent) as (-> & _).
  vm_compute. reflexivity.
Defined.

(** X15: what the checklist shows for a folder after a call of
    [process_folder] on it.  After a call that returned [False] the
    folder is shown [Ready]; after a call that returned [True] an album
    folder, and any folder that had a row, is shown [Uploaded]. *)
Theorem X15_checklist_after_call
    service walk db h source_parent d ret db' h' :
  process_folder service walk db h (path_child source_parent d)
  = (ret, db', h') ->
  (ret = false -> display_row db' source_parent d = mkRow "[ ]" d "Ready") /\
  (ret = true ->
   is_album_folder (basename (path_child source_parent d)) = true \/
   is_Some (get_folder_resumption_data db (path_child source_parent d)) ->
   display_row db' source_parent d = mkRow "[x]" d "Uploaded").
Proof.
  intros Hrun. rewrite display_row_processed. split.
  - intros ->.
    destruct (aborted_stays_unprocessed _ _ _ _ _ _ _ Hrun) as (_ & -> & _).
    done.
  - intros -> Hcase.
    assert (folder_processed db' (path_child source_parent d) = true) as ->;
      [|done].
    apply (completed_row service walk db h _ db' h' Hrun).
    destruct Hcase as [Halbum | Hrow].
    + apply (album_row service walk db h _ db' h' Hrun).
      by rewrite as_posix_path_child.
    + by apply (row_kept service walk db h (path_child source_parent d)
                  true db' h').
Qed.

Lemma X15_witness :
  process_folder ok_service walk_two empty_db [] (path_child "/t" "A")
  = (true,
     snd (fst (process_folder ok_service walk_two empty_db []
                 (path_child "/t" "A"))),
     snd (process_folder ok_service walk_two empty_db []
            (path_child "/t" "A"))) /\
  is_album_folder (basename (path_child "/t" "A")) = true /\
  display_row
    (snd (fst (process_folder ok_service walk_two empty_db []
                 (path_child "/t" "A"))))
    "/t" "A"
  = mkRow "[x]" "A" "Uploaded".
Proof.
  assert (process_folder ok_service walk_two empty_db [] (path_child "/t" "A")
          = (true,
             snd (fst (process_folder ok_service walk_two empty_db []
                         (path_child "/t" "A"))),
             snd (process_folder ok_service walk_two empty_db []
                    (path_child "/t" "A")))) as Hrun
    by (vm_compute; reflexivity).
  assert (is_album_folder (basename (path_child "/t" "A")) = true) as Halbum
    by (vm_compute; reflexivity).
  destruct (X15_checklist_after_call _ _ _ _ _ _ _ _ _ Hrun) as (_ & Hshown).
  exact (conj Hrun (conj Halbum (Hshown eq_refl (or_introl Halbum)))).
Defined.

(* ===================================================================== *)
(** ** Ticking rows and filling the queue *)
(* ===================================================================== *)

Lemma in_list_iff x l : in_list x l = true <-> x ∈ l.
Proof.
  unfold in_list. rewrite existsb_exists. split.
  - intros (y & Hy & Heq). apply String.eqb_eq in Heq. subst.
    by apply list_elem_of_In.
  - intros Hx. exists x. split; [by apply list_elem_of_In | apply String.eqb_refl].
Qed.

Lemma row_for_not_ticked processed d :
  row_status (row_for processed d) = "Uploaded" ->
  row_icon (row_for processed d) <> "[V]".
Proof. by destruct processed. Qed.

(** X16: no row shown as [Uploaded] is ever ticked.  A refresh leaves no
    such row, and a click, "Select All Ready" and "Add Selected to Queue"
    keep it that way; a click on an [Uploaded] row changes nothing and
    shows the notice. *)
Theorem X16_uploaded_rows_are_never_ticked :
  (forall db source_parent listing,
      no_uploaded_ticked (fst (refresh_folder_list db source_parent listing))) /\
  (forall tree item_id column,
      no_uploaded_ticked tree ->
      no_uploaded_ticked (fst (on_tree_click tree item_id column))) /\
  (forall tree i row,
      tree !! i = Some row -> row_status row = "Uploaded" ->
      on_tree_click tree (Some i) "#1" = (tree, true)) /\
  (forall tree,
      no_uploaded_ticked tree -> no_uploaded_ticked (select_all_ready tree)) /\
  (forall source_parent tree selected_folders queue_listbox,
      no_uploaded_ticked tree ->
      no_uploaded_ticked
        (fst (fst (fst (add_selected_to_queue source_parent tree
                          selected_folders queue_listbox))))).
Proof.
  unfold no_uploaded_ticked. split; [|split; [|split; [|split]]].
  - intros db source_parent listing. unfold refresh_folder_list.
    destruct (String.eqb source_parent ""); [constructor|].
    destruct listing as [subdirs|msg]; [|constructor]. simpl.
    apply Forall_forall. intros row Hrow.
    apply list_elem_of_fmap in Hrow as (d & -> & _).
    rewrite display_row_processed. apply row_for_not_ticked.
  - intros tree item_id column Htree. unfold on_tree_click.
    destruct item_id as [i|]; [|done].
    destruct (tree !! i) as [row|] eqn:Hrow; [|done].
    destruct (String.eqb column "#1"); [|done].
    destruct (String.eqb (row_status row) "Uploaded") eqn:Hstatus; [done|].
    simpl. apply Forall_insert; [done|]. simpl. intros Hup.
    apply String.eqb_neq in Hstatus. done.
  - intros tree i row Hrow Hstatus. unfold on_tree_click.
    rewrite Hrow. apply String.eqb_eq in Hstatus. by rewrite Hstatus.
  - intros tree Htree. unfold select_all_ready.
    apply Forall_forall. intros row Hrow.
    apply list_elem_of_fmap in Hrow as (row0 & -> & Hrow0).
    rewrite Forall_forall in Htree.
    destruct (String.eqb (row_status row0) "Ready") eqn:Hready;
      [|by apply Htree].
    simpl. apply String.eqb_eq in Hready. rewrite Hready. discriminate.
  - intros source_parent tree selected_folders queue_listbox Htree.
    unfold add_selected_to_queue.
    generalize 0. revert selected_folders queue_listbox.
    induction Htree as [|row tree Hrow _ IH]; intros sel lb added; [constructor|].
    simpl.
    destruct (String.eqb (row_icon row) "[V]").
    + destruct (negb (in_list _ sel));
        match goal with
        | |- context [add_rows ?p ?r ?s ?l ?a] =>
            specialize (IH s l a); destruct (add_rows p r s l a) as [[[? ?] ?] ?]
        end; simpl in *; by constructor.
    + specialize (IH sel lb added).
      destruct (add_rows source_parent tree sel lb added) as [[[? ?] ?] ?].
      simpl in *. by constructor.
Qed.

Lemma add_rows_spec source_parent rows :
  forall sel lb added tree' sel' lb' added',
    add_rows source_parent rows sel lb added = (tree', sel', lb', added') ->
    sel `prefix_of` sel' /\
    (NoDup sel -> NoDup sel') /\
    length sel' = length sel + (added' - added) /\
    length lb' = length lb + (added' - added) /\
    added <= added' /\
    List.map row_name tree' = List.map row_name rows /\
    List.map row_status tree' = List.map row_status rows /\
    Forall (fun row => row_icon row <> "[V]") tree' /\
    (forall x, x ∈ sel' <->
               x ∈ sel \/
               exists row, row ∈ rows /\ row_icon row = "[V]" /\
                           x = path_child source_parent (row_name row)).
Proof.
  induction rows as [|row rows IH]; intros sel lb added tree' sel' lb' added'.
  - intros [= <- <- <- <-]. repeat split; try done; try lia.
    + intros Hx. by left.
    + intros [Hx | (row & Hrow & _)]; [done | by inversion Hrow].
  - simpl. destruct (String.eqb (row_icon row) "[V]") eqn:Hicon.
    + apply String.eqb_eq in Hicon.
      set (full := path_child source_parent (row_name row)).
      destruct (negb (in_list full sel)) eqn:Hnew.
      * destruct (add_rows source_parent rows (sel ++ [full])
                    (lb ++ [row_name row]) (added + 1))
          as [[[t1 s1] l1] a1] eqn:Hrest.
        apply IH in Hrest
          as (Hpre & Hnd & Hlen & Hlb & Hle & Hnames & Hstat & Hicons & Hmem).
        intros [= <- <- <- <-].
        apply negb_true_iff in Hnew.
        assert (full ∉ sel) as Hfresh.
        { intros Hin. apply in_list_iff in Hin. congruence. }
        rewrite length_app in Hlen, Hlb. simpl in Hlen, Hlb.
        split; [by etrans; [apply prefix_app_r|]|].
        split.
        { intros Hsel. apply Hnd. apply NoDup_app. split; [done|].
          split; [|apply NoDup_singleton].
          intros x Hx Hx'. apply list_elem_of_singleton in Hx'. by subst. }
        split; [lia|]. split; [lia|]. split; [lia|].
        split; [simpl; by rewrite Hnames|].
        split; [simpl; by rewrite Hstat|].
        split; [by constructor|].
        intros x. rewrite Hmem, elem_of_app, list_elem_of_singleton.
        split.
        -- intros [[Hx | ->] | (r & Hr & Hri & ->)]; [by left | |].
           ++ right. exists row. split; [apply list_elem_of_here | done].
           ++ right. exists r. split; [by apply list_elem_of_further | done].
        -- intros [Hx | (r & Hr & Hri & ->)]; [by left; left|].
           apply elem_of_cons in Hr as [-> | Hr]; [by left; right|].
           right. by exists r.
      * destruct (add_rows source_parent rows sel lb added)
          as [[[t1 s1] l1] a1] eqn:Hrest.
        apply IH in Hrest
          as (Hpre & Hnd & Hlen & Hlb & Hle & Hnames & Hstat & Hicons & Hmem).
        intros [= <- <- <- <-].
        apply negb_false_iff, in_list_iff in Hnew.
        split; [done|]. split; [done|]. split; [done|]. split; [done|].
        split; [done|].
        split; [simpl; by rewrite Hnames|].
        split; [simpl; by rewrite Hstat|].
        split; [by constructor|].
        intros x. rewrite Hmem. split.
        -- intros [Hx | (r & Hr & Hri & ->)]; [by left|].
           right. exists r. split; [by apply list_elem_of_further | done].
        -- intros [Hx | (r & Hr & Hri & ->)]; [by left|].
           apply elem_of_cons in Hr as [-> | Hr]; [by left|].
           right. by exists r.
    + apply String.eqb_neq in Hicon.
      destruct (add_rows source_parent rows sel lb added)
        as [[[t1 s1] l1] a1] eqn:Hrest.
      apply IH in Hrest
        as (Hpre & Hnd & Hlen & Hlb & Hle & Hnames & Hstat & Hicons & Hmem).
      intros [= <- <- <- <-].
      split; [done|]. split; [done|]. split; [done|]. split; [done|].
      split; [done|].
      split; [simpl; by rewrite Hnames|].
      split; [simpl; by rewrite Hstat|].
      split; [by constructor|].
      intros x. rewrite Hmem. split.
      * intros [Hx | (r & Hr & Hri & ->)]; [by left|].
        right. exists r. split; [by apply list_elem_of_further | done].
      * intros [Hx | (r & Hr & Hri & ->)]; [by left|].
        apply elem_of_cons in Hr as [-> | Hr]; [done|].
        right. by exists r.
Qed.

(** X17: "Add Selected to Queue" appends to the queue the folders of the
    ticked rows that are not queued yet, and nothing else: the old queue
    stays in front, a queue without duplicates stays without duplicates,
    the list of names shown grows by as many entries as the queue of
    paths, every tick is cleared, names and statuses of the rows stay,
    and the notice is shown exactly when nothing was added. *)
Theorem X17_add_selected_to_queue
    source_parent tree selected_folders queue_listbox
    tree' selected' listbox' notice :
  add_selected_to_queue source_parent tree selected_folders queue_listbox
  = (tree', selected', listbox', notice) ->
  selected_folders `prefix_of` selected' /\
  (NoDup selected_folders -> NoDup selected') /\
  (length queue_listbox = length selected_folders ->
   length listbox' = length selected') /\
  (notice = true <-> selected' = selected_folders) /\
  Forall (fun row => row_icon row <> "[V]") tree' /\
  List.map row_name tree' = List.map row_name tree /\
  List.map row_status tree' = List.map row_status tree /\
  (forall x, x ∈ selected' <->
             x ∈ selected_folders \/
             exists row, row ∈ tree /\ row_icon row = "[V]" /\
                         x = path_child source_parent (row_name row)).
Proof.
  unfold add_selected_to_queue.
  destruct (add_rows source_parent tree selected_folders queue_listbox 0)
    as [[[t1 s1] l1] a1] eqn:Hrows.
  apply add_rows_spec in Hrows
    as (Hpre & Hnd & Hlen & Hlb & Hle & Hnames & Hstat & Hicons & Hmem).
  intros [= <- <- <- <-].
  split; [done|]. split; [done|]. split; [lia|]. split; [|done].
  rewrite Nat.eqb_eq. split.
  - intros ->. destruct Hpre as [k ->]. rewrite length_app in Hlen.
    destruct k; [by rewrite app_nil_r | simpl in Hlen; lia].
  - intros ->. lia.
Qed.

Lemma X17_witness :
  add_selected_to_queue "/t"
    [mkRow "[x]" "A" "Uploaded"; mkRow "[V]" "b" "Ready"; mkRow "[V]" "c" "Ready"]
    ["/t/c"] ["c"]
  = ([mkRow "[x]" "A" "Uploaded"; mkRow "[ ]" "b" "Ready"; mkRow "[ ]" "c" "Ready"],
     ["/t/c"; "/t/b"], ["c"; "b"], false) /\
  NoDup ["/t/c"; "/t/b"].
Proof.
  assert (add_selected_to_queue "/t"
            [mkRow "[x]" "A" "Uploaded"; mkRow "[V]" "b" "Ready";
             mkRow "[V]" "c" "Ready"] ["/t/c"] ["c"]
          = ([mkRow "[x]" "A" "Uploaded"; mkRow "[ ]" "b" "Ready";
              mkRow "[ ]" "c" "Ready"],
             ["/t/c"; "/t/b"], ["c"; "b"], false)) as Hadd
    by (vm_compute; reflexivity).
  destruct (X17_add_selected_to_queue _ _ _ _ _ _ _ _ Hadd) as (_ & Hnd & _).
  refine (conj Hadd (Hnd _)). apply NoDup_singleton.
Defined.

(* ===================================================================== *)
(** ** Removing entries from the queue *)
(* ===================================================================== *)

Lemma elem_of_rev_iff (j : nat) (l : list nat) : j ∈ rev l <-> j ∈ l.
Proof. rewrite !list_elem_of_In. symmetry. apply in_rev. Qed.

Lemma decreasing_below_mono n m indices :
  decreasing_below n indices -> n <= m -> decreasing_below m indices.
Proof. destruct indices as [|i rest]; simpl; [done|]. intros [Hi Hrest] Hle. split; [lia | done]. Qed.

Lemma decreasing_below_bound n indices :
  decreasing_below n indices -> Forall (fun i => i < n) indices.
Proof.
  revert n. induction indices as [|i rest IH]; intros n; simpl; [constructor|].
  intros [Hi Hrest]. constructor; [done|].
  eapply Forall_impl; [exact (IH _ Hrest)|]. simpl. lia.
Qed.

Lemma decreasing_below_snoc n indices i :
  decreasing_below n indices -> i < n ->
  Forall (fun j => i < j) indices ->
  decreasing_below n (indices ++ [i]).
Proof.
  revert n. induction indices as [|j rest IH]; intros n; simpl.
  - done.
  - intros [Hj Hrest] Hi Hall. inversion Hall as [|? ? Hij Hall']; subst.
    split; [done|]. by apply IH.
Qed.

Lemma increasing_below_bound n lo indices :
  increasing_below n lo indices -> Forall (fun i => lo <= i /\ i < n) indices.
Proof.
  revert lo. induction indices as [|i rest IH]; intros lo; simpl; [constructor|].
  intros (Hlo & Hi & Hrest). constructor; [done|].
  eapply Forall_impl; [exact (IH _ Hrest)|]. simpl. lia.
Qed.

Lemma increasing_rev n lo indices :
  increasing_below n lo indices -> decreasing_below n (rev indices).
Proof.
  revert lo. induction indices as [|i rest IH]; intros lo; simpl; [done|].
  intros (Hlo & Hi & Hrest). apply decreasing_below_snoc; [by eapply IH | done |].
  apply Forall_forall. intros j Hj. apply (proj1 (elem_of_rev_iff _ _)) in Hj.
  apply increasing_below_bound in Hrest. rewrite Forall_forall in Hrest.
  specialize (Hrest j Hj). simpl in Hrest. lia.
Qed.

Lemma remove_indices_spec indices :
  forall selected_folders queue_listbox,
    decreasing_below (length selected_folders) indices ->
    exists selected' listbox',
      remove_indices indices selected_folders queue_listbox
      = Some (selected', listbox') /\
      selected' `sublist_of` selected_folders /\
      length selected' + length indices = length selected_folders /\
      (forall (names : string -> string),
          queue_listbox = names <$> selected_folders ->
          listbox' = names <$> selected') /\
      (forall x, x ∈ selected' <->
                 exists j, selected_folders !! j = Some x /\ j ∉ indices).
Proof.
  induction indices as [|idx rest IH]; intros sel lb; simpl.
  - intros _. exists sel, lb. split; [done|]. split; [done|].
    split; [lia|]. split; [done|].
    intros x. rewrite list_elem_of_lookup. split.
    + intros [j Hj]. exists j. split; [done|]. by intros Hin; inversion Hin.
    + intros (j & Hj & _). by exists j.
  - intros [Hidx Hrest].
    destruct (lookup_lt_is_Some_2 sel idx Hidx) as [folder_path Hlook].
    rewrite Hlook.
    assert (length (delete idx sel) = length sel - 1) as Hlen
      by (apply length_delete; by exists folder_path).
    destruct (IH (delete idx sel) (delete idx lb)) as
      (sel' & lb' & Hrun & Hsub & Hcount & Hsync & Hmem).
    { eapply decreasing_below_mono; [exact Hrest | lia]. }
    exists sel', lb'. split; [done|].
    split; [etrans; [exact Hsub | apply sublist_delete]|].
    split; [simpl; lia|].
    split.
    { intros names ->. apply Hsync. by rewrite list_fmap_delete. }
    pose proof (decreasing_below_bound _ _ Hrest) as Hbound.
    rewrite Forall_forall in Hbound.
    intros x. rewrite Hmem. split.
    + intros (j & Hj & Hnot). destruct (decide (j < idx)) as [Hlt | Hge].
      * rewrite list_lookup_delete_lt in Hj by done.
        exists j. split; [done|]. rewrite not_elem_of_cons. split; [lia | done].
      * rewrite list_lookup_delete_ge in Hj by lia.
        exists (S j). split; [done|]. rewrite not_elem_of_cons. split; [lia|].
        intros Hin. specialize (Hbound _ Hin). simpl in Hbound. lia.
    + intros (j & Hj & Hnot). apply not_elem_of_cons in Hnot as [Hne Hnot].
      destruct (decide (j < idx)) as [Hlt | Hge].
      * exists j. split; [by rewrite list_lookup_delete_lt | done].
      * destruct j as [|j]; [lia|].
        exists j. split; [rewrite list_lookup_delete_ge by lia; done|].
        intros Hin. specialize (Hbound _ Hin). simpl in Hbound. lia.
Qed.

(** X18: "Remove Selected" with the indices the list box reports
    (increasing, each below the length of the queue) raises no IndexError
    and removes exactly the entries at these positions: what is left is
    the queue without them, in its order, shorter by the number of
    indices, and the names shown stay those of the queued paths. *)
Theorem X18_remove_from_queue curselection selected_folders queue_listbox :
  increasing_below (length selected_folders) 0 curselection ->
  exists selected' listbox',
    remove_from_queue curselection selected_folders queue_listbox
    = Some (selected', listbox') /\
    selected' `sublist_of` selected_folders /\
    length selected' + length curselection = length selected_folders /\
    (forall (names : string -> string),
        queue_listbox = names <$> selected_folders ->
        listbox' = names <$> selected') /\
    (forall x, x ∈ selected' <->
               exists j, selected_folders !! j = Some x /\ j ∉ curselection).
Proof.
  intros Hinc. unfold remove_from_queue.
  destruct (remove_indices_spec (rev curselection) selected_folders
              queue_listbox (increasing_rev _ _ _ Hinc))
    as (sel' & lb' & Hrun & Hsub & Hcount & Hsync & Hmem).
  exists sel', lb'. split; [done|]. split; [done|].
  split; [by rewrite length_rev in Hcount|]. split; [done|].
  intros x. rewrite Hmem. by setoid_rewrite elem_of_rev_iff.
Qed.

Lemma X18_witness :
  increasing_below 4 0 [0; 2] /\
  exists selected' listbox',
    remove_from_queue [0; 2] ["/t/a"; "/t/b"; "/t/c"; "/t/d"] ["a"; "b"; "c"; "d"]
    = Some (selected', listbox') /\
    length selected' + 2 = 4.
Proof.
  assert (increasing_below (length ["/t/a"; "/t/b"; "/t/c"; "/t/d"]) 0 [0; 2])
    as Hinc by (simpl; lia).
  destruct (X18_remove_from_queue [0; 2] ["/t/a"; "/t/b"; "/t/c"; "/t/d"]
              ["a"; "b"; "c"; "d"] Hinc)
    as (sel' & lb' & Hrun & _ & Hcount & _).
  exact (conj Hinc (ex_intro _ sel' (ex_intro _ lb' (conj Hrun Hcount)))).
Defined.

(** A selection that names a position past the end of the queue makes
    line 418 raise IndexError. *)
Example remove_from_queue_out_of_range :
  remove_from_queue [1] ["/t/a"] ["a"] = None.
Proof. reflexivity. Qed.
